(** * Interaction and moderation layer of the fanwork archive

    A shallow embedding of [server/storage.ts] (class [DatabaseStorage]),
    [server/auth.ts] (the role-gated middlewares) and the two read routes of
    [server/routes.ts], over the tables declared in [shared/schema.ts]
    (the moderation-capable revision: users carry [role], [isBanned],
    [ageVerified], [isActive]; fanworks carry [isHidden] and the other
    moderation columns; a [reports] table exists).

    The relational store is modelled as a record of tables, each a list of
    rows in insertion order, together with the [serial] sequences that the
    modelled inserts draw from.  Every storage method is a computation in a
    small state-and-error monad over that record: a statement either
    succeeds, or fails with a store error and leaves the state produced by
    the statements that completed before it. *)

From stdpp Require Import base decidable option list strings sorting pretty.
From Stdlib Require Import ZArith Lia Ascii.

Local Open Scope string_scope.
Local Open Scope list_scope.
Local Open Scope Z_scope.

(** ** Rows ([shared/schema.ts])

    A nullable column is an [option]; timestamps are integers; a column the
    schema marks [notNull()] is a plain value. *)

Record User := {
  u_id : Z;
  u_email : string;
  u_username : string;
  u_passwordHash : string;
  u_firstName : option string;
  u_lastName : option string;
  u_profileImageUrl : option string;
  u_role : string;
  u_isBanned : bool;
  u_banReason : option string;
  u_bannedAt : option Z;
  u_bannedBy : option Z;
  u_ageVerified : bool;
  u_isActive : option bool;
  u_createdAt : option Z;
  u_updatedAt : option Z
}.

Record Fanwork := {
  fw_id : Z;
  fw_title : string;
  fw_description : option string;
  fw_type : string;
  fw_rating : string;
  fw_content : option string;
  fw_imageUrl : option string;
  fw_fileUrl : option string;
  fw_wordCount : option Z;
  fw_chapterCount : option Z;
  fw_isComplete : option bool;
  fw_authorId : Z;
  fw_isHidden : bool;
  fw_moderationReason : option string;
  fw_moderatedAt : option Z;
  fw_moderatedBy : option Z;
  fw_contentType : string;
  fw_isReported : bool;
  fw_reportCount : Z;
  fw_ao3WorkId : option string;
  fw_ao3Url : option string;
  fw_originalAuthor : option string;
  fw_importedAt : option Z;
  fw_createdAt : option Z;
  fw_updatedAt : option Z
}.

Record Tag := {
  tag_id : Z;
  tag_name : string;
  tag_createdAt : option Z
}.

Record FanworkTag := {
  ft_id : Z;
  ft_fanworkId : Z;
  ft_tagId : Z
}.

(** [likes] and [bookmarks] declare the same four columns, so the inferred
    row types [Like] and [Bookmark] are one structural type. *)
Record PairRow := {
  pr_id : Z;
  pr_userId : Z;
  pr_fanworkId : Z;
  pr_createdAt : option Z
}.

Abbreviation Like := PairRow (only parsing).
Abbreviation Bookmark := PairRow (only parsing).

Record Comment := {
  cm_id : Z;
  cm_content : string;
  cm_userId : Z;
  cm_fanworkId : Z;
  cm_createdAt : option Z;
  cm_updatedAt : option Z
}.

Record Report := {
  rp_id : Z;
  rp_reporterId : Z;
  rp_fanworkId : option Z;
  rp_commentId : option Z;
  rp_userId : option Z;
  rp_reason : string;
  rp_description : option string;
  rp_status : string;
  rp_reviewedBy : option Z;
  rp_reviewedAt : option Z;
  rp_moderationAction : option string;
  rp_createdAt : option Z
}.

(** ** The store ([server/db.ts]) *)

Record Db := {
  users : list User;
  fanworks : list Fanwork;
  tags : list Tag;
  fanworkTags : list FanworkTag;
  likes : list Like;
  comments : list Comment;
  bookmarks : list Bookmark;
  reports : list Report;
  likes_id_seq : Z;
  bookmarks_id_seq : Z;
  db_now : Z
}.

Definition set_users (v : list User) (db : Db) : Db :=
  {| users := v; fanworks := fanworks db; tags := tags db;
     fanworkTags := fanworkTags db; likes := likes db;
     comments := comments db; bookmarks := bookmarks db;
     reports := reports db; likes_id_seq := likes_id_seq db;
     bookmarks_id_seq := bookmarks_id_seq db; db_now := db_now db |}.

Definition set_fanworks (v : list Fanwork) (db : Db) : Db :=
  {| users := users db; fanworks := v; tags := tags db;
     fanworkTags := fanworkTags db; likes := likes db;
     comments := comments db; bookmarks := bookmarks db;
     reports := reports db; likes_id_seq := likes_id_seq db;
     bookmarks_id_seq := bookmarks_id_seq db; db_now := db_now db |}.

Definition set_likes (v : list Like) (db : Db) : Db :=
  {| users := users db; fanworks := fanworks db; tags := tags db;
     fanworkTags := fanworkTags db; likes := v;
     comments := comments db; bookmarks := bookmarks db;
     reports := reports db; likes_id_seq := likes_id_seq db;
     bookmarks_id_seq := bookmarks_id_seq db; db_now := db_now db |}.

Definition set_comments (v : list Comment) (db : Db) : Db :=
  {| users := users db; fanworks := fanworks db; tags := tags db;
     fanworkTags := fanworkTags db; likes := likes db;
     comments := v; bookmarks := bookmarks db;
     reports := reports db; likes_id_seq := likes_id_seq db;
     bookmarks_id_seq := bookmarks_id_seq db; db_now := db_now db |}.

Definition set_bookmarks (v : list Bookmark) (db : Db) : Db :=
  {| users := users db; fanworks := fanworks db; tags := tags db;
     fanworkTags := fanworkTags db; likes := likes db;
     comments := comments db; bookmarks := v;
     reports := reports db; likes_id_seq := likes_id_seq db;
     bookmarks_id_seq := bookmarks_id_seq db; db_now := db_now db |}.

Definition set_reports (v : list Report) (db : Db) : Db :=
  {| users := users db; fanworks := fanworks db; tags := tags db;
     fanworkTags := fanworkTags db; likes := likes db;
     comments := comments db; bookmarks := bookmarks db;
     reports := v; likes_id_seq := likes_id_seq db;
     bookmarks_id_seq := bookmarks_id_seq db; db_now := db_now db |}.

Definition set_likes_id_seq (v : Z) (db : Db) : Db :=
  {| users := users db; fanworks := fanworks db; tags := tags db;
     fanworkTags := fanworkTags db; likes := likes db;
     comments := comments db; bookmarks := bookmarks db;
     reports := reports db; likes_id_seq := v;
     bookmarks_id_seq := bookmarks_id_seq db; db_now := db_now db |}.

Definition set_bookmarks_id_seq (v : Z) (db : Db) : Db :=
  {| users := users db; fanworks := fanworks db; tags := tags db;
     fanworkTags := fanworkTags db; likes := likes db;
     comments := comments db; bookmarks := bookmarks db;
     reports := reports db; likes_id_seq := likes_id_seq db;
     bookmarks_id_seq := v; db_now := db_now db |}.

(** ** Store errors and the storage monad

    A rejected statement raises; the [async] method that issued it rejects
    with the same error.  Statements are not wrapped in a transaction, so
    the state reached before the failure stays. *)

Inductive DbError :=
| UniqueViolation
| ForeignKeyViolation
| StringDataRightTruncation
| InvalidTextRepresentation
| NumericValueOutOfRange
| NegativeOffset
| NoValuesToSet.

Inductive Result (A : Type) :=
| Ok (a : A)
| Err (e : DbError).
Arguments Ok {A} a.
Arguments Err {A} e.

Definition M (A : Type) : Type := Db → Result A * Db.

#[export] Instance M_ret : MRet M := λ A a db, (Ok a, db).

#[export] Instance M_bind : MBind M := λ A B k m db,
  match m db with
  | (Ok a, db') => k a db'
  | (Err e, db') => (Err e, db')
  end.

#[export] Instance M_fmap : FMap M := λ A B f m db,
  match m db with
  | (Ok a, db') => (Ok (f a), db')
  | (Err e, db') => (Err e, db')
  end.

Definition throw {A} (e : DbError) : M A := λ db, (Err e, db).

(** The state a computation leaves, and the value it returns. *)
Definition exec {A} (m : M A) (db : Db) : Db := snd (m db).
Definition result {A} (m : M A) (db : Db) : Result A := fst (m db).

(** ** Numbers of the store

    An [integer] column holds a 32-bit value, and a number bound to a
    parameter that is compared with such a column must fit it: the store
    refuses the statement otherwise, when its parameters are bound and
    before it runs.  [count( * )] and the operands of [LIMIT] and [OFFSET]
    are [bigint]; the driver hands a [bigint] to the program as its
    decimal text. *)

Definition int4 (v : Z) : Prop := -2147483648 ≤ v ≤ 2147483647.

Definition int8 (v : Z) : Prop :=
  -9223372036854775808 ≤ v ≤ 9223372036854775807.

#[export] Instance int4_dec v : Decision (int4 v).
Proof. unfold int4. apply _. Defined.

#[export] Instance int8_dec v : Decision (int8 v).
Proof. unfold int8. apply _. Defined.

Definition int8_out (v : Z) : string := pretty v.

(** The error for a number that is no value of its parameter's type.  The
    program sends a whole number below [10^21] in decimal digits, and the
    store finds it out of range (22003); it sends a larger one with an
    exponent, which is no text of an integer (22P02). *)
Definition number_refused (v : Z) : DbError :=
  if bool_decide (Z.abs v < 10 ^ 21) then NumericValueOutOfRange
  else InvalidTextRepresentation.

(** Of two parameters bound in this order, the first that does not fit an
    [integer]. *)
Definition first_unfit (a b : Z) : Z := if decide (int4 a) then b else a.

(** ** Statements on the two pair tables *)

Inductive PairTable := likes_t | bookmarks_t.

#[export] Instance PairTable_eq_dec : EqDecision PairTable.
Proof. solve_decision. Defined.

Definition pair_rows (t : PairTable) (db : Db) : list PairRow :=
  match t with likes_t => likes db | bookmarks_t => bookmarks db end.

Definition set_pair_rows (t : PairTable) (v : list PairRow) (db : Db) : Db :=
  match t with likes_t => set_likes v db | bookmarks_t => set_bookmarks v db end.

Definition pair_seq (t : PairTable) (db : Db) : Z :=
  match t with likes_t => likes_id_seq db | bookmarks_t => bookmarks_id_seq db end.

Definition set_pair_seq (t : PairTable) (v : Z) (db : Db) : Db :=
  match t with
  | likes_t => set_likes_id_seq v db
  | bookmarks_t => set_bookmarks_id_seq v db
  end.

(** [and(eq(t.userId, userId), eq(t.fanworkId, fanworkId))] *)
Definition pair_is (userId fanworkId : Z) (r : PairRow) : Prop :=
  pr_userId r = userId ∧ pr_fanworkId r = fanworkId.

#[export] Instance pair_is_dec u f r : Decision (pair_is u f r).
Proof. unfold pair_is. apply _. Defined.

(** [db.select().from(t).where(and(eq(t.userId, userId),
    eq(t.fanworkId, fanworkId)))]: both parameters are compared with
    [integer] columns. *)
Definition select_pairs (t : PairTable) (userId fanworkId : Z)
    : M (list PairRow) :=
  λ db,
    if decide (int4 userId ∧ int4 fanworkId)
    then (Ok (filter (pair_is userId fanworkId) (pair_rows t db)), db)
    else (Err (number_refused (first_unfit userId fanworkId)), db).

(** [db.delete(t).where(and(eq(t.userId, userId),
    eq(t.fanworkId, fanworkId)))]: neither table is referenced by
    another. *)
Definition delete_pairs (t : PairTable) (userId fanworkId : Z) : M unit :=
  λ db,
    if decide (int4 userId ∧ int4 fanworkId)
    then (Ok (),
          set_pair_rows t
            (filter (λ r, ¬ pair_is userId fanworkId r) (pair_rows t db)) db)
    else (Err (number_refused (first_unfit userId fanworkId)), db).

(** A value refers to a row of [users], or of [fanworks]: it is a value of
    the [integer] key column, and a row carries it. *)
Definition user_exists (userId : Z) (db : Db) : Prop :=
  int4 userId ∧ userId ∈ u_id <$> users db.

Definition fanwork_exists (fanworkId : Z) (db : Db) : Prop :=
  int4 fanworkId ∧ fanworkId ∈ fw_id <$> fanworks db.

#[export] Instance user_exists_dec i db : Decision (user_exists i db).
Proof. unfold user_exists. apply _. Defined.

#[export] Instance fanwork_exists_dec i db : Decision (fanwork_exists i db).
Proof. unfold fanwork_exists. apply _. Defined.

(** [db.insert(t).values({ userId, fanworkId })].  A parameter that is no
    value of its [integer] column is refused before the statement runs.
    Otherwise the [id] comes from the table's sequence, which advances
    whether or not the row is accepted; [createdAt] is [defaultNow()].
    The row is rejected when its [id] is already taken (primary key) or
    when [userId] or [fanworkId] refers to no row (the two [references]
    clauses). *)
Definition insert_pair (t : PairTable) (userId fanworkId : Z) : M unit :=
  λ db,
    let id := pair_seq t db in
    let db1 := set_pair_seq t (id + 1) db in
    if decide (¬ (int4 userId ∧ int4 fanworkId))
    then (Err (number_refused (first_unfit userId fanworkId)), db)
    else if decide (id ∈ pr_id <$> pair_rows t db) then (Err UniqueViolation, db1)
    else if decide (user_exists userId db) then
      if decide (fanwork_exists fanworkId db) then
        (Ok (),
         set_pair_rows t
           (pair_rows t db1 ++
            [ {| pr_id := id; pr_userId := userId;
                 pr_fanworkId := fanworkId;
                 pr_createdAt := Some (db_now db) |} ]) db1)
      else (Err ForeignKeyViolation, db1)
    else (Err ForeignKeyViolation, db1).

(** ** Interaction operations ([storage.ts]) *)

Definition toggleLike (userId fanworkId : Z) : M bool :=
  existing ← head <$> select_pairs likes_t userId fanworkId;
  match existing with
  | Some _ =>
      _ ← delete_pairs likes_t userId fanworkId;
      mret false
  | None =>
      _ ← insert_pair likes_t userId fanworkId;
      mret true
  end.

Definition toggleBookmark (userId fanworkId : Z) : M bool :=
  existing ← head <$> select_pairs bookmarks_t userId fanworkId;
  match existing with
  | Some _ =>
      _ ← delete_pairs bookmarks_t userId fanworkId;
      mret false
  | None =>
      _ ← insert_pair bookmarks_t userId fanworkId;
      mret true
  end.

Definition isLiked (userId fanworkId : Z) : M bool :=
  existing ← head <$> select_pairs likes_t userId fanworkId;
  mret (bool_decide (is_Some existing)).

Definition isBookmarked (userId fanworkId : Z) : M bool :=
  existing ← head <$> select_pairs bookmarks_t userId fanworkId;
  mret (bool_decide (is_Some existing)).

(** ** Counters ([getFanworkCounts])

    [count( * )] walks the rows the [where] clause keeps and adds one for
    each; an aggregate query without [group by] answers with exactly one
    row.  The column is a [bigint]: the [sql<number>] annotation of the
    query is a type for the compiler only, and what the row holds when the
    program runs is the text the driver was sent. *)

Definition count_star {R} (P : R → Prop) `{!∀ r, Decision (P r)}
    (rows : list R) : Z :=
  foldl (λ n r, if decide (P r) then n + 1 else n) 0 rows.

(** [db.select({ count: sql<number>`count( * )` }).from(table).where(P)] *)
Definition select_count {R} (P : R → Prop) `{!∀ r, Decision (P r)}
    (rows : list R) : list string :=
  [int8_out (count_star P rows)].

(** What a field of the answer holds: the text of a row, or a number. *)
Inductive CountValue :=
| CountText (s : string)
| CountNumber (n : Z).

(** [row?.count || 0]: of all strings only the empty one is falsy. *)
Definition count_or_0 (row : option string) : CountValue :=
  match row with
  | Some count =>
      if bool_decide (count = "") then CountNumber 0 else CountText count
  | None => CountNumber 0
  end.

Record Counts := {
  c_likes : CountValue;
  c_comments : CountValue;
  c_bookmarks : CountValue
}.

(** The three queries run one after the other; [fanworkId] is compared
    with the [integer] column [fanworkId] of each table. *)
Definition getFanworkCounts (fanworkId : Z) : M Counts :=
  λ db,
    if decide (¬ int4 fanworkId) then (Err (number_refused fanworkId), db)
    else
      let likesCount :=
        head (select_count (λ r, pr_fanworkId r = fanworkId) (likes db)) in
      let commentsCount :=
        head (select_count (λ r, cm_fanworkId r = fanworkId) (comments db)) in
      let bookmarksCount :=
        head (select_count (λ r, pr_fanworkId r = fanworkId) (bookmarks db)) in
      (Ok {| c_likes := count_or_0 likesCount;
             c_comments := count_or_0 commentsCount;
             c_bookmarks := count_or_0 bookmarksCount |}, db).

(** ** The totals of the profile page ([getStats], client)

    [userFanworks.reduce((sum, w) => sum + (w.counts?.likes || 0), 0)]:
    [+] adds two numbers and otherwise joins the texts of its operands;
    [||] takes its right operand when the left one is falsy (the number
    0, the empty string, a missing value). *)
Definition js_text (v : CountValue) : string :=
  match v with CountText s => s | CountNumber n => pretty n end.

Definition js_plus (a b : CountValue) : CountValue :=
  match a, b with
  | CountNumber x, CountNumber y => CountNumber (x + y)
  | _, _ => CountText (js_text a +:+ js_text b)
  end.

Definition js_or_0 (v : option CountValue) : CountValue :=
  match v with
  | Some (CountText s) =>
      if bool_decide (s = "") then CountNumber 0 else CountText s
  | Some (CountNumber n) => CountNumber n
  | None => CountNumber 0
  end.

Definition totalLikes (userFanworks : list (option Counts)) : CountValue :=
  foldl (λ sum w, js_plus sum (js_or_0 (c_likes <$> w))) (CountNumber 0)
    userFanworks.

Definition totalComments (userFanworks : list (option Counts)) : CountValue :=
  foldl (λ sum w, js_plus sum (js_or_0 (c_comments <$> w))) (CountNumber 0)
    userFanworks.

(** ** Single-row reads *)

Definition getUserById (id : Z) : M (option User) :=
  λ db, (Ok (head (filter (λ u, u_id u = id) (users db))), db).

Definition getFanwork (id : Z) : M (option Fanwork) :=
  λ db, (Ok (head (filter (λ f, fw_id f = id) (fanworks db))), db).

(** ** Comments

    [reports.commentId] references [comments.id] with [onDelete: "cascade"],
    so the reports filed against a deleted comment go with it. *)

Definition refers_to (keys : list Z) (ref : option Z) : Prop :=
  match ref with Some k => k ∈ keys | None => False end.

#[export] Instance refers_to_dec keys ref : Decision (refers_to keys ref).
Proof. destruct ref; simpl; apply _. Defined.

Definition deleteComment (id userId : Z) : M unit :=
  λ db,
    let doomed := filter (λ c, cm_id c = id ∧ cm_userId c = userId) (comments db) in
    let kept := filter (λ c, ¬ (cm_id c = id ∧ cm_userId c = userId)) (comments db) in
    (Ok (),
     set_reports
       (filter (λ r, ¬ refers_to (cm_id <$> doomed) (rp_commentId r))
          (reports db))
       (set_comments kept db)).

(** ** Moderation operations *)

(** A foreign-key column is checked when an [update] changes it: the new
    value must be [null] or the key of a row of the referenced table. *)
Definition fk_broken (keys : list Z) (old new : option Z) : Prop :=
  new ≠ old ∧ ∃ k, new = Some k ∧ k ∉ keys.

#[export] Instance fk_broken_dec keys old new : Decision (fk_broken keys old new).
Proof.
  unfold fk_broken. destruct new as [k|].
  - destruct (decide (Some k ≠ old)); [|right; tauto].
    destruct (decide (k ∈ keys)).
    + right. intros [_ (k' & [= <-] & ?)]. tauto.
    + left. eauto.
  - right. intros [_ (k & ? & _)]. discriminate.
Defined.

(** [Partial<Report>]: a key that is absent (or [undefined]) is [None]; a
    nullable column may be set to [null], which is [Some None]. *)
Record ReportPatch := {
  p_id : option Z;
  p_reporterId : option Z;
  p_fanworkId : option (option Z);
  p_commentId : option (option Z);
  p_userId : option (option Z);
  p_reason : option string;
  p_description : option (option string);
  p_status : option string;
  p_reviewedBy : option (option Z);
  p_reviewedAt : option (option Z);
  p_moderationAction : option (option string);
  p_createdAt : option (option Z)
}.

Definition patch_has_values (p : ReportPatch) : bool :=
  bool_decide (is_Some (p_id p)) || bool_decide (is_Some (p_reporterId p))
  || bool_decide (is_Some (p_fanworkId p))
  || bool_decide (is_Some (p_commentId p))
  || bool_decide (is_Some (p_userId p)) || bool_decide (is_Some (p_reason p))
  || bool_decide (is_Some (p_description p))
  || bool_decide (is_Some (p_status p))
  || bool_decide (is_Some (p_reviewedBy p))
  || bool_decide (is_Some (p_reviewedAt p))
  || bool_decide (is_Some (p_moderationAction p))
  || bool_decide (is_Some (p_createdAt p)).

(** [.set(data)] on one row *)
Definition set_report (data : ReportPatch) (r : Report) : Report :=
  {| rp_id := default (rp_id r) (p_id data);
     rp_reporterId := default (rp_reporterId r) (p_reporterId data);
     rp_fanworkId := default (rp_fanworkId r) (p_fanworkId data);
     rp_commentId := default (rp_commentId r) (p_commentId data);
     rp_userId := default (rp_userId r) (p_userId data);
     rp_reason := default (rp_reason r) (p_reason data);
     rp_description := default (rp_description r) (p_description data);
     rp_status := default (rp_status r) (p_status data);
     rp_reviewedBy := default (rp_reviewedBy r) (p_reviewedBy data);
     rp_reviewedAt := default (rp_reviewedAt r) (p_reviewedAt data);
     rp_moderationAction :=
       default (rp_moderationAction r) (p_moderationAction data);
     rp_createdAt := default (rp_createdAt r) (p_createdAt data) |}.

(** The [varchar(n)] columns of [reports]: a value bound for one of them
    must fit it. *)
Definition patch_fits (data : ReportPatch) : Prop :=
  (from_option String.length 0%nat (p_reason data) ≤ 100)%nat
  ∧ (from_option String.length 0%nat (p_status data) ≤ 20)%nat
  ∧ (from_option (from_option String.length 0%nat) 0%nat
       (p_moderationAction data) ≤ 50)%nat.

#[export] Instance patch_fits_dec data : Decision (patch_fits data).
Proof. unfold patch_fits. apply _. Defined.

(** The references of [reports], for a row [old] rewritten as [new] *)
Definition report_refs_broken (db : Db) (old new : Report) : Prop :=
  fk_broken (u_id <$> users db) (Some (rp_reporterId old)) (Some (rp_reporterId new))
  ∨ fk_broken (fw_id <$> fanworks db) (rp_fanworkId old) (rp_fanworkId new)
  ∨ fk_broken (cm_id <$> comments db) (rp_commentId old) (rp_commentId new)
  ∨ fk_broken (u_id <$> users db) (rp_userId old) (rp_userId new)
  ∨ fk_broken (u_id <$> users db) (rp_reviewedBy old) (rp_reviewedBy new).

#[export] Instance report_refs_broken_dec db old new :
  Decision (report_refs_broken db old new).
Proof. unfold report_refs_broken. apply _. Defined.

(** [db.update(reports).set(data).where(eq(reports.id, id)).returning()].
    The builder refuses an object without values before anything is sent.
    The store rejects a value that overflows its [varchar]; it then
    rewrites every row the [where] clause keeps, and rejects the statement
    when a rewritten row breaks a reference or leaves two rows with one
    primary key. *)
Definition updateReport (id : Z) (data : ReportPatch) : M (option Report) :=
  λ db,
    if negb (patch_has_values data) then (Err NoValuesToSet, db)
    else if decide (¬ patch_fits data) then (Err StringDataRightTruncation, db)
    else
      let hit := filter (λ r, rp_id r = id) (reports db) in
      let table' :=
        (λ r, if decide (rp_id r = id) then set_report data r else r)
          <$> reports db in
      if decide (Exists (λ r, report_refs_broken db r (set_report data r)) hit)
      then (Err ForeignKeyViolation, db)
      else if decide (hit ≠ [] ∧ is_Some (p_id data) ∧ ¬ NoDup (rp_id <$> table'))
      then (Err UniqueViolation, db)
      else (Ok (head (set_report data <$> hit)), set_reports table' db).

(** [banUser(userId, data)].  The method types [userId] and [bannedBy] as
    strings while [users.id] and [users.bannedBy] are integer columns; the
    store reads such a parameter as the integer it spells, and the model
    takes that integer.  [bannedBy] references [users.id]. *)
Record BanData := {
  banReason : string;
  bannedBy : Z;
  bannedAt : Z
}.

Definition set_ban (data : BanData) (u : User) : User :=
  {| u_id := u_id u; u_email := u_email u; u_username := u_username u;
     u_passwordHash := u_passwordHash u; u_firstName := u_firstName u;
     u_lastName := u_lastName u; u_profileImageUrl := u_profileImageUrl u;
     u_role := u_role u;
     u_isBanned := true;
     u_banReason := Some (banReason data);
     u_bannedAt := Some (bannedAt data);
     u_bannedBy := Some (bannedBy data);
     u_ageVerified := u_ageVerified u; u_isActive := u_isActive u;
     u_createdAt := u_createdAt u; u_updatedAt := u_updatedAt u |}.

Definition banUser (userId : Z) (data : BanData) : M (option User) :=
  λ db,
    let hit := filter (λ u, u_id u = userId) (users db) in
    if decide (Exists (λ u, fk_broken (u_id <$> users db) (u_bannedBy u)
                              (Some (bannedBy data))) hit)
    then (Err ForeignKeyViolation, db)
    else
      (Ok (head (set_ban data <$> hit)),
       set_users
         ((λ u, if decide (u_id u = userId) then set_ban data u else u)
            <$> users db) db).

(** [hideFanwork(fanworkId, data)]; [moderatedBy] references [users.id]. *)
Record HideData := {
  moderationReason : string;
  moderatedBy : Z;
  moderatedAt : Z
}.

Definition set_moderation (hidden : bool) (reason : option string)
    (by_ at_ : option Z) (f : Fanwork) : Fanwork :=
  {| fw_id := fw_id f; fw_title := fw_title f;
     fw_description := fw_description f; fw_type := fw_type f;
     fw_rating := fw_rating f; fw_content := fw_content f;
     fw_imageUrl := fw_imageUrl f; fw_fileUrl := fw_fileUrl f;
     fw_wordCount := fw_wordCount f; fw_chapterCount := fw_chapterCount f;
     fw_isComplete := fw_isComplete f; fw_authorId := fw_authorId f;
     fw_isHidden := hidden;
     fw_moderationReason := reason;
     fw_moderatedAt := at_;
     fw_moderatedBy := by_;
     fw_contentType := fw_contentType f; fw_isReported := fw_isReported f;
     fw_reportCount := fw_reportCount f; fw_ao3WorkId := fw_ao3WorkId f;
     fw_ao3Url := fw_ao3Url f; fw_originalAuthor := fw_originalAuthor f;
     fw_importedAt := fw_importedAt f; fw_createdAt := fw_createdAt f;
     fw_updatedAt := fw_updatedAt f |}.

Definition set_hide (data : HideData) : Fanwork → Fanwork :=
  set_moderation true (Some (moderationReason data))
    (Some (moderatedBy data)) (Some (moderatedAt data)).

Definition hideFanwork (fanworkId : Z) (data : HideData) : M (option Fanwork) :=
  λ db,
    let hit := filter (λ f, fw_id f = fanworkId) (fanworks db) in
    if decide (Exists (λ f, fk_broken (u_id <$> users db) (fw_moderatedBy f)
                              (Some (moderatedBy data))) hit)
    then (Err ForeignKeyViolation, db)
    else
      (Ok (head (set_hide data <$> hit)),
       set_fanworks
         ((λ f, if decide (fw_id f = fanworkId) then set_hide data f else f)
            <$> fanworks db) db).

(** ** Text helpers used by the listing query *)

Definition chars (s : string) : list ascii := String.list_ascii_of_string s.

(** ASCII case folding, as [ILIKE] applies it to both operands. *)
Definition lower (c : ascii) : ascii :=
  let n := Ascii.nat_of_ascii c in
  if bool_decide (65 ≤ n ≤ 90)%nat then Ascii.ascii_of_nat (n + 32) else c.

(** [LIKE]: [%] stands for any run of characters, [_] for any one
    character, and a backslash takes the next pattern character
    literally. *)
Fixpoint like_match (p : list ascii) : list ascii → bool :=
  match p with
  | [] => λ t, bool_decide (t = [])
  | c :: p' =>
      if bool_decide (c = "%"%char) then
        fix star (t : list ascii) : bool :=
          like_match p' t || match t with [] => false | _ :: t' => star t' end
      else if bool_decide (c = "_"%char) then
        λ t, match t with [] => false | _ :: t' => like_match p' t' end
      else if bool_decide (c = "\"%char) then
        match p' with
        | [] => λ _, false
        | c' :: p'' =>
            λ t, match t with
                 | [] => false
                 | x :: t' => bool_decide (x = c') && like_match p'' t'
                 end
        end
      else
        λ t, match t with
             | [] => false
             | x :: t' => bool_decide (x = c) && like_match p' t'
             end
  end.

(** [text ILIKE pattern] *)
Definition ilike (text pattern : string) : bool :=
  like_match (lower <$> chars pattern) (lower <$> chars text).

(** [parseInt(s)] without a radix: leading white space, an optional sign,
    an optional [0x] prefix, then the longest run of digits; [None] is
    [NaN]. *)
Definition is_space (c : ascii) : bool :=
  bool_decide (Ascii.nat_of_ascii c ∈ [32; 9; 10; 11; 12; 13]%nat).

Definition digit_of (radix : Z) (c : ascii) : option Z :=
  let n := Z.of_nat (Ascii.nat_of_ascii c) in
  let d := if bool_decide (48 ≤ n ≤ 57) then Some (n - 48)
           else if bool_decide (97 ≤ n ≤ 122) then Some (n - 87)
           else if bool_decide (65 ≤ n ≤ 90) then Some (n - 55)
           else None in
  d ≫= λ v, if bool_decide (v < radix) then Some v else None.

Fixpoint skip_space (s : list ascii) : list ascii :=
  match s with
  | c :: s' => if is_space c then skip_space s' else s
  | [] => []
  end.

Fixpoint read_digits (radix : Z) (s : list ascii) (acc : option Z) : option Z :=
  match s with
  | c :: s' =>
      match digit_of radix c with
      | Some d => read_digits radix s' (Some (default 0 acc * radix + d))
      | None => acc
      end
  | [] => acc
  end.

Definition parseInt (s : string) : option Z :=
  let s := skip_space (chars s) in
  let '(sign, s) :=
    match s with
    | c :: s' =>
        if bool_decide (c = "-"%char) then (-1, s')
        else if bool_decide (c = "+"%char) then (1, s')
        else (1, s)
    | [] => (1, s)
    end in
  let '(radix, s) :=
    match s with
    | z :: x :: s' =>
        if bool_decide (z = "0"%char)
           && (bool_decide (x = "x"%char) || bool_decide (x = "X"%char))
        then (16, s') else (10, s)
    | _ => (10, s)
    end in
  (λ v, sign * v) <$> read_digits radix s None.

(** A number bound to a parameter that is compared with an [integer]
    column: [NaN] is not an integer, and the value must fit 32 bits. *)
Definition int4_param (n : option Z) : M Z :=
  match n with
  | None => throw InvalidTextRepresentation
  | Some v =>
      if bool_decide (-2147483648 ≤ v ≤ 2147483647) then mret v
      else throw (number_refused v)
  end.

(** ** The [where] clause of the listing query

    The query builder assembles SQL text.  [eq] and [inArray] yield one
    comparison; a [sql] template is spliced as it is written; [and] with
    one condition is that condition, and with several it writes them
    separated by [and] inside one pair of parentheses.  The store reads
    the text with [AND] binding tighter than [OR].  A fragment is kept in
    the shape that reading gives it: alternatives separated by [OR], each
    a run of comparisons separated by [AND].  A [NULL] operand makes a
    comparison unknown, which selects no row, as [false] does. *)

Definition SqlAtom : Type := Fanwork → bool.
Definition SqlText : Type := list (list SqlAtom).

Definition sql_holds (c : SqlText) (f : Fanwork) : bool :=
  existsb (forallb (λ a : SqlAtom, a f)) c.

Definition sql_atom (a : SqlAtom) : SqlText := [[a]].

(** [( c )] *)
Definition sql_paren (c : SqlText) : SqlText := sql_atom (sql_holds c).

(** [a OR b], written without parentheses *)
Definition sql_or (a b : SqlText) : SqlText := a ++ b.

(** [a and b], written without parentheses: the last alternative of [a]
    and the first of [b] meet around the [and]. *)
Fixpoint sql_and (a b : SqlText) : SqlText :=
  match a with
  | [] => b
  | [g] => match b with [] => [g] | h :: b' => (g ++ h) :: b' end
  | g :: a' => g :: sql_and a' b
  end.

(** [and(...conditions)] *)
Definition and_ (conditions : list SqlText) : option SqlText :=
  match conditions with
  | [] => None
  | [c] => Some c
  | c :: cs => Some (sql_paren (foldl sql_and c cs))
  end.

Definition inArray (column : Fanwork → string) (values : list string) : SqlText :=
  sql_atom (λ f, bool_decide (column f ∈ values)).

Definition eq_int (column : Fanwork → Z) (value : Z) : SqlText :=
  sql_atom (λ f, bool_decide (column f = value)).

Definition title_ilike (pattern : string) : SqlText :=
  sql_atom (λ f, ilike (fw_title f) pattern).

Definition description_ilike (pattern : string) : SqlText :=
  sql_atom (λ f, from_option (λ d, ilike d pattern) false (fw_description f)).

(** [orderBy(desc(t.createdAt))]: latest first, [NULL] before any date.
    Among rows of equal dates the store promises no order, and what it
    does may differ from one execution to the next: a plan with a [LIMIT]
    sorts otherwise than one without, and a row that was updated has moved
    in its table.  A [Scan] is the order in which one execution of a query
    comes upon the rows it has selected, some permutation of them; the
    sort keeps that order among equals. *)
Record Scan (R : Type) := {
  scan_rows :> list R → list R;
  scan_perm : ∀ l, scan_rows l ≡ₚ l
}.
Arguments scan_rows {R} _ _.
Arguments scan_perm {R} _ _.

(** Two scans: the rows as the table lists them, and the other way
    round. *)
Definition table_order {R} : Scan R :=
  {| scan_rows := λ l, l; scan_perm := λ l, Permutation_refl l |}.

Definition backwards {R} : Scan R :=
  {| scan_rows := reverse; scan_perm := reverse_Permutation |}.

Definition created_after (a b : Fanwork) : bool :=
  match fw_createdAt a, fw_createdAt b with
  | None, Some _ => true
  | Some x, Some y => bool_decide (y < x)
  | _, None => false
  end.

Fixpoint insert_desc (x : Fanwork) (l : list Fanwork) : list Fanwork :=
  match l with
  | [] => [x]
  | y :: l' => if created_after y x then y :: insert_desc x l' else x :: y :: l'
  end.

Definition order_desc (l : list Fanwork) : list Fanwork :=
  foldr insert_desc [] l.

(** [.limit(n)]: the query builder writes a [LIMIT] clause for a number
    that is not negative, and none for a negative one. *)
Definition limit_clause (n : Z) : option Z :=
  if bool_decide (n < 0) then None else Some n.

(** [.offset(n)]: an [OFFSET] clause is written for a number other than
    0. *)
Definition offset_clause (n : Z) : option Z :=
  if bool_decide (n = 0) then None else Some n.

(** The rows of a statement with these clauses.  The operands are
    [bigint] parameters, [LIMIT]'s before [OFFSET]'s: the store refuses
    the first that does not fit when it binds them, and a negative
    [OFFSET] when the statement runs. *)
Definition sql_limit_offset (limit offset : option Z) (l : list Fanwork)
    : M (list Fanwork) :=
  match head (filter (λ v, ¬ int8 v) (option_list limit ++ option_list offset)) with
  | Some v => throw (number_refused v)
  | None =>
      let rows :=
        match offset with
        | Some n => if bool_decide (n < 0) then None
                    else Some (drop (Z.to_nat n) l)
        | None => Some l
        end in
      match rows, limit with
      | None, _ => throw NegativeOffset
      | Some rows, Some n => mret (take (Z.to_nat n) rows)
      | Some rows, None => mret rows
      end
  end.

(** ** Listing ([getFanworks]) *)

Record Filters := {
  f_type : option (list string);
  f_rating : option (list string);
  f_tags : option (list string);
  f_search : option string;
  f_authorId : option string;
  f_limit : option Z;
  f_offset : option Z
}.

(** Truthiness of an optional array's [length], of an optional string and
    of an optional number ([NaN] is falsy, as a missing value is). *)
Definition nonempty_list (o : option (list string)) : option (list string) :=
  o ≫= λ l, if l is [] then None else Some l.

Definition nonempty_string (o : option string) : option string :=
  o ≫= λ s, if bool_decide (s = "") then None else Some s.

Definition nonzero (o : option Z) : option Z :=
  o ≫= λ n, if bool_decide (n = 0) then None else Some n.

Definition push_if {A} (o : option A) (c : A → SqlText)
    (conditions : list SqlText) : list SqlText :=
  match o with Some a => conditions ++ [c a] | None => conditions end.

Definition where_ (condition : option SqlText) (rows : list Fanwork) : list Fanwork :=
  match condition with
  | Some c => filter (λ f, sql_holds c f) rows
  | None => rows
  end.

Definition getFanworks (scan : Scan Fanwork) (filters : option Filters)
    : M (list Fanwork) :=
  let conditions := [] in
  let conditions :=
    push_if (nonempty_list (filters ≫= f_type)) (inArray fw_type) conditions in
  let conditions :=
    push_if (nonempty_list (filters ≫= f_rating)) (inArray fw_rating) conditions in
  let conditions :=
    push_if (nonempty_string (filters ≫= f_search))
      (λ search,
         sql_or (title_ilike ("%" +:+ search +:+ "%"))
           (description_ilike ("%" +:+ search +:+ "%")))
      conditions in
  authorId ← match nonempty_string (filters ≫= f_authorId) with
             | Some s => Some <$> int4_param (parseInt s)
             | None => mret None
             end;
  let conditions := push_if authorId (eq_int fw_authorId) conditions in
  rows ← (λ db, (Ok (where_ (and_ conditions) (fanworks db)), db));
  sql_limit_offset
    (limit_clause (default 20 (nonzero (filters ≫= f_limit))))
    (offset_clause (default 0 (nonzero (filters ≫= f_offset))))
    (order_desc (scan rows)).

(** The revision of [storage.ts] that keeps user ids as strings differs in
    three places: the search template carries its own parentheses, the
    author id is bound as the string it is, and [limit] and [offset] are
    applied only when given. *)
Module StringUserId.

Fixpoint skip_digits (s : list ascii) : list ascii :=
  match s with
  | c :: s' => if digit_of 10 c is Some _ then skip_digits s' else s
  | [] => []
  end.

(** Reading of a text parameter as an [integer]: white space around an
    optional sign and decimal digits. *)
Definition int4_in (s : string) : option Z :=
  let s := skip_space (chars s) in
  let '(sign, s) :=
    match s with
    | c :: s' =>
        if bool_decide (c = "-"%char) then (-1, s')
        else if bool_decide (c = "+"%char) then (1, s')
        else (1, s)
    | [] => (1, s)
    end in
  if bool_decide (skip_space (skip_digits s) = []) then
    (λ v, sign * v) <$> read_digits 10 s None
  else None.

Definition getFanworks (scan : Scan Fanwork) (filters : option Filters)
    : M (list Fanwork) :=
  let conditions := [] in
  let conditions :=
    push_if (nonempty_list (filters ≫= f_type)) (inArray fw_type) conditions in
  let conditions :=
    push_if (nonempty_list (filters ≫= f_rating)) (inArray fw_rating) conditions in
  let conditions :=
    push_if (nonempty_string (filters ≫= f_search))
      (λ search,
         sql_paren
           (sql_or (title_ilike ("%" +:+ search +:+ "%"))
              (description_ilike ("%" +:+ search +:+ "%"))))
      conditions in
  authorId ← match nonempty_string (filters ≫= f_authorId) with
             | Some s => Some <$> int4_param (int4_in s)
             | None => mret None
             end;
  let conditions := push_if authorId (eq_int fw_authorId) conditions in
  rows ← (λ db, (Ok (where_ (and_ conditions) (fanworks db)), db));
  sql_limit_offset
    (nonzero (filters ≫= f_limit) ≫= limit_clause)
    (nonzero (filters ≫= f_offset) ≫= offset_clause)
    (order_desc (scan rows)).

(** In this revision [comments.userId] is a [varchar] column, the schema
    has no [reports] table, and the statement touches [comments] only. *)
Record Comment := {
  cm_id : Z;
  cm_content : string;
  cm_userId : string;
  cm_fanworkId : Z;
  cm_createdAt : option Z;
  cm_updatedAt : option Z
}.

Definition deleteComment (id : Z) (userId : string)
    (comments : list Comment) : Result unit * list Comment :=
  (Ok (), filter (λ c, ¬ (cm_id c = id ∧ cm_userId c = userId)) comments).

(** What [deleteComment] owes a comment [C] and a user [U] who did not
    write it: called by [U] it succeeds and changes nothing; called by the
    author it removes [C] and nothing else. *)
Definition deleteComment_contract (comments : list Comment) (C : Comment)
    (U : string) : Prop :=
  deleteComment (cm_id C) U comments = (Ok (), comments)
  ∧ ∃ comments',
      deleteComment (cm_id C) (cm_userId C) comments = (Ok (), comments')
      ∧ ∀ c, c ∈ comments' ↔ c ∈ comments ∧ c ≠ C.

Definition sample_comments : list Comment :=
  [ {| cm_id := 1; cm_content := "nice"; cm_userId := "u2";
       cm_fanworkId := 1; cm_createdAt := Some 12; cm_updatedAt := Some 12 |};
    {| cm_id := 2; cm_content := "thanks"; cm_userId := "u1";
       cm_fanworkId := 1; cm_createdAt := Some 13; cm_updatedAt := Some 13 |} ].

End StringUserId.

(** ** Read routes ([routes.ts])

    Both handlers run behind [optionalAuth], which leaves in [req.user]
    the caller it could authenticate, if any. *)

Record ReqUser := {
  ru_id : Z;
  ru_email : string;
  ru_username : string
}.

Inductive Response (A : Type) :=
| Json (body : A)
| Fail (status : Z) (message : string).
Arguments Json {A} body.
Arguments Fail {A} status message.

(** A query-string parameter is one string or, when repeated, an array. *)
Inductive QueryValue :=
| One (s : string)
| Many (l : list string).

Record Query := {
  q_type : option QueryValue;
  q_rating : option QueryValue;
  q_tags : option QueryValue;
  q_search : option string;
  q_authorId : option string;
  q_limit : option string;
  q_offset : option string
}.

(** [v ? (Array.isArray(v) ? v : [v]) : undefined] *)
Definition as_array (v : option QueryValue) : option (list string) :=
  match v with
  | Some (One s) => if bool_decide (s = "") then None else Some [s]
  | Some (Many l) => Some l
  | None => None
  end.

(** [v ? parseInt(v) : d] *)
Definition int_or (d : Z) (v : option string) : option Z :=
  match nonempty_string v with
  | Some s => parseInt s
  | None => Some d
  end.

Definition api_fanworks (scan : Scan Fanwork) (user : option ReqUser)
    (query : Query) (db : Db) : Response (list Fanwork) :=
  let filters :=
    {| f_type := as_array (q_type query);
       f_rating := as_array (q_rating query);
       f_tags := as_array (q_tags query);
       f_search := q_search query;
       f_authorId := q_authorId query;
       f_limit := int_or 20 (q_limit query);
       f_offset := int_or 0 (q_offset query) |} in
  match result (getFanworks scan (Some filters)) db with
  | Ok fanworks => Json fanworks
  | Err _ => Fail 500 "Failed to fetch fanworks"
  end.

Definition api_fanwork (user : option ReqUser) (id_param : string)
    (db : Db) : Response Fanwork :=
  match result (id ← int4_param (parseInt id_param); getFanwork id) db with
  | Ok (Some fanwork) => Json fanwork
  | Ok None => Fail 404 "Fanwork not found"
  | Err _ => Fail 500 "Failed to fetch fanwork"
  end.

(** ** Role-gated middlewares ([auth.ts]) *)

Inductive Outcome :=
| Respond (status : Z) (message : string)
| Next (user : ReqUser).

(** [s.split(' ')] *)
Fixpoint split_space (s : list ascii) : list (list ascii) :=
  match s with
  | [] => [[]]
  | c :: s' =>
      if bool_decide (c = " "%char) then [] :: split_space s'
      else match split_space s' with
           | piece :: pieces => (c :: piece) :: pieces
           | [] => [[c]]
           end
  end.

(** [authHeader && authHeader.split(' ')[1]], kept when truthy *)
Definition bearer_token (authHeader : option string) : option string :=
  header ← nonempty_string authHeader;
  token ← split_space (chars header) !! 1%nat;
  nonempty_string (Some (String.string_of_list_ascii token)).

Definition truthy (b : option bool) : bool := default false b.

Definition req_user (user : User) : ReqUser :=
  {| ru_id := u_id user; ru_email := u_email user;
     ru_username := u_username user |}.

Section Auth.

(** [verifyToken]: the signature check of the token library, with the
    [userId] claim of a token it accepts. *)
Variable verifyToken : string → option Z.

Definition requireModerator (authHeader : option string) (db : Db) : Outcome :=
  match bearer_token authHeader with
  | None => Respond 401 "Access token required"
  | Some token =>
    match verifyToken token with
    | None => Respond 401 "Invalid or expired token"
    | Some userId =>
      match result (getUserById userId) db with
      | Err _ => Respond 500 "Authentication failed"
      | Ok None => Respond 401 "User not found or inactive"
      | Ok (Some user) =>
          if negb (truthy (u_isActive user)) then
            Respond 401 "User not found or inactive"
          else if u_isBanned user then
            Respond 403 "Account banned"
          else if bool_decide (u_role user ≠ "moderator")
                  && bool_decide (u_role user ≠ "admin") then
            Respond 403 "Moderator access required"
          else Next (req_user user)
      end
    end
  end.

Definition requireAdmin (authHeader : option string) (db : Db) : Outcome :=
  match bearer_token authHeader with
  | None => Respond 401 "Access token required"
  | Some token =>
    match verifyToken token with
    | None => Respond 401 "Invalid or expired token"
    | Some userId =>
      match result (getUserById userId) db with
      | Err _ => Respond 500 "Authentication failed"
      | Ok None => Respond 401 "User not found or inactive"
      | Ok (Some user) =>
          if negb (truthy (u_isActive user)) then
            Respond 401 "User not found or inactive"
          else if u_isBanned user then
            Respond 403 "Account banned"
          else if bool_decide (u_role user ≠ "admin") then
            Respond 403 "Admin access required"
          else Next (req_user user)
      end
    end
  end.

Definition requireAgeVerification (authHeader : option string) (db : Db) : Outcome :=
  match bearer_token authHeader with
  | None => Respond 401 "Access token required"
  | Some token =>
    match verifyToken token with
    | None => Respond 401 "Invalid or expired token"
    | Some userId =>
      match result (getUserById userId) db with
      | Err _ => Respond 500 "Authentication failed"
      | Ok None => Respond 401 "User not found or inactive"
      | Ok (Some user) =>
          if negb (truthy (u_isActive user)) then
            Respond 401 "User not found or inactive"
          else if u_isBanned user then
            Respond 403 "Account banned"
          else if negb (u_ageVerified user) then
            Respond 403 "Age verification required for 18+ content"
          else Next (req_user user)
      end
    end
  end.

End Auth.

(** ** Notions the properties are stated with *)

(** A row for the pair [(U, I)] exists in the table. *)
Definition has_pair (t : PairTable) (U I : Z) (db : Db) : Prop :=
  ∃ r, r ∈ pair_rows t db ∧ pair_is U I r.

(** The number of rows the table holds for the pair [(U, I)]. *)
Definition pair_count (t : PairTable) (U I : Z) (db : Db) : nat :=
  length (filter (pair_is U I) (pair_rows t db)).

(** At most one Like row and at most one Bookmark row per pair. *)
Definition unique_pairs (db : Db) : Prop :=
  ∀ U I, (pair_count likes_t U I db ≤ 1)%nat
       ∧ (pair_count bookmarks_t U I db ≤ 1)%nat.

(** The sequence of a pair table lies beyond every key handed out. *)
Definition seq_fresh (t : PairTable) (db : Db) : Prop :=
  Forall (λ r, pr_id r < pair_seq t db) (pair_rows t db).

#[export] Instance seq_fresh_dec t db : Decision (seq_fresh t db).
Proof. unfold seq_fresh. apply _. Defined.


(** The method of [storage.ts] that toggles a given table. *)
Definition toggle (t : PairTable) : Z → Z → M bool :=
  match t with likes_t => toggleLike | bookmarks_t => toggleBookmark end.




(** Toggle requests, for runs of arbitrary length. *)
Inductive Op :=
| OpLike (userId fanworkId : Z)
| OpBookmark (userId fanworkId : Z).

Definition run_op (op : Op) (db : Db) : Db :=
  match op with
  | OpLike u f => exec (toggleLike u f) db
  | OpBookmark u f => exec (toggleBookmark u f) db
  end.

Definition run_ops (ops : list Op) (db : Db) : Db :=
  foldl (λ db op, run_op op db) db ops.

(** The fanwork carries the tag: a row of [fanworkTags] links it to a tag
    of that name. *)
Definition has_tag (db : Db) (f : Fanwork) (name : string) : Prop :=
  ∃ ft tg, ft ∈ fanworkTags db ∧ tg ∈ tags db
           ∧ ft_fanworkId ft = fw_id f ∧ ft_tagId ft = tag_id tg
           ∧ tag_name tg = name.

(** A fanwork matches the filters: every dimension that is supplied
    holds, and a dimension with several values holds when one of them
    does.  [read] is the reading of the author id, which the filters carry
    as a string. *)
Definition one_of (dimension : option (list string)) (holds : string → Prop) : Prop :=
  ∀ values, nonempty_list dimension = Some values →
    ∃ v, v ∈ values ∧ holds v.

Definition matches (read : string → option Z) (db : Db) (filters : Filters)
    (f : Fanwork) : Prop :=
  one_of (f_type filters) (λ v, fw_type f = v)
  ∧ one_of (f_rating filters) (λ v, fw_rating f = v)
  ∧ one_of (f_tags filters) (has_tag db f)
  ∧ (∀ search, nonempty_string (f_search filters) = Some search →
       ilike (fw_title f) ("%" +:+ search +:+ "%") = true
       ∨ ∃ d, fw_description f = Some d
              ∧ ilike d ("%" +:+ search +:+ "%") = true)
  ∧ (∀ author, nonempty_string (f_authorId filters) = Some author →
       read author = Some (fw_authorId f)).

(** [a] may stand before [b] in a listing: [b] is not the later one. *)
Definition not_before (a b : Fanwork) : Prop := created_after b a = false.

(** The comparisons a listing pushes, before they become SQL text. *)
Definition push_atom {A} (o : option A) (mk : A → SqlAtom)
    (atoms : list SqlAtom) : list SqlAtom :=
  match o with Some a => atoms ++ [mk a] | None => atoms end.

(** The caller may see hidden items: the owner, a moderator or an admin. *)
Definition may_see_hidden (db : Db) (caller : option ReqUser) (f : Fanwork) : Prop :=
  ∃ c u, caller = Some c ∧ u ∈ users db ∧ u_id u = ru_id c
         ∧ (u_id u = fw_authorId f ∨ u_role u = "moderator" ∨ u_role u = "admin").

(** Rewriting the [isHidden] flag of every fanwork as [h] decides, all
    else kept: the store and the responses that differ in this flag only. *)
Definition set_isHidden (hidden : bool) (f : Fanwork) : Fanwork :=
  set_moderation hidden (fw_moderationReason f) (fw_moderatedBy f)
    (fw_moderatedAt f) f.

Definition reflag (h : Fanwork → bool) (f : Fanwork) : Fanwork :=
  set_isHidden (h f) f.

Definition reflag_db (h : Fanwork → bool) (db : Db) : Db :=
  set_fanworks (reflag h <$> fanworks db) db.

Definition result_map {A B} (g : A → B) (r : Result A) : Result B :=
  match r with Ok a => Ok (g a) | Err e => Err e end.

Definition response_map {A B} (g : A → B) (r : Response A) : Response B :=
  match r with
  | Json body => Json (g body)
  | Fail status message => Fail status message
  end.

(** What [banUser(U, data)] owes U's row [u] and a fanwork [f] of U: the
    call returns the banned row; each row of [users] is unchanged or is
    U's row with the four ban fields set, all other fields kept; every
    other table is untouched; [getFanwork] still returns [f]. *)
Definition ban_contract (db : Db) (U : Z) (data : BanData)
    (u : User) (f : Fanwork) : Prop :=
  let db' := exec (banUser U data) db in
  result (banUser U data) db = Ok (Some (set_ban data u))
  ∧ set_ban data u ∈ users db'
  ∧ Forall2 (λ old new,
       (new = old ∨ (u_id old = U ∧ new = set_ban data old))
       ∧ u_id new = u_id old ∧ u_email new = u_email old
       ∧ u_username new = u_username old
       ∧ u_passwordHash new = u_passwordHash old
       ∧ u_firstName new = u_firstName old ∧ u_lastName new = u_lastName old
       ∧ u_profileImageUrl new = u_profileImageUrl old
       ∧ u_role new = u_role old ∧ u_ageVerified new = u_ageVerified old
       ∧ u_isActive new = u_isActive old ∧ u_createdAt new = u_createdAt old
       ∧ u_updatedAt new = u_updatedAt old)
     (users db) (users db')
  ∧ fanworks db' = fanworks db ∧ comments db' = comments db
  ∧ likes db' = likes db ∧ bookmarks db' = bookmarks db
  ∧ reports db' = reports db
  ∧ result (getFanwork (fw_id f)) db' = Ok (Some f).

(** What [deleteComment] owes a comment [C] and a user [U] who did not
    write it: called by [U] it succeeds and changes nothing; called by the
    author it succeeds and removes [C] and no other comment. *)
Definition deleteComment_contract (db : Db) (C : Comment) (U : Z) : Prop :=
  deleteComment (cm_id C) U db = (Ok (), db)
  ∧ result (deleteComment (cm_id C) (cm_userId C)) db = Ok ()
  ∧ ∀ c, c ∈ comments (exec (deleteComment (cm_id C) (cm_userId C)) db)
         ↔ c ∈ comments db ∧ c ≠ C.

(** The checks of a gate in their prescribed order, and the first one
    that fails. *)
Inductive Check := CredentialValidity | BanStatus | RoleOrAge.

Definition first_failure (credential_valid banned allowed : bool) : option Check :=
  if negb credential_valid then Some CredentialValidity
  else if banned then Some BanStatus
  else if negb allowed then Some RoleOrAge
  else None.

(** The outcome of a gate, seen as the check that stopped the request.
    A failure of the store while the credential is being resolved counts
    with the credential. *)
Definition stopped_at (o : Outcome) : option Check :=
  match o with
  | Respond 401 _ => Some CredentialValidity
  | Respond 403 msg =>
      if bool_decide (msg = "Account banned") then Some BanStatus
      else Some RoleOrAge
  | Respond _ _ => Some CredentialValidity
  | Next _ => None
  end.

(** The credential resolves to an active user. *)
Definition resolves (verifyToken : string → option Z)
    (authHeader : option string) (db : Db) : option User :=
  token ← bearer_token authHeader;
  userId ← verifyToken token;
  user ← head (filter (λ u, u_id u = userId) (users db));
  if truthy (u_isActive user) then Some user else None.

(** ** Sample data *)

Definition a_user (id : Z) (name role : string) (banned : bool) : User :=
  {| u_id := id; u_email := name +:+ "@x.com"; u_username := name;
     u_passwordHash := "#"; u_firstName := None; u_lastName := None;
     u_profileImageUrl := None; u_role := role; u_isBanned := banned;
     u_banReason := None; u_bannedAt := None; u_bannedBy := None;
     u_ageVerified := false; u_isActive := Some true;
     u_createdAt := Some 0; u_updatedAt := Some 0 |}.

Definition a_fanwork (id : Z) (title type : string) (author : Z)
    (hidden : bool) (created : Z) : Fanwork :=
  {| fw_id := id; fw_title := title; fw_description := None;
     fw_type := type; fw_rating := "teen"; fw_content := None;
     fw_imageUrl := None; fw_fileUrl := None; fw_wordCount := None;
     fw_chapterCount := None; fw_isComplete := Some false;
     fw_authorId := author; fw_isHidden := hidden;
     fw_moderationReason := None; fw_moderatedAt := None;
     fw_moderatedBy := None; fw_contentType := "fanart";
     fw_isReported := false; fw_reportCount := 0; fw_ao3WorkId := None;
     fw_ao3Url := None; fw_originalAuthor := None; fw_importedAt := None;
     fw_createdAt := Some created; fw_updatedAt := Some created |}.

Definition a_report (id reporter : Z) (status : string) (reviewer : option Z) : Report :=
  {| rp_id := id; rp_reporterId := reporter; rp_fanworkId := Some 1;
     rp_commentId := None; rp_userId := None; rp_reason := "spam";
     rp_description := None; rp_status := status;
     rp_reviewedBy := reviewer; rp_reviewedAt := reviewer;
     rp_moderationAction := (λ _, "hide_content") <$> reviewer;
     rp_createdAt := Some 5 |}.

(** Users: an author, a reader, a moderator and a banned admin.  Two
    fanworks of the author, the first one hidden.  One like, two comments
    and no bookmark on the first fanwork; one resolved report on it. *)
Definition db0 : Db :=
  {| users := [a_user 1 "a" "user" false; a_user 2 "b" "user" false;
               a_user 3 "m" "moderator" false; a_user 4 "root" "admin" true];
     fanworks := [a_fanwork 1 "T" "artwork" 1 true 10;
                  a_fanwork 2 "Portal" "fanfiction" 1 false 20];
     tags := [ {| tag_id := 1; tag_name := "rick"; tag_createdAt := Some 1 |} ];
     fanworkTags := [ {| ft_id := 1; ft_fanworkId := 2; ft_tagId := 1 |} ];
     likes := [ {| pr_id := 1; pr_userId := 2; pr_fanworkId := 1;
                   pr_createdAt := Some 11 |} ];
     comments := [ {| cm_id := 1; cm_content := "nice"; cm_userId := 2;
                      cm_fanworkId := 1; cm_createdAt := Some 12;
                      cm_updatedAt := Some 12 |};
                   {| cm_id := 2; cm_content := "thanks"; cm_userId := 1;
                      cm_fanworkId := 1; cm_createdAt := Some 13;
                      cm_updatedAt := Some 13 |} ];
     bookmarks := [];
     reports := [a_report 1 2 "resolved" (Some 3)];
     likes_id_seq := 2;
     bookmarks_id_seq := 1;
     db_now := 100 |}.


Definition no_query : Query :=
  {| q_type := None; q_rating := None; q_tags := None; q_search := None;
     q_authorId := None; q_limit := None; q_offset := None |}.

Definition no_filters : Filters :=
  {| f_type := None; f_rating := None; f_tags := None; f_search := None;
     f_authorId := None; f_limit := None; f_offset := None |}.

Definition with_description (d : string) (f : Fanwork) : Fanwork :=
  {| fw_id := fw_id f; fw_title := fw_title f; fw_description := Some d;
     fw_type := fw_type f; fw_rating := fw_rating f;
     fw_content := fw_content f; fw_imageUrl := fw_imageUrl f;
     fw_fileUrl := fw_fileUrl f; fw_wordCount := fw_wordCount f;
     fw_chapterCount := fw_chapterCount f; fw_isComplete := fw_isComplete f;
     fw_authorId := fw_authorId f; fw_isHidden := fw_isHidden f;
     fw_moderationReason := fw_moderationReason f;
     fw_moderatedAt := fw_moderatedAt f; fw_moderatedBy := fw_moderatedBy f;
     fw_contentType := fw_contentType f; fw_isReported := fw_isReported f;
     fw_reportCount := fw_reportCount f; fw_ao3WorkId := fw_ao3WorkId f;
     fw_ao3Url := fw_ao3Url f; fw_originalAuthor := fw_originalAuthor f;
     fw_importedAt := fw_importedAt f; fw_createdAt := fw_createdAt f;
     fw_updatedAt := fw_updatedAt f |}.

(** A story whose description, not its title, mentions a portal, and a
    drawing whose title does. *)
Definition story : Fanwork :=
  with_description "A portal gun goes missing"
    (a_fanwork 3 "Untitled" "fanfiction" 1 false 30).

Definition drawing : Fanwork := a_fanwork 4 "Portal art" "artwork" 2 false 40.

Definition db1 : Db := set_fanworks [story; drawing] db0.

Definition with_tags (tags : option (list string)) (filters : Filters) : Filters :=
  {| f_type := f_type filters; f_rating := f_rating filters; f_tags := tags;
     f_search := f_search filters; f_authorId := f_authorId filters;
     f_limit := f_limit filters; f_offset := f_offset filters |}.

(** A token verifier for the examples: [tokN] is user [N]'s token. *)
Definition sample_verify (token : string) : option Z :=
  if bool_decide (token = "tok1") then Some 1
  else if bool_decide (token = "tok3") then Some 3
  else if bool_decide (token = "tok4") then Some 4
  else None.

(** * The rest of the storage layer, the middlewares and the routes *)

(** ** User lookups and the remaining moderation updates ([storage.ts]) *)

Definition getUserByEmail (email : string) : M (option User) :=
  λ db, (Ok (head (filter (λ u, u_email u = email) (users db))), db).

Definition getUserByUsername (username : string) : M (option User) :=
  λ db, (Ok (head (filter (λ u, u_username u = username) (users db))), db).

Definition clear_ban (u : User) : User :=
  {| u_id := u_id u; u_email := u_email u; u_username := u_username u;
     u_passwordHash := u_passwordHash u; u_firstName := u_firstName u;
     u_lastName := u_lastName u; u_profileImageUrl := u_profileImageUrl u;
     u_role := u_role u;
     u_isBanned := false;
     u_banReason := None;
     u_bannedAt := None;
     u_bannedBy := None;
     u_ageVerified := u_ageVerified u; u_isActive := u_isActive u;
     u_createdAt := u_createdAt u; u_updatedAt := u_updatedAt u |}.

(** [update] of the rows of [users] with a given id, [returning] them. *)
Definition update_user (userId : Z) (set : User → User) : M (option User) :=
  λ db,
    (Ok (head (set <$> filter (λ u, u_id u = userId) (users db))),
     set_users ((λ u, if decide (u_id u = userId) then set u else u)
                  <$> users db) db).

Definition unbanUser (userId : Z) : M (option User) :=
  update_user userId clear_ban.

Definition set_role (role : string) (u : User) : User :=
  {| u_id := u_id u; u_email := u_email u; u_username := u_username u;
     u_passwordHash := u_passwordHash u; u_firstName := u_firstName u;
     u_lastName := u_lastName u; u_profileImageUrl := u_profileImageUrl u;
     u_role := role;
     u_isBanned := u_isBanned u; u_banReason := u_banReason u;
     u_bannedAt := u_bannedAt u; u_bannedBy := u_bannedBy u;
     u_ageVerified := u_ageVerified u; u_isActive := u_isActive u;
     u_createdAt := u_createdAt u; u_updatedAt := u_updatedAt u |}.

(** A value stored into a [varchar(n)] column.  One of at most [n]
    characters is stored as it is; a longer one whose characters beyond
    the [n]th are all spaces is cut to [n] characters; any other is
    refused.  The store finds this out before the statement runs, so that
    a statement refused for it has drawn nothing from a sequence. *)
Definition varchar (n : nat) (s : string) : option string :=
  if decide (String.length s ≤ n)%nat then Some s
  else if forallb (λ c, bool_decide (c = " "%char)) (drop n (chars s))
  then Some (String.string_of_list_ascii (take n (chars s)))
  else None.

(** [role] is a [varchar(20)] column. *)
Definition updateUserRole (userId : Z) (role : string) : M (option User) :=
  match varchar 20 role with
  | Some stored => update_user userId (set_role stored)
  | None => throw StringDataRightTruncation
  end.

Definition set_ageVerified (u : User) : User :=
  {| u_id := u_id u; u_email := u_email u; u_username := u_username u;
     u_passwordHash := u_passwordHash u; u_firstName := u_firstName u;
     u_lastName := u_lastName u; u_profileImageUrl := u_profileImageUrl u;
     u_role := u_role u;
     u_isBanned := u_isBanned u; u_banReason := u_banReason u;
     u_bannedAt := u_bannedAt u; u_bannedBy := u_bannedBy u;
     u_ageVerified := true; u_isActive := u_isActive u;
     u_createdAt := u_createdAt u; u_updatedAt := u_updatedAt u |}.

Definition verifyUserAge (userId : Z) : M (option User) :=
  update_user userId set_ageVerified.

Definition unhideFanwork (fanworkId : Z) : M (option Fanwork) :=
  λ db,
    (Ok (head (set_moderation false None None None
                 <$> filter (λ f, fw_id f = fanworkId) (fanworks db))),
     set_fanworks
       ((λ f, if decide (fw_id f = fanworkId)
              then set_moderation false None None None f else f)
          <$> fanworks db) db).

(** ** Deleting a fanwork

    [fanworkTags], [likes], [comments], [bookmarks] and [reports] reference
    [fanworks.id] with [onDelete: "cascade"], and [reports] references
    [comments.id] in the same way: the rows that hang on a deleted fanwork,
    and the reports on its comments, go with it. *)
Definition deleteFanwork (id : Z) : M unit :=
  λ db,
    let gone := fw_id <$> filter (λ f, fw_id f = id) (fanworks db) in
    let dead_comments := filter (λ c, cm_fanworkId c ∈ gone) (comments db) in
    (Ok (),
     {| users := users db;
        fanworks := filter (λ f, ¬ fw_id f = id) (fanworks db);
        tags := tags db;
        fanworkTags := filter (λ ft, ft_fanworkId ft ∉ gone) (fanworkTags db);
        likes := filter (λ r, pr_fanworkId r ∉ gone) (likes db);
        comments := filter (λ c, cm_fanworkId c ∉ gone) (comments db);
        bookmarks := filter (λ r, pr_fanworkId r ∉ gone) (bookmarks db);
        reports :=
          filter (λ r, ¬ refers_to gone (rp_fanworkId r)
                       ∧ ¬ refers_to (cm_id <$> dead_comments) (rp_commentId r))
            (reports db);
        likes_id_seq := likes_id_seq db;
        bookmarks_id_seq := bookmarks_id_seq db;
        db_now := db_now db |}).

(** ** Ordered reads

    [orderBy(desc(t.createdAt))] on any table: latest first, [NULL] before
    any date, rows with equal dates in the order of the scan. *)
Definition later (a b : option Z) : bool :=
  match a, b with
  | None, Some _ => true
  | Some x, Some y => bool_decide (y < x)
  | _, None => false
  end.

Fixpoint insert_latest {R} (created : R → option Z) (x : R) (l : list R) : list R :=
  match l with
  | [] => [x]
  | y :: l' =>
      if later (created y) (created x) then y :: insert_latest created x l'
      else x :: y :: l'
  end.

Definition latest_first {R} (created : R → option Z) (l : list R) : list R :=
  foldr (insert_latest created) [] l.

Definition getComments (scan : Scan Comment) (fanworkId : Z)
    : M (list Comment) :=
  λ db,
    (Ok (latest_first cm_createdAt
           (scan (filter (λ c, cm_fanworkId c = fanworkId) (comments db)))),
     db).

Definition getReports (scan : Scan Report) : M (list Report) :=
  λ db, (Ok (latest_first rp_createdAt (scan (reports db))), db).

(** [select({ tag: tags }).from(fanworkTags).innerJoin(tags, ...)]: for
    each link of the fanwork, the tags it points to, in the order the
    execution yields them. *)
Definition getFanworkTags (scan : Scan Tag) (fanworkId : Z) : M (list Tag) :=
  λ db,
    (Ok (scan (ft ← filter (λ ft, ft_fanworkId ft = fanworkId) (fanworkTags db);
               filter (λ tg, tag_id tg = ft_tagId ft) (tags db))), db).

(** ** Inserts into the other tables

    The sequences of [users], [tags], [fanwork_tags], [comments] and
    [reports] stand beside the tables.  A method that inserts runs over the
    store extended with them; the methods above run on its tables. *)
Record Store := {
  st_db : Db;
  users_id_seq : Z;
  tags_id_seq : Z;
  fanwork_tags_id_seq : Z;
  comments_id_seq : Z;
  reports_id_seq : Z
}.

Definition set_st_db (v : Db) (st : Store) : Store :=
  {| st_db := v; users_id_seq := users_id_seq st;
     tags_id_seq := tags_id_seq st;
     fanwork_tags_id_seq := fanwork_tags_id_seq st;
     comments_id_seq := comments_id_seq st;
     reports_id_seq := reports_id_seq st |}.

Definition MS (A : Type) : Type := Store → Result A * Store.

#[export] Instance MS_ret : MRet MS := λ A a st, (Ok a, st).

#[export] Instance MS_bind : MBind MS := λ A B k m st,
  match m st with
  | (Ok a, st') => k a st'
  | (Err e, st') => (Err e, st')
  end.

#[export] Instance MS_fmap : FMap MS := λ A B f m st,
  match m st with
  | (Ok a, st') => (Ok (f a), st')
  | (Err e, st') => (Err e, st')
  end.

(** A method on the tables, run on the extended store. *)
Definition lift {A} (m : M A) : MS A :=
  λ st, let '(r, db') := m (st_db st) in (r, set_st_db db' st).

Definition set_tags (v : list Tag) (db : Db) : Db :=
  {| users := users db; fanworks := fanworks db; tags := v;
     fanworkTags := fanworkTags db; likes := likes db;
     comments := comments db; bookmarks := bookmarks db;
     reports := reports db; likes_id_seq := likes_id_seq db;
     bookmarks_id_seq := bookmarks_id_seq db; db_now := db_now db |}.

Definition set_fanworkTags (v : list FanworkTag) (db : Db) : Db :=
  {| users := users db; fanworks := fanworks db; tags := tags db;
     fanworkTags := v; likes := likes db;
     comments := comments db; bookmarks := bookmarks db;
     reports := reports db; likes_id_seq := likes_id_seq db;
     bookmarks_id_seq := bookmarks_id_seq db; db_now := db_now db |}.

(** [db.insert(tags).values({ name }).returning()]: [name] is a unique
    [varchar(100)]; the key comes from the sequence, which advances
    whether or not the unique keys accept the row. *)
Definition insert_tag (name : string) : MS Tag :=
  λ st,
    match varchar 100 name with
    | None => (Err StringDataRightTruncation, st)
    | Some stored =>
        let db := st_db st in
        let id := tags_id_seq st in
        let st1 :=
          {| st_db := db; users_id_seq := users_id_seq st;
             tags_id_seq := id + 1;
             fanwork_tags_id_seq := fanwork_tags_id_seq st;
             comments_id_seq := comments_id_seq st;
             reports_id_seq := reports_id_seq st |} in
        if decide (id ∈ tag_id <$> tags db ∨ stored ∈ tag_name <$> tags db)
        then (Err UniqueViolation, st1)
        else
          let row := {| tag_id := id; tag_name := stored;
                        tag_createdAt := Some (db_now db) |} in
          (Ok row, set_st_db (set_tags (tags db ++ [row]) db) st1)
    end.

Definition getOrCreateTag (name : string) : MS Tag :=
  existing ← lift (λ db, (Ok (head (filter (λ tg, tag_name tg = name) (tags db))), db));
  match existing with
  | Some tg => mret tg
  | None => insert_tag name
  end.

(** [db.insert(fanworkTags).values({ fanworkId, tagId })] *)
Definition insert_fanwork_tag (fanworkId tagId : Z) : MS unit :=
  λ st,
    let db := st_db st in
    let id := fanwork_tags_id_seq st in
    let st1 :=
      {| st_db := db; users_id_seq := users_id_seq st;
         tags_id_seq := tags_id_seq st;
         fanwork_tags_id_seq := id + 1;
         comments_id_seq := comments_id_seq st;
         reports_id_seq := reports_id_seq st |} in
    if decide (id ∈ ft_id <$> fanworkTags db)
    then (Err UniqueViolation, st1)
    else if decide (fanwork_exists fanworkId db ∧ tagId ∈ tag_id <$> tags db)
    then
      (Ok (),
       set_st_db
         (set_fanworkTags
            (fanworkTags db ++
             [ {| ft_id := id; ft_fanworkId := fanworkId; ft_tagId := tagId |} ])
            db) st1)
    else (Err ForeignKeyViolation, st1).

(** The first revision of [addTagsToFanwork]: one tag after the other. *)
Fixpoint addTagsToFanwork (fanworkId : Z) (tagNames : list string) : MS unit :=
  match tagNames with
  | [] => mret ()
  | tagName :: rest =>
      tg ← getOrCreateTag tagName;
      existing ← lift (λ db,
        (Ok (head (filter (λ ft, ft_fanworkId ft = fanworkId
                                 ∧ ft_tagId ft = tag_id tg)
                     (fanworkTags db))), db));
      _ ← match existing with
          | Some _ => mret ()
          | None => insert_fanwork_tag fanworkId (tag_id tg)
          end;
      addTagsToFanwork fanworkId rest
  end.

(** [InsertComment]: what the insert schema of [comments] leaves in. *)
Record InsertComment := {
  ic_content : string;
  ic_userId : Z;
  ic_fanworkId : Z
}.

Definition createComment (comment : InsertComment) : MS Comment :=
  λ st,
    let db := st_db st in
    let id := comments_id_seq st in
    let st1 :=
      {| st_db := db; users_id_seq := users_id_seq st;
         tags_id_seq := tags_id_seq st;
         fanwork_tags_id_seq := fanwork_tags_id_seq st;
         comments_id_seq := id + 1;
         reports_id_seq := reports_id_seq st |} in
    if decide (id ∈ cm_id <$> comments db)
    then (Err UniqueViolation, st1)
    else if decide (user_exists (ic_userId comment) db
                    ∧ fanwork_exists (ic_fanworkId comment) db)
    then
      let row :=
        {| cm_id := id; cm_content := ic_content comment;
           cm_userId := ic_userId comment;
           cm_fanworkId := ic_fanworkId comment;
           cm_createdAt := Some (db_now db);
           cm_updatedAt := Some (db_now db) |} in
      (Ok row, set_st_db (set_comments (comments db ++ [row]) db) st1)
    else (Err ForeignKeyViolation, st1).

(** [InsertReport]: the reporter, at most three targets, the reason and a
    description; the status and the review fields are left to the
    defaults of the table. *)
Record InsertReport := {
  ir_reporterId : Z;
  ir_fanworkId : option Z;
  ir_commentId : option Z;
  ir_userId : option Z;
  ir_reason : string;
  ir_description : option string
}.

(** [db.insert(reports).values(report).returning()]: [reason] is a
    [varchar(100)]. *)
Definition createReport (report : InsertReport) : MS Report :=
  λ st,
    match varchar 100 (ir_reason report) with
    | None => (Err StringDataRightTruncation, st)
    | Some reason =>
        let db := st_db st in
        let id := reports_id_seq st in
        let st1 :=
          {| st_db := db; users_id_seq := users_id_seq st;
             tags_id_seq := tags_id_seq st;
             fanwork_tags_id_seq := fanwork_tags_id_seq st;
             comments_id_seq := comments_id_seq st;
             reports_id_seq := id + 1 |} in
        if decide (id ∈ rp_id <$> reports db)
        then (Err UniqueViolation, st1)
        else if decide (user_exists (ir_reporterId report) db
                        ∧ ¬ fk_broken (fw_id <$> fanworks db) None
                              (ir_fanworkId report)
                        ∧ ¬ fk_broken (cm_id <$> comments db) None
                              (ir_commentId report)
                        ∧ ¬ fk_broken (u_id <$> users db) None
                              (ir_userId report))
        then
          let row :=
            {| rp_id := id; rp_reporterId := ir_reporterId report;
               rp_fanworkId := ir_fanworkId report;
               rp_commentId := ir_commentId report;
               rp_userId := ir_userId report;
               rp_reason := reason;
               rp_description := ir_description report;
               rp_status := "pending";
               rp_reviewedBy := None; rp_reviewedAt := None;
               rp_moderationAction := None;
               rp_createdAt := Some (db_now db) |} in
          (Ok row, set_st_db (set_reports (reports db ++ [row]) db) st1)
        else (Err ForeignKeyViolation, st1)
    end.

(** [UpsertUser], the insert type of [users]: a column with a default, and
    a nullable one, may be left out ([None]); a nullable column with a
    default may also be set to [null] ([Some None]). *)
Record UpsertUser := {
  iu_id : option Z;
  iu_email : string;
  iu_username : string;
  iu_passwordHash : string;
  iu_firstName : option string;
  iu_lastName : option string;
  iu_profileImageUrl : option string;
  iu_role : option string;
  iu_isBanned : option bool;
  iu_banReason : option string;
  iu_bannedAt : option Z;
  iu_bannedBy : option Z;
  iu_ageVerified : option bool;
  iu_isActive : option (option bool);
  iu_createdAt : option (option Z);
  iu_updatedAt : option (option Z)
}.

(** The widths of the [varchar] columns of [users] *)
Definition user_fits (u : User) : Prop :=
  (String.length (u_email u) ≤ 255)%nat
  ∧ (String.length (u_username u) ≤ 50)%nat
  ∧ (String.length (u_passwordHash u) ≤ 255)%nat
  ∧ (from_option String.length 0%nat (u_firstName u) ≤ 100)%nat
  ∧ (from_option String.length 0%nat (u_lastName u) ≤ 100)%nat
  ∧ (from_option String.length 0%nat (u_profileImageUrl u) ≤ 500)%nat
  ∧ (String.length (u_role u) ≤ 20)%nat.

#[export] Instance user_fits_dec u : Decision (user_fits u).
Proof. unfold user_fits. apply _. Defined.

(** [db.insert(users).values(userData).returning()].  The key is the one
    given or the next of the sequence; [email] and [username] are unique;
    [bannedBy] references [users.id].  A value wider than its column is
    found before the statement runs, and draws nothing from the
    sequence. *)
Definition createUser (userData : UpsertUser) : MS User :=
  λ st,
    let db := st_db st in
    let id := default (users_id_seq st) (iu_id userData) in
    let st1 :=
      {| st_db := db;
         users_id_seq :=
           if iu_id userData is Some _ then users_id_seq st
           else users_id_seq st + 1;
         tags_id_seq := tags_id_seq st;
         fanwork_tags_id_seq := fanwork_tags_id_seq st;
         comments_id_seq := comments_id_seq st;
         reports_id_seq := reports_id_seq st |} in
    let row :=
      {| u_id := id; u_email := iu_email userData;
         u_username := iu_username userData;
         u_passwordHash := iu_passwordHash userData;
         u_firstName := iu_firstName userData;
         u_lastName := iu_lastName userData;
         u_profileImageUrl := iu_profileImageUrl userData;
         u_role := default "user" (iu_role userData);
         u_isBanned := default false (iu_isBanned userData);
         u_banReason := iu_banReason userData;
         u_bannedAt := iu_bannedAt userData;
         u_bannedBy := iu_bannedBy userData;
         u_ageVerified := default false (iu_ageVerified userData);
         u_isActive := default (Some true) (iu_isActive userData);
         u_createdAt := default (Some (db_now db)) (iu_createdAt userData);
         u_updatedAt := default (Some (db_now db)) (iu_updatedAt userData) |} in
    if decide (¬ user_fits row) then (Err StringDataRightTruncation, st)
    else if decide (id ∈ u_id <$> users db
                    ∨ iu_email userData ∈ u_email <$> users db
                    ∨ iu_username userData ∈ u_username <$> users db)
    then (Err UniqueViolation, st1)
    else if decide (fk_broken (id :: (u_id <$> users db)) None (iu_bannedBy userData))
    then (Err ForeignKeyViolation, st1)
    else (Ok row, set_st_db (set_users (users db ++ [row]) db) st1).

(** ** The plain middlewares ([auth.ts]) *)

Section Authentication.

Variable verifyToken : string → option Z.

Definition authenticateToken (authHeader : option string) (db : Db) : Outcome :=
  match bearer_token authHeader with
  | None => Respond 401 "Access token required"
  | Some token =>
    match verifyToken token with
    | None => Respond 401 "Invalid or expired token"
    | Some userId =>
      match result (getUserById userId) db with
      | Err _ => Respond 500 "Authentication failed"
      | Ok None => Respond 401 "User not found or inactive"
      | Ok (Some user) =>
          if negb (truthy (u_isActive user)) then
            Respond 401 "User not found or inactive"
          else Next (req_user user)
      end
    end
  end.

(** [optionalAuth] always calls [next()]; what it leaves in [req.user]. *)
Definition optionalAuth (authHeader : option string) (db : Db) : option ReqUser :=
  match bearer_token authHeader with
  | None => None
  | Some token =>
    match verifyToken token with
    | None => None
    | Some userId =>
      match result (getUserById userId) db with
      | Ok (Some user) =>
          if truthy (u_isActive user) then Some (req_user user) else None
      | _ => None
      end
    end
  end.

(** ** Interaction routes ([routes.ts], the token revision) *)

Inductive Reply (A : Type) :=
| Sent (status : Z) (body : A)
| Refused (status : Z) (message : string).
Arguments Sent {A} status body.
Arguments Refused {A} status message.





(** ** Registration and login ([routes.ts], the token revision) *)

(** A field of a JSON body: absent, a string, or something else. *)
Inductive Field :=
| Missing
| Text (s : string)
| Other.

Record RegisterBody := {
  rb_email : Field;
  rb_username : Field;
  rb_password : Field;
  rb_firstName : Field;
  rb_lastName : Field
}.

Record LoginBody := {
  lb_email : Field;
  lb_password : Field
}.

Record AuthReply := {
  ar_user : ReqUser;
  ar_token : string
}.

(** The validator's test for an e-mail address; the hashing library, with
    the salt it draws; the token library, with the time of issue. *)
Variable is_email : string → bool.
Variable hashPassword : string → string → string.
Variable comparePassword : string → string → bool.
Variable generateToken : Z → Z → string.

(** [z.string().optional()] *)
Definition optional_text (f : Field) : option (option string) :=
  match f with
  | Missing => Some None
  | Text s => Some (Some s)
  | Other => None
  end.

Definition text (f : Field) : option string :=
  match f with Text s => Some s | _ => None end.

(** [registerSchema.parse(req.body)] *)
Definition parse_register (body : RegisterBody)
    : option (string * string * string * option string * option string) :=
  email ← text (rb_email body);
  username ← text (rb_username body);
  password ← text (rb_password body);
  firstName ← optional_text (rb_firstName body);
  lastName ← optional_text (rb_lastName body);
  if is_email email
     && bool_decide (3 ≤ String.length username ≤ 50)%nat
     && bool_decide (6 ≤ String.length password)%nat
  then Some (email, username, password, firstName, lastName)
  else None.

(** [loginSchema.parse(req.body)] *)
Definition parse_login (body : LoginBody) : option (string * string) :=
  email ← text (lb_email body);
  password ← text (lb_password body);
  if is_email email then Some (email, password) else None.

Definition api_register (body : RegisterBody) (salt : string) (now : Z)
    (st : Store) : Reply AuthReply * Store :=
  match parse_register body with
  | None => (Refused 400 "Validation error", st)
  | Some (email, username, password, firstName, lastName) =>
    match result (getUserByEmail email) (st_db st) with
    | Err _ => (Refused 500 "Registration failed", st)
    | Ok (Some _) => (Refused 400 "Email already registered", st)
    | Ok None =>
      match result (getUserByUsername username) (st_db st) with
      | Err _ => (Refused 500 "Registration failed", st)
      | Ok (Some _) => (Refused 400 "Username already taken", st)
      | Ok None =>
        match createUser
                {| iu_id := None; iu_email := email; iu_username := username;
                   iu_passwordHash := hashPassword salt password;
                   iu_firstName := firstName; iu_lastName := lastName;
                   iu_profileImageUrl := None; iu_role := None;
                   iu_isBanned := None; iu_banReason := None;
                   iu_bannedAt := None; iu_bannedBy := None;
                   iu_ageVerified := None; iu_isActive := Some (Some true);
                   iu_createdAt := None; iu_updatedAt := None |} st with
        | (Ok user, st') =>
            (Sent 200 {| ar_user := req_user user;
                         ar_token := generateToken (u_id user) now |}, st')
        | (Err _, st') => (Refused 500 "Registration failed", st')
        end
      end
    end
  end.

Definition api_login (body : LoginBody) (now : Z) (db : Db) : Reply AuthReply :=
  match parse_login body with
  | None => Refused 400 "Validation error"
  | Some (email, password) =>
    match result (getUserByEmail email) db with
    | Err _ => Refused 500 "Login failed"
    | Ok None => Refused 401 "Invalid credentials"
    | Ok (Some user) =>
        if negb (truthy (u_isActive user)) then
          Refused 401 "Invalid credentials"
        else if negb (comparePassword password (u_passwordHash user)) then
          Refused 401 "Invalid credentials"
        else
          Sent 200 {| ar_user := req_user user;
                      ar_token := generateToken (u_id user) now |}
    end
  end.

End Authentication.

Arguments Sent {A} status body.
Arguments Refused {A} status message.

(** ** Further notions and sample data *)

(** The read that goes with the toggle of a table. *)
Definition is_member (t : PairTable) : Z → Z → M bool :=
  match t with likes_t => isLiked | bookmarks_t => isBookmarked end.

(** The count of a pair table that [getFanworkCounts] reports. *)
Definition count_of (t : PairTable) (c : Counts) : CountValue :=
  match t with likes_t => c_likes c | bookmarks_t => c_bookmarks c end.

(** What a field of the answer holds when the query counted [n] rows. *)
Definition counted (n : nat) : CountValue :=
  CountText (int8_out (Z.of_nat n)).

Definition the_other (t : PairTable) : PairTable :=
  match t with likes_t => bookmarks_t | bookmarks_t => likes_t end.

(** Every row that points at a fanwork, or at a comment, points at one
    that is there. *)
Definition refs_ok (db : Db) : Prop :=
  Forall (λ r, fanwork_exists (pr_fanworkId r) db) (likes db)
  ∧ Forall (λ r, fanwork_exists (pr_fanworkId r) db) (bookmarks db)
  ∧ Forall (λ c, fanwork_exists (cm_fanworkId c) db) (comments db)
  ∧ Forall (λ ft, fanwork_exists (ft_fanworkId ft) db) (fanworkTags db)
  ∧ Forall (λ r, ¬ fk_broken (fw_id <$> fanworks db) None (rp_fanworkId r)
                 ∧ ¬ fk_broken (cm_id <$> comments db) None (rp_commentId r))
      (reports db).

#[export] Instance refs_ok_dec db : Decision (refs_ok db).
Proof. unfold refs_ok. apply _. Defined.

(** The sample store with its other sequences. *)
Definition st0 : Store :=
  {| st_db := db0; users_id_seq := 5; tags_id_seq := 2;
     fanwork_tags_id_seq := 2; comments_id_seq := 3; reports_id_seq := 2 |}.




(** Two fanworks created at the same time. *)
Definition twins : Db :=
  set_fanworks [a_fanwork 1 "T" "artwork" 1 false 10;
                a_fanwork 2 "Portal" "fanfiction" 1 false 10] db0.

(** A fanwork that carries no trace of moderation; a user that carries no
    trace of a ban. *)
Definition never_moderated (f : Fanwork) : Prop :=
  fw_isHidden f = false ∧ fw_moderationReason f = None
  ∧ fw_moderatedAt f = None ∧ fw_moderatedBy f = None.

Definition never_banned (u : User) : Prop :=
  u_isBanned u = false ∧ u_banReason u = None
  ∧ u_bannedAt u = None ∧ u_bannedBy u = None.

#[export] Instance never_moderated_dec f : Decision (never_moderated f).
Proof. unfold never_moderated. apply _. Defined.

#[export] Instance never_banned_dec u : Decision (never_banned u).
Proof. unfold never_banned. apply _. Defined.

(** The state a computation on the extended store leaves, and the value
    it returns. *)
Definition execS {A} (m : MS A) (st : Store) : Store := snd (m st).
Definition resultS {A} (m : MS A) (st : Store) : Result A := fst (m st).

(** The methods of the storage layer that write, as requests. *)
Inductive Call :=
| ToggleLike (userId fanworkId : Z)
| ToggleBookmark (userId fanworkId : Z)
| CreateComment (comment : InsertComment)
| DeleteComment (id userId : Z)
| DeleteFanwork (id : Z)
| AddTagsToFanwork (fanworkId : Z) (tagNames : list string)
| CreateReport (report : InsertReport)
| UpdateReport (id : Z) (data : ReportPatch)
| BanUser (userId : Z) (data : BanData)
| UnbanUser (userId : Z)
| HideFanwork (fanworkId : Z) (data : HideData)
| UnhideFanwork (fanworkId : Z)
| UpdateUserRole (userId : Z) (role : string)
| VerifyUserAge (userId : Z)
| CreateUser (userData : UpsertUser).

Definition run_call (c : Call) (st : Store) : Store :=
  match c with
  | ToggleLike u f => execS (lift (toggleLike u f)) st
  | ToggleBookmark u f => execS (lift (toggleBookmark u f)) st
  | CreateComment comment => execS (createComment comment) st
  | DeleteComment id u => execS (lift (deleteComment id u)) st
  | DeleteFanwork id => execS (lift (deleteFanwork id)) st
  | AddTagsToFanwork f names => execS (addTagsToFanwork f names) st
  | CreateReport report => execS (createReport report) st
  | UpdateReport id data => execS (lift (updateReport id data)) st
  | BanUser u data => execS (lift (banUser u data)) st
  | UnbanUser u => execS (lift (unbanUser u)) st
  | HideFanwork f data => execS (lift (hideFanwork f data)) st
  | UnhideFanwork f => execS (lift (unhideFanwork f)) st
  | UpdateUserRole u role => execS (lift (updateUserRole u role)) st
  | VerifyUserAge u => execS (lift (verifyUserAge u)) st
  | CreateUser userData => execS (createUser userData) st
  end.

Definition run_calls (cs : list Call) (st : Store) : Store :=
  foldl (λ st c, run_call c st) st cs.

(** [a] may stand before [b] in a listing that is latest first. *)
Definition not_later {R} (created : R → option Z) (a b : R) : Prop :=
  later (created b) (created a) = false.

(** The tag that a lookup by [name] finds is linked to the fanwork. *)
Definition linked (fanworkId : Z) (name : string) (db : Db) : Prop :=
  ∃ tg, head (filter (λ tg, tag_name tg = name) (tags db)) = Some tg
        ∧ filter (λ ft, ft_fanworkId ft = fanworkId ∧ ft_tagId ft = tag_id tg)
            (fanworkTags db) ≠ [].

(** [tags] and [fanworkTags] have only gained rows, at their ends. *)
Definition extends (db db' : Db) : Prop :=
  (∃ l, tags db' = tags db ++ l)
  ∧ (∃ l, fanworkTags db' = fanworkTags db ++ l).

(** The characters [LIKE] reads as something other than themselves. *)
Definition wildcard (c : ascii) : Prop :=
  c = "%"%char ∨ c = "_"%char ∨ c = "\"%char.

#[export] Instance wildcard_dec c : Decision (wildcard c).
Proof. unfold wildcard. apply _. Defined.

(** [s] occurs in [text], letter case apart. *)
Definition contains (text s : string) : Prop :=
  ∃ pre post, lower <$> chars text = pre ++ (lower <$> chars s) ++ post.

(** The filters of a search for [s] and nothing else. *)
Definition search_for (s : string) : Filters :=
  {| f_type := None; f_rating := None; f_tags := None; f_search := Some s;
     f_authorId := None; f_limit := None; f_offset := None |}.

(** The filters, asked for one page. *)
Definition page (limit offset : option Z) (filters : Filters) : Filters :=
  {| f_type := f_type filters; f_rating := f_rating filters;
     f_tags := f_tags filters; f_search := f_search filters;
     f_authorId := f_authorId filters;
     f_limit := limit; f_offset := offset |}.


(** Stand-ins for the validator and the two libraries, for the
    examples. *)
Definition sample_is_email (s : string) : bool :=
  bool_decide ("@"%char ∈ chars s).

Definition sample_hash (salt password : string) : string :=
  salt +:+ "$" +:+ password.

Definition sample_compare (password hash : string) : bool :=
  bool_decide (hash ∈ (λ salt, sample_hash salt password) <$> ["s1"; "s2"]).

Definition sample_token (userId now : Z) : string :=
  if bool_decide (userId = 5) then "tok5" else "tok".

Definition sample_verify5 (token : string) : option Z :=
  if bool_decide (token = "tok5") then Some 5 else sample_verify token.

Definition sample_registration : RegisterBody :=
  {| rb_email := Text "c@x.com"; rb_username := Text "cee";
     rb_password := Text "secret"; rb_firstName := Missing;
     rb_lastName := Missing |}.

(** * Properties *)

(** Decidable side conditions on concrete data are settled by evaluation. *)
Ltac by_compute := apply (bool_decide_unpack _); vm_compute; exact I.

(** ** The toggles, one call at a time *)

Lemma toggle_unfold t U I db :
  toggle t U I db =
  if decide (int4 U ∧ int4 I) then
    match filter (pair_is U I) (pair_rows t db) with
    | _ :: _ =>
        (Ok false,
         set_pair_rows t (filter (λ r, ¬ pair_is U I r) (pair_rows t db)) db)
    | [] =>
        match insert_pair t U I db with
        | (Ok _, db') => (Ok true, db')
        | (Err e, db') => (Err e, db')
        end
    end
  else (Err (number_refused (first_unfit U I)), db).
Proof.
  destruct t; unfold toggle, toggleLike, toggleBookmark, mbind, M_bind,
    fmap, M_fmap, select_pairs, delete_pairs, mret, M_ret; simpl;
    (case_decide; [|done]); simpl; destruct (filter _ _); reflexivity.
Qed.

(** A toggle whose numbers do not fit is refused at its first statement
    and changes nothing. *)
Lemma toggle_refused t U I db :
  ¬ (int4 U ∧ int4 I) →
  toggle t U I db = (Err (number_refused (first_unfit U I)), db).
Proof. intros Hout. by rewrite toggle_unfold, decide_False. Qed.

Lemma toggle_in_range t U I db :
  int4 U → int4 I →
  toggle t U I db =
  match filter (pair_is U I) (pair_rows t db) with
  | _ :: _ =>
      (Ok false,
       set_pair_rows t (filter (λ r, ¬ pair_is U I r) (pair_rows t db)) db)
  | [] =>
      match insert_pair t U I db with
      | (Ok _, db') => (Ok true, db')
      | (Err e, db') => (Err e, db')
      end
  end.
Proof. intros HU HI. by rewrite toggle_unfold, decide_True. Qed.

(** A toggle that returns has passed the test of its numbers. *)
Lemma toggle_Ok_int4 t U I db b :
  result (toggle t U I) db = Ok b → int4 U ∧ int4 I.
Proof.
  unfold result. rewrite toggle_unfold. by case_decide.
Qed.

Lemma pair_rows_set t v db : pair_rows t (set_pair_rows t v db) = v.
Proof. by destruct t. Qed.

Lemma pair_rows_set_seq t v db : pair_rows t (set_pair_seq t v db) = pair_rows t db.
Proof. by destruct t. Qed.

Lemma pair_seq_set_rows t v db : pair_seq t (set_pair_rows t v db) = pair_seq t db.
Proof. by destruct t. Qed.

Lemma pair_seq_set t v db : pair_seq t (set_pair_seq t v db) = v.
Proof. by destruct t. Qed.

Lemma has_pair_filter t U I db :
  has_pair t U I db ↔ filter (pair_is U I) (pair_rows t db) ≠ [].
Proof.
  unfold has_pair. split.
  - intros (r & Hin & Hr) Hnil.
    exact (filter_nil_not_elem_of _ _ _ Hnil Hr Hin).
  - destruct (filter _ _) as [|r l] eqn:E; [done|]. intros _.
    assert (r ∈ filter (pair_is U I) (pair_rows t db)) as Hr
      by (rewrite E; left).
    apply list_elem_of_filter in Hr as [? ?]. eauto.
Qed.


(** A toggle that finds the row deletes every row of the pair. *)
Lemma toggle_present t U I db :
  int4 U → int4 I → has_pair t U I db →
  toggle t U I db =
    (Ok false,
     set_pair_rows t (filter (λ r, ¬ pair_is U I r) (pair_rows t db)) db).
Proof.
  intros HU HI. rewrite has_pair_filter, toggle_in_range by done.
  by destruct (filter _ _).
Qed.



Lemma toggle_fanworks t U I db : fanworks (exec (toggle t U I) db) = fanworks db.
Proof.
  unfold exec. rewrite toggle_unfold. case_decide; [|done].
  destruct (filter _ _); [|by destruct t].
  unfold insert_pair. repeat case_decide; by destruct t.
Qed.

Lemma toggle_other_table t t' U I db :
  t ≠ t' → pair_rows t' (exec (toggle t U I) db) = pair_rows t' db.
Proof.
  intros Hne. unfold exec. rewrite toggle_unfold. case_decide; [|done].
  destruct (filter _ _).
  - unfold insert_pair. repeat case_decide; by destruct t, t'.
  - by destruct t, t'.
Qed.

(** The rows a toggle leaves for the pair it was asked about, and for any
    other pair. *)
Lemma toggle_rows t U I db :
  pair_rows t (exec (toggle t U I) db) =
    filter (λ r, ¬ pair_is U I r) (pair_rows t db)
  ∨ pair_rows t (exec (toggle t U I) db) = pair_rows t db
  ∨ (¬ has_pair t U I db
     ∧ ∃ r, pair_is U I r
            ∧ pair_rows t (exec (toggle t U I) db) = pair_rows t db ++ [r]).
Proof.
  unfold exec. rewrite toggle_unfold. case_decide; [|auto].
  destruct (filter _ _) eqn:E.
  - unfold insert_pair. repeat case_decide; simpl;
      rewrite ?pair_rows_set, ?pair_rows_set_seq; auto.
    right; right. split.
    + rewrite has_pair_filter, E. tauto.
    + eexists. split; [|reflexivity]. by split.
  - left. simpl. by rewrite pair_rows_set.
Qed.


(** [isLiked] and [isBookmarked] answer whether the pair has a row. *)
Lemma isLiked_has_pair U I db :
  int4 U → int4 I →
  ∃ b, isLiked U I db = (Ok b, db) ∧ (b = true ↔ has_pair likes_t U I db).
Proof.
  intros HU HI.
  unfold isLiked, mbind, M_bind, fmap, M_fmap, select_pairs. simpl.
  rewrite decide_True by done. simpl.
  eexists. split; [reflexivity|].
  by rewrite has_pair_filter, bool_decide_eq_true, head_is_Some.
Qed.

Lemma isBookmarked_has_pair U I db :
  int4 U → int4 I →
  ∃ b, isBookmarked U I db = (Ok b, db)
       ∧ (b = true ↔ has_pair bookmarks_t U I db).
Proof.
  intros HU HI.
  unfold isBookmarked, mbind, M_bind, fmap, M_fmap, select_pairs. simpl.
  rewrite decide_True by done. simpl.
  eexists. split; [reflexivity|].
  by rewrite has_pair_filter, bool_decide_eq_true, head_is_Some.
Qed.


Lemma toggle_step_present t U I db :
  int4 U → int4 I → has_pair t U I db →
  result (toggle t U I) db = Ok false
  ∧ ¬ has_pair t U I (exec (toggle t U I) db).
Proof.
  intros HU HI Hhas. unfold result, exec. rewrite toggle_present by done.
  split; [done|]. simpl. intros (r & Hr & Hp).
  rewrite pair_rows_set in Hr. apply list_elem_of_filter in Hr as [Hn _].
  contradiction.
Qed.







(** ** Uniqueness of the pair rows *)

Lemma pair_is_inj U I U' I' r : pair_is U I r → pair_is U' I' r → U = U' ∧ I = I'.
Proof. unfold pair_is. intros [<- <-] [<- <-]. done. Qed.

Lemma filter_other_pair U I U' I' (l : list PairRow) :
  ¬ (U = U' ∧ I = I') →
  filter (pair_is U' I') (filter (λ r, ¬ pair_is U I r) l)
  = filter (pair_is U' I') l.
Proof.
  intros Hne. induction l as [|r l IH]; [done|].
  rewrite (filter_cons (λ r, ¬ pair_is U I r)).
  destruct (decide (¬ pair_is U I r)) as [Hn|Hy].
  - rewrite !filter_cons, IH. done.
  - rewrite IH, filter_cons_False; [done|].
    intros H'. apply Hne. apply dec_stable in Hy.
    by eapply pair_is_inj.
Qed.

Lemma filter_same_pair U I (l : list PairRow) :
  filter (pair_is U I) (filter (λ r, ¬ pair_is U I r) l) = [].
Proof.
  induction l as [|r l IH]; [done|].
  rewrite (filter_cons (λ r, ¬ pair_is U I r)).
  destruct (decide (¬ pair_is U I r)); [|done].
  by rewrite filter_cons_False.
Qed.

Lemma not_has_pair_count t U I db : ¬ has_pair t U I db → pair_count t U I db = 0%nat.
Proof.
  rewrite has_pair_filter. unfold pair_count.
  destruct (filter _ _); [done|]. intros []. done.
Qed.

(** A toggle on [(U, I)] leaves at most one row for [(U, I)] wherever there
    was at most one, and does not change the count of any other pair. *)
Lemma toggle_pair_count t U I db U' I' :
  (pair_count t U' I' db ≤ 1)%nat →
  (pair_count t U' I' (exec (toggle t U I) db) ≤ 1)%nat.
Proof.
  unfold pair_count at 2.
  destruct (toggle_rows t U I db) as [-> | [-> | (Hno & r & Hr & ->)]].
  - destruct (decide (U = U' ∧ I = I')) as [[<- <-]|Hne].
    + rewrite filter_same_pair. simpl. lia.
    + by rewrite filter_other_pair.
  - done.
  - rewrite filter_app, length_app. fold (pair_count t U' I' db).
    destruct (decide (pair_is U' I' r)) as [Hr'|Hr'].
    + destruct (pair_is_inj _ _ _ _ _ Hr Hr') as [<- <-].
      rewrite not_has_pair_count by done.
      rewrite filter_cons_True by done. simpl. lia.
    + rewrite filter_cons_False by done. simpl. lia.
Qed.

Lemma run_op_unique op db : unique_pairs db → unique_pairs (run_op op db).
Proof.
  intros Hu U' I'. destruct (Hu U' I') as [Hl Hb].
  destruct op as [U I|U I]; simpl.
  - split.
    + by apply (toggle_pair_count likes_t).
    + unfold pair_count.
      by rewrite (toggle_other_table likes_t bookmarks_t).
  - split.
    + unfold pair_count.
      by rewrite (toggle_other_table bookmarks_t likes_t).
    + by apply (toggle_pair_count bookmarks_t).
Qed.

(** C5. Every run of [toggleLike] and [toggleBookmark] calls, in any order
    and on any pairs, keeps at most one Like row and at most one Bookmark
    row per (user, fanwork) pair: each call preserves the invariant, also
    when the store rejects its insert. *)
Theorem toggles_keep_pairs_unique (ops : list Op) (db : Db) :
  unique_pairs db → unique_pairs (run_ops ops db).
Proof.
  revert db. induction ops as [|op ops IH]; intros db Hu; [done|].
  simpl. apply IH. by apply run_op_unique.
Qed.

Lemma toggles_keep_pairs_unique_witness :
  unique_pairs
    (run_ops [OpLike 2 1; OpLike 1 2; OpBookmark 2 2; OpLike 1 2;
              OpBookmark 9 9; OpLike 2 1] db0).
Proof.
  apply toggles_keep_pairs_unique.
  intros U I. unfold pair_count. simpl.
  rewrite filter_cons, filter_nil. case_decide; simpl; lia.
Defined.

(** ** Toggles and the state of the fanwork *)





(** ** Counters *)

Lemma count_star_from {R} (P : R → Prop) `{!∀ r, Decision (P r)} (l : list R) n :
  foldl (λ n r, if decide (P r) then n + 1 else n) n l
  = n + Z.of_nat (length (filter P l)).
Proof.
  revert n. induction l as [|r l IH]; intros n; simpl; [lia|].
  rewrite IH, filter_cons. case_decide; simpl; lia.
Qed.

Lemma count_star_length {R} (P : R → Prop) `{!∀ r, Decision (P r)} (l : list R) :
  count_star P l = Z.of_nat (length (filter P l)).
Proof. unfold count_star. by rewrite count_star_from. Qed.

Lemma pretty_N_go_nonempty (x : N) s : s ≠ "" → pretty_N_go x s ≠ "".
Proof.
  revert s. induction (N.lt_wf_0 x) as [x _ IH]; intros s Hs.
  destruct (decide (0 < x)%N) as [Hx|Hx].
  - rewrite pretty_N_go_step by done.
    apply IH; [by apply N.div_lt|done].
  - assert (x = 0%N) as -> by lia. by rewrite pretty_N_go_0.
Qed.

Lemma pretty_N_nonempty (x : N) : pretty x ≠ "".
Proof.
  unfold pretty, pretty_N. case_decide; [done|].
  rewrite pretty_N_go_step by lia. by apply pretty_N_go_nonempty.
Qed.

(** The text of a [bigint] is never empty, so [count || 0] keeps it. *)
Lemma int8_out_nonempty v : int8_out v ≠ "".
Proof.
  unfold int8_out, pretty, pretty_Z. destruct v as [|p|p]; [done| |done].
  apply pretty_N_nonempty.
Qed.

Lemma count_or_0_text v : count_or_0 (Some (int8_out v)) = CountText (int8_out v).
Proof.
  unfold count_or_0. rewrite bool_decide_eq_false_2; [done|].
  apply int8_out_nonempty.
Qed.

(** What [getFanworkCounts] answers for a key of the [integer] column:
    the texts of the three row counts, taken from the tables when the call
    is made. *)
Lemma getFanworkCounts_counted I db :
  int4 I →
  getFanworkCounts I db
  = (Ok {| c_likes :=
             counted (length (filter (λ r, pr_fanworkId r = I) (likes db)));
           c_comments :=
             counted (length (filter (λ c, cm_fanworkId c = I) (comments db)));
           c_bookmarks :=
             counted (length (filter (λ r, pr_fanworkId r = I) (bookmarks db)))
        |}, db).
Proof.
  intros HI. unfold getFanworkCounts, select_count, counted.
  rewrite decide_False by tauto. cbn [head].
  by rewrite !count_or_0_text, !count_star_length.
Qed.

Lemma getFanworkCounts_refused I db :
  ¬ int4 I → getFanworkCounts I db = (Err (number_refused I), db).
Proof. intros HI. unfold getFanworkCounts. by rewrite decide_True. Qed.

(** The answer depends on the three tables only: no column of [fanworks]
    (its [reportCount] included) and no other table is read. *)
Lemma getFanworkCounts_reads_three_tables I db db' :
  likes db' = likes db → comments db' = comments db →
  bookmarks db' = bookmarks db →
  result (getFanworkCounts I) db' = result (getFanworkCounts I) db.
Proof.
  intros Hl Hc Hb. unfold result, getFanworkCounts.
  case_decide; [done|]. simpl. by rewrite Hl, Hc, Hb.
Qed.

(** C2, the code at a failing input.  In the sample store fanwork 1 has
    one like row, two comment rows and no bookmark row.  The claim has
    [getFanworkCounts(1)] return the numbers 1, 2 and 0, as the declared
    result type [{likes: number, ...}] says.  The call returns the texts
    "1", "2" and "0" that the driver hands over for the [bigint] of
    [count( * )]: "0" is a non-empty string, so [|| 0] keeps it too.  The
    answer is not the record of numbers.  So it is for every store and
    every id: the call answers with the texts of the three row counts, or,
    for an id that is no value of the [integer] column and only then, is
    refused by the store. *)
Theorem getFanworkCounts_returns_texts_for_numbers :
  length (filter (λ r, pr_fanworkId r = 1) (likes db0)) = 1%nat
  ∧ length (filter (λ c, cm_fanworkId c = 1) (comments db0)) = 2%nat
  ∧ length (filter (λ r, pr_fanworkId r = 1) (bookmarks db0)) = 0%nat
  ∧ getFanworkCounts 1 db0
    = (Ok {| c_likes := CountText "1"; c_comments := CountText "2";
             c_bookmarks := CountText "0" |}, db0)
  ∧ result (getFanworkCounts 1) db0
    ≠ Ok {| c_likes := CountNumber 1; c_comments := CountNumber 2;
            c_bookmarks := CountNumber 0 |}
  ∧ ∀ db I,
      match result (getFanworkCounts I) db with
      | Ok c =>
          int4 I
          ∧ c_likes c
            = CountText (int8_out (Z.of_nat (length
                (filter (λ r, pr_fanworkId r = I) (likes db)))))
          ∧ c_comments c
            = CountText (int8_out (Z.of_nat (length
                (filter (λ r, cm_fanworkId r = I) (comments db)))))
          ∧ c_bookmarks c
            = CountText (int8_out (Z.of_nat (length
                (filter (λ r, pr_fanworkId r = I) (bookmarks db)))))
      | Err e => ¬ int4 I ∧ e = number_refused I
      end.
Proof.
  split; [done|]. split; [done|]. split; [done|].
  split; [vm_compute; reflexivity|]. split; [done|].
  intros db I. unfold result. destruct (decide (int4 I)) as [HI|HI].
  - by rewrite getFanworkCounts_counted.
  - by rewrite getFanworkCounts_refused.
Qed.

(** What the texts do to a caller that adds them up: the profile page
    totals the likes and the comments of the author's two fanworks of the
    sample store (1 and 0 likes, 2 and 0 comments) to the texts "010" and
    "020", where numbers would give 1 and 2. *)
Lemma profile_totals_join_the_texts :
  let counts := [1; 2] ≫= λ i,
    match result (getFanworkCounts i) db0 with
    | Ok c => [Some c]
    | Err _ => []
    end in
  length counts = 2%nat
  ∧ totalLikes counts = CountText "010"
  ∧ totalComments counts = CountText "020".
Proof. vm_compute. repeat split. Qed.

(** ** Reviewing a report *)

Lemma filter_key_NoDup {R} (key : R → Z) (l : list R) (x : R) :
  NoDup (key <$> l) → x ∈ l → filter (λ y, key y = key x) l = [x].
Proof.
  induction l as [|y l IH]; intros Hnd Hx.
  - by apply not_elem_of_nil in Hx.
  - rewrite fmap_cons in Hnd. apply NoDup_cons in Hnd as [Hy Hnd].
    apply elem_of_cons in Hx as [->|Hx].
    + rewrite filter_cons_True by done. f_equal.
      destruct (filter _ l) as [|z l'] eqn:E; [done|].
      assert (z ∈ filter (λ y0, key y0 = key y) l) as Hz by (rewrite E; left).
      apply list_elem_of_filter in Hz as [Hk Hz].
      destruct Hy. rewrite <- Hk. by apply list_elem_of_fmap_2.
    + rewrite filter_cons_False; [by apply IH|].
      intros Hk. destruct Hy. rewrite Hk. by apply list_elem_of_fmap_2.
Qed.




(** ** The order of the listing *)

Lemma insert_desc_sorted x l :
  Sorted not_before l → Sorted not_before (insert_desc x l).
Proof.
  induction l as [|y l IH]; intros Hs; simpl.
  - by repeat constructor.
  - apply Sorted_inv in Hs as [Hs Hhd].
    destruct (created_after y x) eqn:E.
    + constructor; [by apply IH|].
      destruct l as [|z l]; simpl.
      * constructor. unfold not_before, created_after in *.
        destruct (fw_createdAt y), (fw_createdAt x); try done.
        case_bool_decide; [|done]. apply bool_decide_eq_false. lia.
      * destruct (created_after z x); constructor.
        -- by inversion Hhd.
        -- unfold not_before, created_after in *.
           destruct (fw_createdAt y), (fw_createdAt x); try done.
           case_bool_decide; [|done]. apply bool_decide_eq_false. lia.
    + constructor; [by constructor|]. constructor. exact E.
Qed.

Lemma order_desc_sorted l : Sorted not_before (order_desc l).
Proof.
  induction l as [|x l IH]; [constructor|].
  unfold order_desc in *. cbn [foldr]. by apply insert_desc_sorted.
Qed.

Lemma insert_desc_perm x l : insert_desc x l ≡ₚ x :: l.
Proof.
  induction l as [|y l IH]; [done|]. simpl.
  destruct (created_after y x); [|done]. rewrite IH. apply Permutation_swap.
Qed.

Lemma order_desc_perm l : order_desc l ≡ₚ l.
Proof.
  induction l as [|x l IH]; [done|].
  unfold order_desc in *. cbn [foldr]. by rewrite insert_desc_perm, IH.
Qed.

Lemma not_before_trans : Transitive not_before.
Proof.
  intros a b c. unfold not_before, created_after.
  destruct (fw_createdAt a), (fw_createdAt b), (fw_createdAt c); try done.
  rewrite !bool_decide_eq_false. lia.
Qed.

Lemma not_before_both a b :
  not_before a b → not_before b a → fw_createdAt a = fw_createdAt b.
Proof.
  unfold not_before, created_after.
  destruct (fw_createdAt a), (fw_createdAt b); try done.
  rewrite !bool_decide_eq_false. intros. f_equal. lia.
Qed.

Lemma NoDup_fmap_eq {A B} (f : A → B) (l : list A) x y :
  NoDup (f <$> l) → x ∈ l → y ∈ l → f x = f y → x = y.
Proof.
  induction l as [|z l IH]; intros Hnd Hx Hy Heq.
  - by apply not_elem_of_nil in Hx.
  - rewrite fmap_cons in Hnd. apply NoDup_cons in Hnd as [Hz Hnd].
    apply elem_of_cons in Hx as [->|Hx]; apply elem_of_cons in Hy as [->|Hy].
    + done.
    + destruct Hz. rewrite Heq. by apply list_elem_of_fmap_2.
    + destruct Hz. rewrite <- Heq. by apply list_elem_of_fmap_2.
    + by apply IH.
Qed.

(** Rows whose [createdAt] all differ come out of [ORDER BY createdAt
    DESC] in one order, whatever order the scan delivered them in. *)
Lemma order_desc_scan (scan : Scan Fanwork) l :
  NoDup (fw_createdAt <$> l) → order_desc (scan l) = order_desc l.
Proof.
  intros Hnd.
  assert (order_desc (scan l) ≡ₚ order_desc l) as Hperm.
  { by rewrite !order_desc_perm, scan_perm. }
  apply (Sorted_unique_strong not_before (Transitive0 := not_before_trans));
    [|apply order_desc_sorted|apply order_desc_sorted|done].
  intros x y Hx Hy Hxy Hyx.
  apply (NoDup_fmap_eq fw_createdAt l); [done| | |by apply not_before_both].
  - by rewrite Hperm, order_desc_perm in Hx.
  - by rewrite order_desc_perm in Hy.
Qed.

Lemma where_NoDup c (l : list Fanwork) :
  NoDup (fw_createdAt <$> l) → NoDup (fw_createdAt <$> where_ c l).
Proof.
  intros Hnd. destruct c as [c|]; [|done]. simpl.
  eapply sublist_NoDup; [done|]. apply fmap_sublist, sublist_filter.
Qed.

Lemma int4_param_pure n : ∃ r, ∀ db, int4_param n db = (r, db).
Proof.
  unfold int4_param. destruct n as [v|]; [|by eexists].
  case_bool_decide; by eexists.
Qed.

(** When the [createdAt] of the fanworks all differ, the listing does not
    depend on the scan. *)
Lemma getFanworks_scan (scan : Scan Fanwork) filters db :
  NoDup (fw_createdAt <$> fanworks db) →
  getFanworks scan filters db = getFanworks table_order filters db.
Proof.
  intros Hnd. unfold getFanworks, mbind, M_bind.
  set (author := match nonempty_string _ with Some s => _ | None => _ end).
  assert (∃ r, ∀ db, author db = (r, db)) as [r Hr].
  { unfold author. destruct (nonempty_string _) as [s|]; [|by eexists].
    destruct (int4_param_pure (parseInt s)) as [r Hr].
    exists (match r with Ok a => Ok (Some a) | Err e => Err e end).
    intros db'. unfold fmap, M_fmap. rewrite Hr. by destruct r. }
  rewrite !Hr. destruct r as [authorId|e]; [|done].
  by rewrite order_desc_scan by by apply where_NoDup.
Qed.

Lemma StringUserId_getFanworks_scan (scan : Scan Fanwork) filters db :
  NoDup (fw_createdAt <$> fanworks db) →
  StringUserId.getFanworks scan filters db
  = StringUserId.getFanworks table_order filters db.
Proof.
  intros Hnd. unfold StringUserId.getFanworks, mbind, M_bind.
  set (author := match nonempty_string _ with Some s => _ | None => _ end).
  assert (∃ r, ∀ db, author db = (r, db)) as [r Hr].
  { unfold author. destruct (nonempty_string _) as [s|]; [|by eexists].
    destruct (int4_param_pure (StringUserId.int4_in s)) as [r Hr].
    exists (match r with Ok a => Ok (Some a) | Err e => Err e end).
    intros db'. unfold fmap, M_fmap. rewrite Hr. by destruct r. }
  rewrite !Hr. destruct r as [authorId|e]; [|done].
  by rewrite order_desc_scan by by apply where_NoDup.
Qed.

Lemma api_fanworks_scan (scan : Scan Fanwork) user query db :
  NoDup (fw_createdAt <$> fanworks db) →
  api_fanworks scan user query db = api_fanworks table_order user query db.
Proof.
  intros Hnd. unfold api_fanworks, result. by rewrite getFanworks_scan.
Qed.

(** ** Reads and the hidden flag *)

Lemma getFanwork_reflag h i db :
  getFanwork i (reflag_db h db)
  = (result_map (fmap (reflag h)) (result (getFanwork i) db), reflag_db h db).
Proof.
  unfold result, getFanwork. cbn [fanworks reflag_db set_fanworks fst result_map].
  do 2 f_equal. induction (fanworks db) as [|f l IH]; [done|].
  rewrite fmap_cons, !filter_cons. change (fw_id (reflag h f)) with (fw_id f).
  case_decide; [done|]. apply IH.
Qed.

(** [getFanwork] and the route that serves it take no account of the
    caller and never read [isHidden]: rewriting the hidden flags of the
    store in any way changes the response in those flags only. *)
Lemma getFanwork_ignores_caller_and_hidden_flag
    (h : Fanwork → bool) (caller caller' : option ReqUser)
    (id_param : string) (i : Z) (db : Db) :
  api_fanwork caller id_param (reflag_db h db)
  = response_map (reflag h) (api_fanwork caller' id_param db)
  ∧ result (getFanwork i) (reflag_db h db)
    = result_map (fmap (reflag h)) (result (getFanwork i) db).
Proof.
  split.
  - unfold api_fanwork, result, mbind, M_bind.
    destruct (int4_param_pure (parseInt id_param)) as [r Hr].
    rewrite !Hr. destruct r as [id|e]; [|done].
    rewrite getFanwork_reflag. cbn [fst].
    unfold result. by destruct (getFanwork id db).1 as [[f|]|e].
  - unfold result at 1. by rewrite getFanwork_reflag.
Qed.

Lemma filter_hidden_rows i data (l : list Fanwork) :
  filter (λ f, fw_id f = i)
    ((λ f, if decide (fw_id f = i) then set_hide data f else f) <$> l)
  = set_hide data <$> filter (λ f, fw_id f = i) l.
Proof.
  induction l as [|f l IH]; [done|].
  rewrite fmap_cons, !filter_cons.
  destruct (decide (fw_id f = i)) as [Hi|Hi].
  - rewrite decide_True by done. by rewrite fmap_cons, IH.
  - by rewrite decide_False.
Qed.

(** A fanwork that a moderator has just hidden is still returned by
    [getFanwork], with the flag set. *)
Lemma hidden_fanwork_stays_readable i data db g :
  result (hideFanwork i data) db = Ok (Some g) →
  fw_isHidden g = true
  ∧ result (getFanwork i) (exec (hideFanwork i data) db) = Ok (Some g).
Proof.
  unfold result, exec, hideFanwork, getFanwork. case_decide; [done|]. simpl.
  intros [= Hg]. rewrite filter_hidden_rows, Hg. split; [|done].
  destruct (filter _ _); simplify_eq/=. done.
Qed.

(** Every fanwork of a table of at most 20 rows, hidden or not, is in the
    list that the list route sends to any caller who asks without
    filters. *)
Lemma unfiltered_list_holds_every_fanwork
    (scan : Scan Fanwork) (caller : option ReqUser) (db : Db) :
  (length (fanworks db) ≤ 20)%nat →
  ∃ l, api_fanworks scan caller no_query db = Json l ∧ l ≡ₚ fanworks db.
Proof.
  intros Hlen. unfold api_fanworks, result, getFanworks, mbind, M_bind.
  cbn. exists (take 20 (order_desc (scan (fanworks db)))). split; [done|].
  rewrite take_ge.
  - by rewrite order_desc_perm, scan_perm.
  - by rewrite order_desc_perm, scan_perm.
Qed.

(** C4, the code at a failing input.  Fanwork 1 of the sample store is
    hidden and belongs to user 1.  User 2, an ordinary user, and an
    anonymous caller may not see hidden items; yet the list route and the
    read route serve fanwork 1 to every caller.  When a moderator hides
    fanwork 2 as well, [hideFanwork] sets its flag, and both routes go on
    serving it to every caller. *)
Theorem hidden_fanwork_is_served_to_any_caller
    (scan : Scan Fanwork) (caller : option ReqUser) :
  let f := a_fanwork 1 "T" "artwork" 1 true 10 in
  let g := a_fanwork 2 "Portal" "fanfiction" 1 false 20 in
  let reader := Some {| ru_id := 2; ru_email := "b@x.com"; ru_username := "b" |} in
  let data := {| moderationReason := "spam"; moderatedBy := 3;
                 moderatedAt := 50 |} in
  let db' := exec (hideFanwork 2 data) db0 in
  f ∈ fanworks db0 ∧ fw_isHidden f = true
  ∧ ¬ may_see_hidden db0 reader f ∧ ¬ may_see_hidden db0 None f
  ∧ api_fanworks scan caller no_query db0 = Json [g; f]
  ∧ api_fanwork caller "1" db0 = Json f
  ∧ result (getFanwork 1) db0 = Ok (Some f)
  ∧ result (hideFanwork 2 data) db0 = Ok (Some (set_hide data g))
  ∧ fw_isHidden (set_hide data g) = true
  ∧ ¬ may_see_hidden db' reader (set_hide data g)
  ∧ api_fanworks scan caller no_query db' = Json [set_hide data g; f]
  ∧ api_fanwork caller "2" db' = Json (set_hide data g).
Proof.
  intros f g reader data db'. split; [simpl; left|]. split; [done|].
  split.
  { intros (c & u & [= <-] & Hu & Hid & Hor). simpl in Hu, Hid.
    repeat (apply elem_of_cons in Hu as [->|Hu]);
      try (by apply not_elem_of_nil in Hu);
      simpl in *; try done; by destruct Hor as [|[|]]. }
  split.
  { by intros (c & u & [=] & _). }
  split.
  { rewrite api_fanworks_scan by by_compute. vm_compute. reflexivity. }
  split; [vm_compute; reflexivity|].
  split; [vm_compute; reflexivity|].
  split; [vm_compute; reflexivity|].
  split; [done|].
  split.
  { intros (c & u & [= <-] & Hu & Hid & Hor). simpl in Hu, Hid.
    repeat (apply elem_of_cons in Hu as [->|Hu]);
      try (by apply not_elem_of_nil in Hu);
      simpl in *; try done; by destruct Hor as [|[|]]. }
  split.
  { rewrite api_fanworks_scan by by_compute. vm_compute. reflexivity. }
  vm_compute. reflexivity.
Qed.

(** ** Banning a user *)

Lemma Forall2_fmap_self {A} (P : A → A → Prop) (g : A → A) (l : list A) :
  (∀ x, P x (g x)) → Forall2 P l (g <$> l).
Proof. intros HP. induction l; constructor; auto. Qed.

(** Whether it succeeds or is rejected, [banUser] writes to [users] only. *)
Lemma banUser_frame U data db :
  let db' := exec (banUser U data) db in
  fanworks db' = fanworks db ∧ comments db' = comments db
  ∧ likes db' = likes db ∧ bookmarks db' = bookmarks db
  ∧ reports db' = reports db ∧ tags db' = tags db
  ∧ fanworkTags db' = fanworkTags db.
Proof. unfold exec, banUser. by case_decide. Qed.

Lemma banUser_users U data db :
  Forall2 (λ old new, new = old ∨ (u_id old = U ∧ new = set_ban data old))
    (users db) (users (exec (banUser U data) db)).
Proof.
  unfold exec, banUser. case_decide; simpl.
  - rewrite <- (list_fmap_id (users db)) at 2.
    apply Forall2_fmap_self. auto.
  - apply Forall2_fmap_self. intros u. case_decide; auto.
Qed.

(** C8. [banUser(U, data)] writes the four ban fields of U's row and
    nothing else.  Every other table is left as it was, so no fanwork or
    comment of U is deleted or hidden; every row of [users] is either
    unchanged or is U's row with [isBanned], [banReason], [bannedBy] and
    [bannedAt] set and all other fields kept.  When U and the acting
    moderator exist the call returns U's banned row, and [getFanwork] on a
    fanwork of U still returns that fanwork, unchanged. *)
Theorem ban_does_not_cascade (db : Db) (U : Z) (data : BanData)
    (u : User) (f : Fanwork) :
  NoDup (u_id <$> users db) → NoDup (fw_id <$> fanworks db) →
  u ∈ users db → u_id u = U → user_exists (bannedBy data) db →
  f ∈ fanworks db → fw_authorId f = U →
  ban_contract db U data u f.
Proof.
  intros Hu Hf Hin <- Hmod Hfin Hauth. unfold ban_contract.
  set (db' := exec (banUser (u_id u) data) db).
  assert (banUser (u_id u) data db
          = (Ok (Some (set_ban data u)),
             set_users ((λ x, if decide (u_id x = u_id u)
                              then set_ban data x else x) <$> users db) db))
    as Hban.
  { unfold banUser. rewrite (filter_key_NoDup u_id) by done.
    rewrite decide_False; [done|].
    rewrite Exists_cons, Exists_nil. intros [(_ & k & [= <-] & Hk)|[]].
    apply Hk, Hmod. }
  destruct (banUser_frame (u_id u) data db) as (Hfw & Hcm & Hl & Hb & Hr & _).
  split; [unfold result; by rewrite Hban|].
  split.
  { unfold db', exec. rewrite Hban. simpl.
    apply list_elem_of_fmap. exists u. by rewrite decide_True. }
  split.
  { eapply Forall2_impl; [apply banUser_users|].
    intros old new [->|[Hid ->]]; repeat split; auto. }
  repeat (split; [done|]).
  unfold result, getFanwork. simpl. unfold db'. rewrite Hfw.
  by rewrite (filter_key_NoDup fw_id).
Qed.

Lemma ban_does_not_cascade_witness :
  ban_contract db0 1
    {| banReason := "spam"; bannedBy := 3; bannedAt := 50 |}
    (a_user 1 "a" "user" false) (a_fanwork 1 "T" "artwork" 1 true 10).
Proof.
  apply ban_does_not_cascade.
  - by_compute.
  - by_compute.
  - simpl. left.
  - reflexivity.
  - by_compute.
  - simpl. left.
  - reflexivity.
Defined.

(** ** The role-gated middlewares *)

Section Gates.

Variable verifyToken : string → option Z.
Variable authHeader : option string.
Variable db : Db.

(** A gate whose last check is [allowed], stated from the resolved user. *)
Lemma gate_cases (allowed : User → bool) (message : string) (o : Outcome) :
  message ≠ "Account banned" →
  o = match bearer_token authHeader with
      | None => Respond 401 "Access token required"
      | Some token =>
        match verifyToken token with
        | None => Respond 401 "Invalid or expired token"
        | Some userId =>
          match result (getUserById userId) db with
          | Err _ => Respond 500 "Authentication failed"
          | Ok None => Respond 401 "User not found or inactive"
          | Ok (Some user) =>
              if negb (truthy (u_isActive user)) then
                Respond 401 "User not found or inactive"
              else if u_isBanned user then Respond 403 "Account banned"
              else if negb (allowed user) then Respond 403 message
              else Next (req_user user)
          end
        end
      end →
  let who := resolves verifyToken authHeader db in
  stopped_at o
  = first_failure (bool_decide (is_Some who))
      (from_option u_isBanned false who) (from_option allowed false who)
  ∧ ∀ user, who = Some user →
      (u_isBanned user = true → o = Respond 403 "Account banned")
      ∧ (u_isBanned user = false → allowed user = false →
         o = Respond 403 message)
      ∧ (u_isBanned user = false → allowed user = true →
         o = Next (req_user user)).
Proof.
  intros Hmsg ->. unfold resolves, result, getUserById. simpl.
  destruct (bearer_token authHeader) as [token|]; simpl; [|by split].
  destruct (verifyToken token) as [userId|]; simpl; [|by split].
  destruct (head _) as [user|]; simpl; [|by split].
  destruct (truthy (u_isActive user)); simpl; [|by split].
  destruct (u_isBanned user) eqn:Hb; simpl.
  { split; [done|]. intros ? [= <-]. rewrite Hb. by repeat split. }
  destruct (allowed user) eqn:Ha; simpl.
  - split; [done|]. intros ? [= <-]. rewrite Hb, Ha. by repeat split.
  - split; [by rewrite bool_decide_false|].
    intros ? [= <-]. rewrite Hb, Ha. by repeat split.
Qed.

End Gates.

Lemma moderator_test (role : string) :
  bool_decide (role ≠ "moderator") && bool_decide (role ≠ "admin")
  = negb (bool_decide (role = "moderator" ∨ role = "admin")).
Proof. by rewrite !bool_decide_not, bool_decide_or, negb_orb. Qed.

(** C9. [requireModerator], [requireAdmin] and [requireAgeVerification]
    each stop a request at the first failing check in the order
    credential validity (a token that verifies and resolves to an active
    user), ban status, then role or age verification.  In particular a
    banned user whose credential is valid is answered 403 "Account banned"
    by all three, whatever the role: a banned admin never reaches the role
    check. *)
Theorem gates_check_credential_then_ban_then_role
    (verifyToken : string → option Z) (authHeader : option string) (db : Db) :
  let who := resolves verifyToken authHeader db in
  let first_failing allowed :=
    first_failure (bool_decide (is_Some who))
      (from_option u_isBanned false who) (from_option allowed false who) in
  stopped_at (requireModerator verifyToken authHeader db)
  = first_failing
      (λ u, bool_decide (u_role u = "moderator" ∨ u_role u = "admin"))
  ∧ stopped_at (requireAdmin verifyToken authHeader db)
    = first_failing (λ u, bool_decide (u_role u = "admin"))
  ∧ stopped_at (requireAgeVerification verifyToken authHeader db)
    = first_failing u_ageVerified
  ∧ ∀ user, who = Some user → u_isBanned user = true →
      requireModerator verifyToken authHeader db = Respond 403 "Account banned"
      ∧ requireAdmin verifyToken authHeader db = Respond 403 "Account banned"
      ∧ requireAgeVerification verifyToken authHeader db
        = Respond 403 "Account banned".
Proof.
  intros who first_failing.
  destruct (gate_cases verifyToken authHeader db
              (λ u, bool_decide (u_role u = "moderator" ∨ u_role u = "admin"))
              "Moderator access required"
              (requireModerator verifyToken authHeader db)) as [Hm Hm'];
    [done| |].
  { unfold requireModerator.
    destruct (bearer_token authHeader) as [token|]; [|done].
    destruct (verifyToken token) as [userId|]; [|done].
    destruct (result _ db) as [[user|]|]; try done.
    by rewrite moderator_test. }
  destruct (gate_cases verifyToken authHeader db
              (λ u, bool_decide (u_role u = "admin"))
              "Admin access required"
              (requireAdmin verifyToken authHeader db)) as [Ha Ha'];
    [done| |].
  { unfold requireAdmin.
    destruct (bearer_token authHeader) as [token|]; [|done].
    destruct (verifyToken token) as [userId|]; [|done].
    destruct (result _ db) as [[user|]|]; try done.
    by rewrite bool_decide_not. }
  destruct (gate_cases verifyToken authHeader db u_ageVerified
              "Age verification required for 18+ content"
              (requireAgeVerification verifyToken authHeader db)) as [Hv Hv'];
    [done|done|].
  split; [exact Hm|]. split; [exact Ha|]. split; [exact Hv|].
  intros user Hwho Hbanned.
  destruct (Hm' user Hwho) as [Hm1 _].
  destruct (Ha' user Hwho) as [Ha1 _].
  destruct (Hv' user Hwho) as [Hv1 _].
  auto.
Qed.

Lemma gates_check_credential_then_ban_then_role_witness :
  requireModerator sample_verify (Some "Bearer tok4") db0
  = Respond 403 "Account banned"
  ∧ requireAdmin sample_verify (Some "Bearer tok4") db0
    = Respond 403 "Account banned"
  ∧ requireAgeVerification sample_verify (Some "Bearer tok4") db0
    = Respond 403 "Account banned".
Proof.
  destruct (gates_check_credential_then_ban_then_role
              sample_verify (Some "Bearer tok4") db0) as (_ & _ & _ & Hbanned).
  apply (Hbanned (a_user 4 "root" "admin" true)); reflexivity.
Defined.

(** ** Deleting a comment *)

Lemma filter_keeps_all {A} (P : A → Prop) `{!∀ x, Decision (P x)} (l : list A) :
  Forall P l → filter P l = l.
Proof.
  induction 1 as [|x l Hx _ IH]; [done|].
  by rewrite filter_cons_True, IH.
Qed.

Lemma key_inj_NoDup {R} (key : R → Z) (l : list R) (x y : R) :
  NoDup (key <$> l) → x ∈ l → y ∈ l → key y = key x → y = x.
Proof.
  intros Hnd Hx Hy Hk.
  assert (y ∈ filter (λ z, key z = key x) l) as Hin
    by by apply list_elem_of_filter.
  rewrite filter_key_NoDup in Hin by done.
  by apply list_elem_of_singleton in Hin.
Qed.

Lemma deleteComment_stranger db (C : Comment) (U : Z) :
  NoDup (cm_id <$> comments db) → C ∈ comments db → cm_userId C ≠ U →
  deleteComment (cm_id C) U db = (Ok (), db).
Proof.
  intros Hnd HC HU. unfold deleteComment.
  assert (Forall (λ c, ¬ (cm_id c = cm_id C ∧ cm_userId c = U)) (comments db))
    as Hkeep.
  { apply Forall_forall. intros c Hc [Hid Hu].
    apply (key_inj_NoDup cm_id _ _ _ Hnd HC Hc) in Hid. by subst. }
  assert (filter (λ c, cm_id c = cm_id C ∧ cm_userId c = U) (comments db) = [])
    as ->.
  { destruct (filter _ _) as [|c l] eqn:E; [done|].
    assert (c ∈ filter (λ c, cm_id c = cm_id C ∧ cm_userId c = U) (comments db))
      as Hc by (rewrite E; left).
    apply list_elem_of_filter in Hc as [Hc Hin].
    eapply Forall_forall in Hkeep; [|done]. contradiction. }
  rewrite (filter_keeps_all _ _ Hkeep).
  rewrite filter_keeps_all.
  - by destruct db.
  - apply Forall_forall. intros r _. destruct (rp_commentId r); simpl; [|tauto].
    apply not_elem_of_nil.
Qed.

Lemma deleteComment_author db (C : Comment) :
  NoDup (cm_id <$> comments db) → C ∈ comments db →
  result (deleteComment (cm_id C) (cm_userId C)) db = Ok ()
  ∧ ∀ c, c ∈ comments (exec (deleteComment (cm_id C) (cm_userId C)) db)
         ↔ c ∈ comments db ∧ c ≠ C.
Proof.
  intros Hnd HC. split; [done|]. intros c. unfold exec, deleteComment. simpl.
  rewrite list_elem_of_filter. split.
  - intros [Hne Hc]. split; [done|]. intros ->. by apply Hne.
  - intros [Hc Hne]. split; [|done]. intros [Hid _].
    by apply (key_inj_NoDup cm_id _ _ _ Hnd HC Hc) in Hid.
Qed.

Lemma string_key_inj_NoDup (l : list StringUserId.Comment) x y :
  NoDup (StringUserId.cm_id <$> l) → x ∈ l → y ∈ l →
  StringUserId.cm_id y = StringUserId.cm_id x → y = x.
Proof. apply (key_inj_NoDup StringUserId.cm_id). Qed.

(** C10. For a comment C and a user U other than its author,
    [deleteComment(C.id, U)] completes without an error and changes
    nothing: the delete is conditioned on the caller being the author.
    Called by the author, it removes C and no other comment.  Both
    revisions of the method behave so. *)
Theorem deleteComment_is_conditioned_on_the_author
    (db : Db) (C : Comment) (U : Z)
    (table : list StringUserId.Comment) (C' : StringUserId.Comment) (U' : string) :
  NoDup (cm_id <$> comments db) → C ∈ comments db → cm_userId C ≠ U →
  NoDup (StringUserId.cm_id <$> table) → C' ∈ table →
  StringUserId.cm_userId C' ≠ U' →
  deleteComment_contract db C U
  ∧ StringUserId.deleteComment_contract table C' U'.
Proof.
  intros Hnd HC HU Hnd' HC' HU'. split.
  - split; [by apply deleteComment_stranger|]. by apply deleteComment_author.
  - unfold StringUserId.deleteComment_contract, StringUserId.deleteComment.
    split.
    + f_equal. apply filter_keeps_all, Forall_forall. intros c Hc [Hid Hu].
      apply (string_key_inj_NoDup _ _ _ Hnd' HC' Hc) in Hid. by subst.
    + eexists. split; [reflexivity|]. intros c.
      rewrite list_elem_of_filter. split.
      * intros [Hne Hc]. split; [done|]. intros ->. by apply Hne.
      * intros [Hc Hne]. split; [|done]. intros [Hid _].
        by apply (string_key_inj_NoDup _ _ _ Hnd' HC' Hc) in Hid.
Qed.

Lemma deleteComment_is_conditioned_on_the_author_witness :
  deleteComment_contract db0
    {| cm_id := 1; cm_content := "nice"; cm_userId := 2; cm_fanworkId := 1;
       cm_createdAt := Some 12; cm_updatedAt := Some 12 |} 1
  ∧ StringUserId.deleteComment_contract StringUserId.sample_comments
      {| StringUserId.cm_id := 1; StringUserId.cm_content := "nice";
         StringUserId.cm_userId := "u2"; StringUserId.cm_fanworkId := 1;
         StringUserId.cm_createdAt := Some 12;
         StringUserId.cm_updatedAt := Some 12 |} "u1".
Proof.
  apply deleteComment_is_conditioned_on_the_author.
  - by_compute.
  - simpl. left.
  - simpl. lia.
  - by_compute.
  - unfold StringUserId.sample_comments. left.
  - simpl. discriminate.
Defined.

(** ** Listing *)

Lemma filter_none {A} (P : A → Prop) `{!∀ x, Decision (P x)} (l : list A) :
  (∀ x, x ∈ l → ¬ P x) → filter P l = [].
Proof.
  induction l as [|x l IH]; intros Hl; [done|].
  rewrite filter_cons_False by (apply Hl; left).
  apply IH. intros y Hy. apply Hl. by right.
Qed.

(** What a statement with clauses that the store accepts returns. *)
Lemma sql_limit_offset_Ok limit offset l db :
  from_option int8 True limit → from_option int8 True offset →
  from_option (λ n, 0 ≤ n) True offset →
  sql_limit_offset limit offset l db
  = (Ok (from_option (λ n, take (Z.to_nat n)) id limit
           (from_option (λ n, drop (Z.to_nat n)) id offset l)), db).
Proof.
  intros Hl Ho Hpos. unfold sql_limit_offset.
  rewrite (filter_none (λ v, ¬ int8 v)).
  2:{ intros v Hv. destruct limit, offset; simpl in *;
        repeat (apply elem_of_cons in Hv as [->|Hv]); try tauto;
        by apply not_elem_of_nil in Hv. }
  destruct limit, offset; simpl in *;
    rewrite ?bool_decide_false by lia; done.
Qed.

(** Neither revision of [getFanworks] reads [filters.tags]. *)
Lemma getFanworks_never_reads_tags scan tags filters :
  getFanworks scan (Some (with_tags tags filters))
  = getFanworks scan (Some filters)
  ∧ StringUserId.getFanworks scan (Some (with_tags tags filters))
    = StringUserId.getFanworks scan (Some filters).
Proof. split; reflexivity. Qed.

Lemma insert_desc_elem x l y : y ∈ insert_desc x l ↔ y = x ∨ y ∈ l.
Proof.
  induction l as [|z l IH]; simpl.
  - by rewrite list_elem_of_singleton, elem_of_nil; tauto.
  - destruct (created_after z x); rewrite !elem_of_cons, ?IH; tauto.
Qed.

Lemma order_desc_elem l y : y ∈ order_desc l ↔ y ∈ l.
Proof.
  induction l as [|x l IH]; [done|].
  unfold order_desc in *. cbn [foldr].
  by rewrite insert_desc_elem, IH, elem_of_cons.
Qed.



Lemma foldl_sql_and_atoms (g : list SqlAtom) (atoms : list SqlAtom) :
  foldl sql_and [g] (sql_atom <$> atoms) = [g ++ atoms].
Proof.
  revert g. induction atoms as [|a atoms IH]; intros g; simpl.
  - by rewrite app_nil_r.
  - rewrite IH. by rewrite <- app_assoc.
Qed.

Lemma and_atoms_holds atoms c f :
  and_ (sql_atom <$> atoms) = Some c →
  sql_holds c f = forallb (λ a : SqlAtom, a f) atoms.
Proof.
  destruct atoms as [|a [|b atoms]]; cbn [and_ fmap list_fmap]; intros [= <-].
  - unfold sql_atom, sql_holds. simpl. by rewrite orb_false_r.
  - unfold sql_paren. unfold sql_atom at 1. unfold sql_holds at 1. simpl.
    rewrite orb_false_r, andb_true_r.
    change ([a]) with ([a] : list SqlAtom).
    unfold sql_atom at 1.
    change (sql_and [[a]] [[b]]) with [[a; b]].
    rewrite foldl_sql_and_atoms. unfold sql_holds. simpl.
    by rewrite orb_false_r.
Qed.

Lemma push_if_atoms {A} (o : option A) (mk : A → SqlAtom) atoms :
  push_if o (λ a, sql_atom (mk a)) (sql_atom <$> atoms)
  = sql_atom <$> push_atom o mk atoms.
Proof. destruct o; simpl; [|done]. by rewrite fmap_app. Qed.

Lemma where_atoms atoms rows f :
  f ∈ where_ (and_ (sql_atom <$> atoms)) rows
  ↔ f ∈ rows ∧ Forall (λ a : SqlAtom, a f = true) atoms.
Proof.
  unfold where_. destruct (and_ _) as [c|] eqn:E.
  - rewrite list_elem_of_filter, (and_atoms_holds _ _ _ E), forallb_True.
    split.
    + intros [H H']. split; [done|]. eapply Forall_impl; [exact H|].
      simpl. intros a. by rewrite Is_true_true.
    + intros [H H']. split; [|done]. eapply Forall_impl; [exact H'|].
      simpl. intros a. by rewrite Is_true_true.
  - destruct atoms as [|a [|b atoms]]; try done.
    split; [|tauto]. intros. split; [done|constructor].
Qed.

Lemma push_atom_Forall {A} (o : option A) (mk : A → SqlAtom) atoms f :
  Forall (λ a : SqlAtom, a f = true) (push_atom o mk atoms)
  ↔ Forall (λ a : SqlAtom, a f = true) atoms ∧ ∀ a, o = Some a → mk a f = true.
Proof.
  destruct o as [a|]; simpl.
  - rewrite Forall_app, Forall_singleton. split; intros [? H]; (split; [done|]).
    + by intros ? [= <-].
    + by apply H.
  - split; [|tauto]. intros. split; [done|]. by intros ? [=].
Qed.

Lemma one_of_column (dimension : option (list string)) (column : Fanwork → string) f :
  one_of dimension (λ v, column f = v)
  ↔ ∀ l, nonempty_list dimension = Some l → bool_decide (column f ∈ l) = true.
Proof.
  unfold one_of. split; intros H l Hl.
  - destruct (H l Hl) as (v & Hv & <-). by apply bool_decide_eq_true.
  - specialize (H l Hl). apply bool_decide_eq_true in H. eauto.
Qed.

Lemma search_holds pattern f :
  sql_holds (sql_or (title_ilike pattern) (description_ilike pattern)) f = true
  ↔ ilike (fw_title f) pattern = true
    ∨ ∃ d, fw_description f = Some d ∧ ilike d pattern = true.
Proof.
  unfold sql_or, title_ilike, description_ilike, sql_atom, sql_holds. simpl.
  rewrite !orb_false_r, !andb_true_r, orb_true_iff.
  destruct (fw_description f) as [d|]; simpl.
  - split; (intros [H|H]; [by left|right]); [by exists d|].
    by destruct H as (? & [= <-] & ?).
  - split; (intros [H|H]; [by left|]); [done|].
    by destruct H as (? & [=] & _).
Qed.

Lemma StringUserId_getFanworks_lists_the_matches
    (scan : Scan Fanwork) (filters : Filters) (db : Db) :
  (∀ s, nonempty_string (f_authorId filters) = Some s →
        ∃ n, StringUserId.int4_in s = Some n ∧ -2147483648 ≤ n ≤ 2147483647) →
  0 ≤ default 0 (f_offset filters) → int8 (default 0 (f_offset filters)) →
  0 ≤ default 0 (f_limit filters) → int8 (default 0 (f_limit filters)) →
  ∃ all,
    Sorted not_before all
    ∧ (∀ f, f ∈ all ↔ f ∈ fanworks db
                      ∧ matches StringUserId.int4_in db (with_tags None filters) f)
    ∧ StringUserId.getFanworks scan (Some filters) db
      = (Ok (let page := drop (Z.to_nat (default 0 (f_offset filters))) all in
             match nonzero (f_limit filters) with
             | Some n => take (Z.to_nat n) page
             | None => page
             end), db).
Proof.
  intros Hauthor Hoffset Hoffset8 Hlimit Hlimit8.
  unfold StringUserId.getFanworks, mbind, M_bind. cbn [mbind option_bind].
  set (author := nonempty_string (f_authorId filters)).
  assert (∃ o, (match author with
                | Some s => Some <$> int4_param (StringUserId.int4_in s)
                | None => mret None
                end) db = (Ok o, db)
               ∧ ∀ n, o = Some n ↔ ∃ s, author = Some s ∧ StringUserId.int4_in s = Some n)
    as (o & -> & Ho).
  { destruct author as [s|] eqn:E.
    - destruct (Hauthor s) as (n & Hn & Hrange); [done|].
      exists (Some n). unfold fmap, M_fmap, int4_param. rewrite Hn.
      rewrite bool_decide_true by done. split; [done|].
      intros n'. split.
      + intros [= <-]. eauto.
      + intros (s' & [= <-] & Hn'). congruence.
    - exists None. split; [done|]. intros n. split; [done|].
      by intros (? & [=] & _). }
  exists (order_desc (scan
    (where_ (and_ (sql_atom <$>
       push_atom o (λ n f, bool_decide (fw_authorId f = n))
         (push_atom (nonempty_string (f_search filters))
            (λ search, sql_holds (sql_or (title_ilike ("%" +:+ search +:+ "%"))
                                    (description_ilike ("%" +:+ search +:+ "%"))))
            (push_atom (nonempty_list (f_rating filters))
               (λ l f, bool_decide (fw_rating f ∈ l))
               (push_atom (nonempty_list (f_type filters))
                  (λ l f, bool_decide (fw_type f ∈ l)) [])))))
       (fanworks db)))).
  split; [apply order_desc_sorted|]. split.
  - intros f.
    rewrite order_desc_elem, (scan_perm scan), where_atoms, !push_atom_Forall.
    unfold matches. rewrite !one_of_column.
    cbn [f_type f_rating f_tags f_search f_authorId with_tags].
    split.
    + intros (Hf & (((_ & Ht) & Hr) & Hs) & Ha). split; [done|].
      split; [done|]. split; [done|]. split; [by intros ? [=]|]. split.
      * intros search Hsearch. apply search_holds. by apply Hs.
      * intros s Hs'. destruct (Hauthor s Hs') as (n & Hn & _).
        assert (o = Some n) as Hon by (apply Ho; eauto).
        specialize (Ha n Hon). apply bool_decide_eq_true in Ha. congruence.
    + intros (Hf & Ht & Hr & _ & Hs & Ha). split; [done|].
      split; [split; [split; [split; [constructor|done]|done]|]|].
      * intros search Hsearch. apply search_holds. by apply Hs.
      * intros n Hon. apply Ho in Hon as (s & Hs' & Hn).
        apply bool_decide_eq_true. specialize (Ha s Hs'). congruence.
  - rewrite <- !push_if_atoms.
    rewrite sql_limit_offset_Ok.
    + unfold limit_clause, offset_clause, nonzero.
      destruct (f_offset filters) as [off|];
        destruct (f_limit filters) as [lim|];
        simpl in *; repeat (case_bool_decide; simpl in * ); try lia; subst;
        done.
    + unfold limit_clause, nonzero. destruct (f_limit filters) as [lim|];
        simpl in *; repeat (case_bool_decide; simpl in * ); done.
    + unfold offset_clause, nonzero. destruct (f_offset filters) as [off|];
        simpl in *; repeat (case_bool_decide; simpl in * ); done.
    + unfold offset_clause, nonzero. destruct (f_offset filters) as [off|];
        simpl in *; repeat (case_bool_decide; simpl in * ); done.
Qed.

(** The first revision, when no search text is given: the same, with the
    page cut to 20 rows unless a limit is given. *)
Lemma getFanworks_lists_the_matches_without_search
    (scan : Scan Fanwork) (filters : Filters) (db : Db) :
  nonempty_string (f_search filters) = None →
  (∀ s, nonempty_string (f_authorId filters) = Some s →
        ∃ n, parseInt s = Some n ∧ -2147483648 ≤ n ≤ 2147483647) →
  0 ≤ default 0 (f_offset filters) → int8 (default 0 (f_offset filters)) →
  0 ≤ default 0 (f_limit filters) → int8 (default 0 (f_limit filters)) →
  ∃ all,
    Sorted not_before all
    ∧ (∀ f, f ∈ all ↔ f ∈ fanworks db
                      ∧ matches parseInt db (with_tags None filters) f)
    ∧ getFanworks scan (Some filters) db
      = (Ok (take (Z.to_nat (default 20 (nonzero (f_limit filters))))
               (drop (Z.to_nat (default 0 (f_offset filters))) all)), db).
Proof.
  intros Hsearch Hauthor Hoffset Hoffset8 Hlimit Hlimit8.
  unfold getFanworks, mbind, M_bind. cbn [mbind option_bind].
  rewrite Hsearch. cbn [push_if].
  set (author := nonempty_string (f_authorId filters)).
  assert (∃ o, (match author with
                | Some s => Some <$> int4_param (parseInt s)
                | None => mret None
                end) db = (Ok o, db)
               ∧ ∀ n, o = Some n ↔ ∃ s, author = Some s ∧ parseInt s = Some n)
    as (o & -> & Ho).
  { destruct author as [s|] eqn:E.
    - destruct (Hauthor s) as (n & Hn & Hrange); [done|].
      exists (Some n). unfold fmap, M_fmap, int4_param. rewrite Hn.
      rewrite bool_decide_true by done. split; [done|].
      intros n'. split.
      + intros [= <-]. eauto.
      + intros (s' & [= <-] & Hn'). congruence.
    - exists None. split; [done|]. intros n. split; [done|].
      by intros (? & [=] & _). }
  exists (order_desc (scan
    (where_ (and_ (sql_atom <$>
       push_atom o (λ n f, bool_decide (fw_authorId f = n))
         (push_atom (nonempty_list (f_rating filters))
            (λ l f, bool_decide (fw_rating f ∈ l))
            (push_atom (nonempty_list (f_type filters))
               (λ l f, bool_decide (fw_type f ∈ l)) []))))
       (fanworks db)))).
  split; [apply order_desc_sorted|]. split.
  - intros f.
    rewrite order_desc_elem, (scan_perm scan), where_atoms, !push_atom_Forall.
    unfold matches. rewrite !one_of_column.
    cbn [f_type f_rating f_tags f_search f_authorId with_tags].
    rewrite Hsearch. split.
    + intros (Hf & ((_ & Ht) & Hr) & Ha). split; [done|].
      split; [done|]. split; [done|]. split; [by intros ? [=]|].
      split; [by intros ? [=]|].
      intros s Hs'. destruct (Hauthor s Hs') as (n & Hn & _).
      assert (o = Some n) as Hon by (apply Ho; eauto).
      specialize (Ha n Hon). apply bool_decide_eq_true in Ha. congruence.
    + intros (Hf & Ht & Hr & _ & _ & Ha). split; [done|].
      split; [split; [split; [constructor|done]|done]|].
      intros n Hon. apply Ho in Hon as (s & Hs' & Hn).
      apply bool_decide_eq_true. specialize (Ha s Hs'). congruence.
  - rewrite <- !push_if_atoms.
    rewrite sql_limit_offset_Ok.
    + unfold limit_clause, offset_clause, nonzero.
      destruct (f_offset filters) as [off|];
        destruct (f_limit filters) as [lim|];
        simpl in *; repeat (case_bool_decide; simpl in * ); try lia; subst;
        done.
    + unfold limit_clause, nonzero. destruct (f_limit filters) as [lim|];
        simpl in *; repeat (case_bool_decide; simpl in * ); done.
    + unfold offset_clause, nonzero. destruct (f_offset filters) as [off|];
        simpl in *; repeat (case_bool_decide; simpl in * ); done.
    + unfold offset_clause, nonzero. destruct (f_offset filters) as [off|];
        simpl in *; repeat (case_bool_decide; simpl in * ); done.
Qed.

(** C6, the code at a failing input.  In the sample store fanwork 2
    carries the tag "rick" and fanwork 1 carries no tag.  Asked for the
    fanworks tagged "rick", both revisions of [getFanworks], and the list
    route, return both fanworks: fanwork 1 is listed although it does not
    match the filters. *)
Theorem getFanworks_ignores_the_tags_filter (scan : Scan Fanwork) :
  let tagged := with_tags (Some ["rick"]) no_filters in
  let f1 := a_fanwork 1 "T" "artwork" 1 true 10 in
  let f2 := a_fanwork 2 "Portal" "fanfiction" 1 false 20 in
  fanworks db0 = [f1; f2]
  ∧ matches parseInt db0 tagged f2 ∧ ¬ matches parseInt db0 tagged f1
  ∧ result (getFanworks scan (Some tagged)) db0 = Ok [f2; f1]
  ∧ result (StringUserId.getFanworks scan (Some tagged)) db0 = Ok [f2; f1]
  ∧ api_fanworks scan None
      {| q_type := None; q_rating := None; q_tags := Some (One "rick");
         q_search := None; q_authorId := None; q_limit := None;
         q_offset := None |} db0
    = Json [f2; f1].
Proof.
  intros tagged f1 f2.
  unfold result. rewrite getFanworks_scan, StringUserId_getFanworks_scan,
    api_fanworks_scan by by_compute.
  split; [done|]. split; [|split].
  - unfold matches, one_of.
    split; [by intros ? [=]|]. split; [by intros ? [=]|].
    split; [|split; by intros ? [=]].
    intros values [= <-]. exists "rick". split; [left|].
    exists {| ft_id := 1; ft_fanworkId := 2; ft_tagId := 1 |},
      {| tag_id := 1; tag_name := "rick"; tag_createdAt := Some 1 |}.
    repeat split; simpl; left.
  - intros (_ & _ & Htags & _).
    destruct (Htags ["rick"] eq_refl) as (v & _ & ft & tg & Hft & _ & Hid & _).
    simpl in Hft. apply list_elem_of_singleton in Hft as ->. done.
  - vm_compute. repeat split.
Qed.

(** The first revision writes the search template without parentheses, so
    its [OR] escapes the conjunction: asked for artwork that mentions
    "portal", it also returns a story whose description does.  The
    revision that parenthesises the template returns the drawing only. *)
Lemma search_escapes_the_other_filters (scan : Scan Fanwork) :
  let wanted :=
    {| f_type := Some ["artwork"]; f_rating := None; f_tags := None;
       f_search := Some "portal"; f_authorId := None; f_limit := None;
       f_offset := None |} in
  fanworks db1 = [story; drawing]
  ∧ matches parseInt db1 wanted drawing ∧ ¬ matches parseInt db1 wanted story
  ∧ result (getFanworks scan (Some wanted)) db1 = Ok [drawing; story]
  ∧ result (StringUserId.getFanworks scan (Some wanted)) db1 = Ok [drawing].
Proof.
  intros wanted.
  unfold result. rewrite getFanworks_scan, StringUserId_getFanworks_scan
    by by_compute.
  split; [done|]. split; [|split].
  - unfold matches, one_of.
    split; [|split; [by intros ? [=]|split; [by intros ? [=]|split]]].
    + intros values [= <-]. exists "artwork". split; [left|done].
    + intros search [= <-]. by left.
    + by intros ? [=].
  - intros (Htype & _).
    destruct (Htype ["artwork"] eq_refl) as (v & Hv & Heq).
    apply list_elem_of_singleton in Hv as ->. done.
  - vm_compute. repeat split.
Qed.

(** * Further properties *)

(** ** Values of a [varchar] column *)

Lemma varchar_fits n s : (String.length s ≤ n)%nat → varchar n s = Some s.
Proof. intros Hlen. unfold varchar. by rewrite decide_True. Qed.

Lemma length_string_of_list_ascii (l : list ascii) :
  String.length (String.string_of_list_ascii l) = length l.
Proof. induction l as [|c l IH]; simpl; congruence. Qed.

Lemma length_chars s : length (chars s) = String.length s.
Proof. unfold chars. induction s as [|c s IH]; simpl; congruence. Qed.

(** What is stored fits the column, and is the value given or, for a
    longer one, its first [n] characters. *)
Lemma varchar_stored n s stored :
  varchar n s = Some stored →
  (String.length stored ≤ n)%nat
  ∧ (stored = s
     ∨ ((n < String.length s)%nat
        ∧ stored = String.string_of_list_ascii (take n (chars s)))).
Proof.
  unfold varchar. case_decide as Hlen.
  - intros [= <-]. auto.
  - destruct (forallb _ _); [|done]. intros [= <-].
    rewrite length_string_of_list_ascii, length_take. split; [lia|].
    right. split; [lia|done].
Qed.

(** ** Toggles, reads and counters together *)

Lemma is_member_has_pair t U I db :
  int4 U → int4 I →
  ∃ b, is_member t U I db = (Ok b, db) ∧ (b = true ↔ has_pair t U I db).
Proof.
  intros HU HI.
  destruct t; [by apply isLiked_has_pair | by apply isBookmarked_has_pair].
Qed.

(** A toggle that answers true has left the row behind, whatever the
    store looked like. *)
Lemma toggle_true_has_pair t U I db :
  result (toggle t U I) db = Ok true → has_pair t U I (exec (toggle t U I) db).
Proof.
  unfold result, exec. rewrite toggle_unfold. case_decide; [|done].
  destruct (filter _ _) eqn:E; [|done].
  unfold insert_pair. repeat case_decide; simpl; try done. intros _.
  eexists. rewrite pair_rows_set. split.
  - apply elem_of_app. right. apply list_elem_of_singleton. reflexivity.
  - by split.
Qed.

Lemma toggle_false_had_pair t U I db :
  result (toggle t U I) db = Ok false → has_pair t U I db.
Proof.
  unfold result. rewrite toggle_unfold, has_pair_filter.
  case_decide; [|done].
  destruct (filter _ _) eqn:E; [|done].
  unfold insert_pair. repeat case_decide; simpl; done.
Qed.

(** X1. The value a toggle returns is the value the matching read
    ([isLiked] after [toggleLike], [isBookmarked] after [toggleBookmark])
    returns right after it. *)
Theorem toggle_answer_is_what_the_read_sees (t : PairTable) (U I : Z) (db : Db) (b : bool) :
  result (toggle t U I) db = Ok b →
  result (is_member t U I) (exec (toggle t U I) db) = Ok b.
Proof.
  intros Hres.
  destruct (toggle_Ok_int4 _ _ _ _ _ Hres) as [HU HI].
  destruct (is_member_has_pair t U I (exec (toggle t U I) db))
    as (b' & Hb' & Hiff); [done..|].
  unfold result at 1. rewrite Hb'. simpl. f_equal.
  destruct b.
  - by apply Hiff, toggle_true_has_pair.
  - destruct b'; [|done]. exfalso.
    destruct (toggle_step_present t U I db) as [_ Hgone]; [done..| |].
    + by apply toggle_false_had_pair.
    + apply Hgone. by apply Hiff.
Qed.

Lemma toggle_answer_is_what_the_read_sees_witness :
  result (is_member likes_t 2 1) (exec (toggle likes_t 2 1) db0) = Ok false
  ∧ result (is_member bookmarks_t 2 1) (exec (toggle bookmarks_t 2 1) db0) = Ok true.
Proof.
  split; apply toggle_answer_is_what_the_read_sees; reflexivity.
Defined.

Lemma count_of_rows t I db c :
  result (getFanworkCounts I) db = Ok c →
  count_of t c
  = counted (length (filter (λ r, pr_fanworkId r = I) (pair_rows t db))).
Proof.
  unfold result. destruct (decide (int4 I)) as [HI|HI].
  - rewrite getFanworkCounts_counted by done. simpl.
    intros [= <-]. by destruct t.
  - by rewrite getFanworkCounts_refused.
Qed.

Lemma toggle_comments t U I db : comments (exec (toggle t U I) db) = comments db.
Proof.
  unfold exec. rewrite toggle_unfold. case_decide; [|done].
  destruct (filter _ _); [|by destruct t].
  unfold insert_pair. repeat case_decide; by destruct t.
Qed.

Lemma the_other_ne t : t ≠ the_other t.
Proof. by destruct t. Qed.

(** Rows of the fanwork, split into those of the pair and the others. *)
Lemma filter_fanwork_split U I (l : list PairRow) :
  length (filter (λ r, pr_fanworkId r = I) l)
  = (length (filter (λ r, pr_fanworkId r = I) (filter (λ r, ¬ pair_is U I r) l))
     + length (filter (pair_is U I) l))%nat.
Proof.
  induction l as [|r l IH]; [done|].
  rewrite (filter_cons (pair_is U I)), (filter_cons (λ r, ¬ pair_is U I r)).
  destruct (decide (pair_is U I r)) as [Hr|Hr].
  - rewrite decide_False by tauto.
    rewrite filter_cons_True by apply Hr. simpl. lia.
  - rewrite decide_True by done. rewrite !filter_cons.
    case_decide; simpl; lia.
Qed.

(** X2. A toggle moves the counter that [getFanworkCounts] reports for
    its table and its fanwork.  Before the toggle the counter is the text
    of the number [n] of rows the table holds for the fanwork; after a
    toggle that answers true it is the text of [n + 1], after one that
    answers false the text of [n] less the number of rows the pair had.
    The comment counter and the counter of the other table stay. *)
Theorem toggle_moves_its_counter (t : PairTable) (U I : Z) (db : Db) (b : bool) :
  result (toggle t U I) db = Ok b →
  let n := length (filter (λ r, pr_fanworkId r = I) (pair_rows t db)) in
  ∃ c c',
    result (getFanworkCounts I) db = Ok c
    ∧ result (getFanworkCounts I) (exec (toggle t U I) db) = Ok c'
    ∧ count_of t c = counted n
    ∧ (pair_count t U I db ≤ n)%nat
    ∧ count_of t c' =
        counted (if b then n + 1 else n - pair_count t U I db)%nat
    ∧ count_of (the_other t) c' = count_of (the_other t) c
    ∧ c_comments c' = c_comments c.
Proof.
  intros Hres n.
  destruct (toggle_Ok_int4 _ _ _ _ _ Hres) as [HU HI].
  pose proof (getFanworkCounts_counted I db HI) as Ec.
  pose proof (getFanworkCounts_counted I (exec (toggle t U I) db) HI) as Ec'.
  eexists _, _. unfold result at 1 2. rewrite Ec, Ec'. cbn [fst].
  split; [done|]. split; [done|].
  assert (∀ t' d, count_of t'
      {| c_likes :=
           counted (length (filter (λ r, pr_fanworkId r = I) (likes d)));
         c_comments :=
           counted (length (filter (λ c, cm_fanworkId c = I) (comments d)));
         c_bookmarks :=
           counted (length (filter (λ r, pr_fanworkId r = I) (bookmarks d))) |}
    = counted (length (filter (λ r, pr_fanworkId r = I) (pair_rows t' d))))
    as Hcount by (by intros []).
  rewrite !Hcount. split; [done|].
  assert ((pair_count t U I db ≤ n)%nat
          ∧ length (filter (λ r, pr_fanworkId r = I)
                      (pair_rows t (exec (toggle t U I) db)))
            = (if b then n + 1 else n - pair_count t U I db)%nat) as [Hle ->].
  { subst n. rewrite (filter_fanwork_split U I (pair_rows t db)).
    fold (pair_count t U I db). split; [lia|].
    revert Hres. unfold result, exec, pair_count.
    rewrite toggle_in_range by done.
    destruct (filter (pair_is U I) _) eqn:E.
    + unfold insert_pair. repeat case_decide; simpl; try done.
      intros [= <-]. rewrite pair_rows_set, pair_rows_set_seq.
      rewrite filter_app, length_app, filter_cons_True by done.
      rewrite (filter_fanwork_split U I (pair_rows t db)), E. simpl. lia.
    + simpl. intros [= <-]. rewrite pair_rows_set. cbn [length]. lia. }
  split; [done|]. split; [done|]. split.
  - by rewrite toggle_other_table by apply the_other_ne.
  - simpl. by rewrite toggle_comments.
Qed.

Lemma toggle_moves_its_counter_witness :
  ∃ c c',
    result (getFanworkCounts 1) db0 = Ok c
    ∧ result (getFanworkCounts 1) (exec (toggle likes_t 2 1) db0) = Ok c'
    ∧ count_of likes_t c = counted 1
    ∧ (pair_count likes_t 2 1 db0 ≤ 1)%nat
    ∧ count_of likes_t c' = counted (1 - pair_count likes_t 2 1 db0)%nat
    ∧ count_of (the_other likes_t) c' = count_of (the_other likes_t) c
    ∧ c_comments c' = c_comments c.
Proof.
  apply (toggle_moves_its_counter likes_t 2 1 db0 false). reflexivity.
Defined.

Lemma filter_other_fanwork U I J (l : list PairRow) :
  J ≠ I →
  filter (λ r, pr_fanworkId r = J) (filter (λ r, ¬ pair_is U I r) l)
  = filter (λ r, pr_fanworkId r = J) l.
Proof.
  intros Hne. induction l as [|r l IH]; [done|].
  rewrite (filter_cons (λ r, ¬ pair_is U I r)).
  destruct (decide (¬ pair_is U I r)) as [Hn|Hy].
  - by rewrite !filter_cons, IH.
  - rewrite IH, filter_cons_False; [done|].
    apply dec_stable in Hy. destruct Hy as [_ Hy]. congruence.
Qed.

(** X3. A toggle on the pair (U, I), whether it goes through or is
    rejected, is invisible to every other read: the counters of any other
    fanwork, and the like and bookmark state of any other pair, are what
    they were. *)
Theorem toggle_touches_one_pair_only (t : PairTable) (U I : Z) (db : Db) :
  let db' := exec (toggle t U I) db in
  (∀ J, J ≠ I →
        result (getFanworkCounts J) db' = result (getFanworkCounts J) db)
  ∧ (∀ t' U' I', ¬ (t' = t ∧ U' = U ∧ I' = I) →
        result (is_member t' U' I') db' = result (is_member t' U' I') db).
Proof.
  intros db'. subst db'.
  assert (∀ t' J, J ≠ I →
    filter (λ r, pr_fanworkId r = J) (pair_rows t' (exec (toggle t U I) db))
    = filter (λ r, pr_fanworkId r = J) (pair_rows t' db)) as Hcount.
  { intros t' J HJ. destruct (decide (t = t')) as [<-|Hne].
    - destruct (toggle_rows t U I db) as [-> | [-> | (Hno & r & Hr & ->)]].
      + by apply filter_other_fanwork.
      + done.
      + rewrite filter_app, filter_cons_False, filter_nil, app_nil_r; [done|].
        destruct Hr as [_ Hr]. congruence.
    - by rewrite toggle_other_table. }
  assert (∀ t' U' I', ¬ (t' = t ∧ U' = U ∧ I' = I) →
    filter (pair_is U' I') (pair_rows t' (exec (toggle t U I) db))
    = filter (pair_is U' I') (pair_rows t' db)) as Hpair.
  { intros t' U' I' HJ. destruct (decide (t = t')) as [<-|Hne].
    - assert (¬ (U = U' ∧ I = I')) as Hne by (intros [-> ->]; by apply HJ).
      destruct (toggle_rows t U I db) as [-> | [-> | (Hno & r & Hr & ->)]].
      + by apply filter_other_pair.
      + done.
      + rewrite filter_app, filter_cons_False, filter_nil, app_nil_r; [done|].
        intros Hr'. apply Hne. by eapply pair_is_inj.
    - by rewrite toggle_other_table. }
  split.
  - intros J HJ. unfold result. destruct (decide (int4 J)) as [HJ4|HJ4].
    + rewrite !getFanworkCounts_counted by done. cbn [fst].
      pose proof (Hcount likes_t J HJ) as H1.
      pose proof (Hcount bookmarks_t J HJ) as H2. cbn [pair_rows] in H1, H2.
      by rewrite H1, H2, toggle_comments.
    + by rewrite !getFanworkCounts_refused.
  - intros t' U' I' HJ. specialize (Hpair t' U' I' HJ).
    unfold result. destruct t'; cbn [is_member];
      unfold isLiked, isBookmarked, mbind, M_bind, fmap, M_fmap, select_pairs;
      (case_decide; [|done]); cbn [fst]; by rewrite Hpair.
Qed.

(** ** Moderation: undoing, and what the gates make of it *)

Lemma Db_eta db :
  {| users := users db; fanworks := fanworks db; tags := tags db;
     fanworkTags := fanworkTags db; likes := likes db;
     comments := comments db; bookmarks := bookmarks db;
     reports := reports db; likes_id_seq := likes_id_seq db;
     bookmarks_id_seq := bookmarks_id_seq db; db_now := db_now db |} = db.
Proof. by destruct db. Qed.

Lemma update_twice {R} (key : R → Z) (k : Z) (g h : R → R) (l : list R) :
  (∀ r, key (g r) = key r) →
  ((λ r, if decide (key r = k) then h r else r)
     <$> ((λ r, if decide (key r = k) then g r else r) <$> l))
  = (λ r, if decide (key r = k) then h (g r) else r) <$> l.
Proof.
  intros Hkey. rewrite <- list_fmap_compose. apply list_fmap_ext.
  intros _ r _. simpl. destruct (decide (key r = k)) as [Hr|Hr].
  - by rewrite Hkey, decide_True.
  - by rewrite decide_False.
Qed.

Lemma update_nothing {R} (key : R → Z) (k : Z) (g : R → R) (l : list R) :
  Forall (λ r, key r = k → g r = r) l →
  (λ r, if decide (key r = k) then g r else r) <$> l = l.
Proof.
  intros Hl. rewrite <- (list_fmap_id l) at 2. apply Forall_fmap_ext_1.
  eapply Forall_impl; [exact Hl|]. intros r Hr. simpl. case_decide; auto.
Qed.

Lemma unhide_hide data f :
  set_moderation false None None None (set_hide data f)
  = set_moderation false None None None f.
Proof. reflexivity. Qed.

Lemma unhide_never_moderated f :
  never_moderated f → set_moderation false None None None f = f.
Proof. destruct f. intros (? & ? & ? & ?). simpl in *. by subst. Qed.

(** X4. [unhideFanwork] wipes whatever [hideFanwork] wrote: unhiding
    after a hide leaves the store that unhiding alone would have left,
    whether or not the hide was accepted.  For a fanwork that had never
    been moderated, hiding and then unhiding gives back the store as it
    was. *)
Theorem unhide_undoes_hide (I : Z) (data : HideData) (db : Db) :
  exec (unhideFanwork I) (exec (hideFanwork I data) db)
    = exec (unhideFanwork I) db
  ∧ (Forall (λ f, fw_id f = I → never_moderated f) (fanworks db) →
     exec (unhideFanwork I) (exec (hideFanwork I data) db) = db).
Proof.
  assert (exec (unhideFanwork I) (exec (hideFanwork I data) db)
          = exec (unhideFanwork I) db) as Hsame.
  { unfold exec, hideFanwork, unhideFanwork. case_decide; [done|].
    cbn [snd fanworks set_fanworks]. unfold set_fanworks. simpl.
    f_equal. rewrite (update_twice fw_id) by done.
    apply list_fmap_ext. intros _ f _. by case_decide. }
  split; [done|]. intros Hnever. rewrite Hsame.
  unfold exec, unhideFanwork, set_fanworks. simpl.
  rewrite (update_nothing fw_id).
  - apply Db_eta.
  - eapply Forall_impl; [exact Hnever|]. intros f Hf Hid. simpl in *.
    by apply unhide_never_moderated, Hf.
Qed.

Lemma unhide_undoes_hide_witness :
  exec (unhideFanwork 2) (exec (hideFanwork 2 {| moderationReason := "spam"; moderatedBy := 3; moderatedAt := 50 |}) db0) = db0.
Proof.
  apply (unhide_undoes_hide 2 _ db0). by_compute.
Defined.

Lemma unban_ban data u : clear_ban (set_ban data u) = clear_ban u.
Proof. reflexivity. Qed.

Lemma unban_never_banned u : never_banned u → clear_ban u = u.
Proof. destruct u. intros (? & ? & ? & ?). simpl in *. by subst. Qed.

(** X5. [unbanUser] wipes whatever [banUser] wrote: unbanning after a ban
    leaves the store that unbanning alone would have left, whether or not
    the ban was accepted.  For a user who had never been banned, banning
    and then unbanning gives back the store as it was. *)
Theorem unban_undoes_ban (U : Z) (data : BanData) (db : Db) :
  exec (unbanUser U) (exec (banUser U data) db) = exec (unbanUser U) db
  ∧ (Forall (λ u, u_id u = U → never_banned u) (users db) →
     exec (unbanUser U) (exec (banUser U data) db) = db).
Proof.
  assert (exec (unbanUser U) (exec (banUser U data) db)
          = exec (unbanUser U) db) as Hsame.
  { unfold exec, banUser, unbanUser, update_user. case_decide; [done|].
    cbn [snd users set_users]. unfold set_users. simpl.
    f_equal. rewrite (update_twice u_id) by done.
    apply list_fmap_ext. intros _ f _. by case_decide. }
  split; [done|]. intros Hnever. rewrite Hsame.
  unfold exec, unbanUser, update_user, set_users. simpl.
  rewrite (update_nothing u_id).
  - apply Db_eta.
  - eapply Forall_impl; [exact Hnever|]. intros f Hf Hid. simpl in *.
    by apply unban_never_banned, Hf.
Qed.

Lemma unban_undoes_ban_witness :
  exec (unbanUser 2) (exec (banUser 2 {| banReason := "spam"; bannedBy := 3; bannedAt := 50 |}) db0) = db0.
Proof.
  apply (unban_undoes_ban 2 _ db0). by_compute.
Defined.

Lemma lookup_after_update (set : User → User) (U V : Z) (l : list User) :
  (∀ u, u_id (set u) = u_id u) →
  head (filter (λ u, u_id u = V)
          ((λ u, if decide (u_id u = U) then set u else u) <$> l))
  = (λ u, if decide (u_id u = U) then set u else u)
      <$> head (filter (λ u, u_id u = V) l).
Proof.
  intros Hid. induction l as [|u l IH]; [done|].
  rewrite fmap_cons, !filter_cons.
  assert (u_id (if decide (u_id u = U) then set u else u) = u_id u) as ->
    by (case_decide; auto).
  case_decide; [done|]. apply IH.
Qed.

Section Middlewares.

Variable verifyToken : string → option Z.
Variable authHeader : option string.

Lemma resolves_after_update (set : User → User) (U : Z) (db : Db) :
  (∀ u, u_id (set u) = u_id u) →
  (∀ u, u_isActive (set u) = u_isActive u) →
  resolves verifyToken authHeader
    (set_users ((λ u, if decide (u_id u = U) then set u else u) <$> users db) db)
  = (λ u, if decide (u_id u = U) then set u else u)
      <$> resolves verifyToken authHeader db.
Proof.
  intros Hid Hact. unfold resolves.
  destruct (bearer_token authHeader) as [token|]; [|done]. simpl.
  destruct (verifyToken token) as [V|]; [|done]. simpl.
  rewrite lookup_after_update by done.
  destruct (head _) as [u|]; [|done]. simpl.
  assert (u_isActive (if decide (u_id u = U) then set u else u) = u_isActive u) as ->
    by (case_decide; auto).
  by destruct (truthy _).
Qed.

(** What the four middlewares answer to a credential that resolves. *)
Lemma gates_of_resolved (db : Db) (u : User) :
  resolves verifyToken authHeader db = Some u →
  authenticateToken verifyToken authHeader db = Next (req_user u)
  ∧ optionalAuth verifyToken authHeader db = Some (req_user u)
  ∧ requireModerator verifyToken authHeader db =
      (if u_isBanned u then Respond 403 "Account banned"
       else if bool_decide (u_role u ≠ "moderator")
               && bool_decide (u_role u ≠ "admin")
       then Respond 403 "Moderator access required"
       else Next (req_user u))
  ∧ requireAdmin verifyToken authHeader db =
      (if u_isBanned u then Respond 403 "Account banned"
       else if bool_decide (u_role u ≠ "admin")
       then Respond 403 "Admin access required"
       else Next (req_user u))
  ∧ requireAgeVerification verifyToken authHeader db =
      (if u_isBanned u then Respond 403 "Account banned"
       else if negb (u_ageVerified u)
       then Respond 403 "Age verification required for 18+ content"
       else Next (req_user u)).
Proof.
  unfold resolves, authenticateToken, optionalAuth, requireModerator,
    requireAdmin, requireAgeVerification, result, getUserById. simpl.
  destruct (bearer_token authHeader) as [token|]; [|done]. simpl.
  destruct (verifyToken token) as [V|]; [|done]. simpl.
  destruct (head _) as [u'|]; [|done]. simpl.
  destruct (truthy (u_isActive u')); [|done]. simpl.
  by intros [= ->].
Qed.

(** What they answer to one that does not: all the same. *)
Lemma gates_of_unresolved (db : Db) :
  resolves verifyToken authHeader db = None →
  optionalAuth verifyToken authHeader db = None
  ∧ (∃ status message,
       authenticateToken verifyToken authHeader db = Respond status message)
  ∧ requireModerator verifyToken authHeader db
    = authenticateToken verifyToken authHeader db
  ∧ requireAdmin verifyToken authHeader db
    = authenticateToken verifyToken authHeader db
  ∧ requireAgeVerification verifyToken authHeader db
    = authenticateToken verifyToken authHeader db.
Proof.
  unfold resolves, authenticateToken, optionalAuth, requireModerator,
    requireAdmin, requireAgeVerification, result, getUserById. simpl.
  destruct (bearer_token authHeader) as [token|]; [|by eauto 10]. simpl.
  destruct (verifyToken token) as [V|]; [|by eauto 10]. simpl.
  destruct (head _) as [u'|]; [|by eauto 10]. simpl.
  destruct (truthy (u_isActive u')); [done|]. simpl. by eauto 10.
Qed.


(** X6. A ban acts at the three role gates and nowhere else.  Once
    [banUser] has been accepted for the user a credential resolves to,
    [requireModerator], [requireAdmin] and [requireAgeVerification]
    answer 403 [Account banned] to that credential, while
    [authenticateToken] and [optionalAuth] still let it through as the
    same user. *)
Theorem ban_closes_the_role_gates_only (db : Db) (u : User) (data : BanData)
    (r : option User) :
  resolves verifyToken authHeader db = Some u →
  result (banUser (u_id u) data) db = Ok r →
  let db' := exec (banUser (u_id u) data) db in
  requireModerator verifyToken authHeader db' = Respond 403 "Account banned"
  ∧ requireAdmin verifyToken authHeader db' = Respond 403 "Account banned"
  ∧ requireAgeVerification verifyToken authHeader db'
    = Respond 403 "Account banned"
  ∧ authenticateToken verifyToken authHeader db' = Next (req_user u)
  ∧ optionalAuth verifyToken authHeader db' = Some (req_user u).
Proof.
  intros Hu Hres db'.
  assert (resolves verifyToken authHeader db' = Some (set_ban data u)) as Hu'.
  { subst db'. revert Hres. unfold result, exec, banUser.
    case_decide; [done|]. intros _. cbn [snd].
    rewrite resolves_after_update by done. rewrite Hu. simpl.
    by rewrite decide_True. }
  destruct (gates_of_resolved db' _ Hu') as (Ha & Ho & Hm & Had & Hage).
  by rewrite Ha, Ho, Hm, Had, Hage.
Qed.



(** X9. [verifyUserAge] is what opens [requireAgeVerification]: after
    the call the gate lets the user through, unless banned, whatever
    it answered before; the other two gates answer as they did. *)
Theorem age_verification_opens_its_gate (db : Db) (u : User) :
  resolves verifyToken authHeader db = Some u →
  u_isBanned u = false →
  let db' := exec (verifyUserAge (u_id u)) db in
  requireAgeVerification verifyToken authHeader db' = Next (req_user u)
  ∧ requireModerator verifyToken authHeader db'
    = requireModerator verifyToken authHeader db
  ∧ requireAdmin verifyToken authHeader db'
    = requireAdmin verifyToken authHeader db.
Proof.
  intros Hu Hban db'.
  assert (resolves verifyToken authHeader db' = Some (set_ageVerified u)) as Hu'.
  { subst db'. unfold exec, verifyUserAge, update_user. cbn [snd].
    rewrite resolves_after_update by done. rewrite Hu. simpl.
    by rewrite decide_True. }
  destruct (gates_of_resolved db' _ Hu') as (_ & _ & Hm & Had & Hage).
  destruct (gates_of_resolved db _ Hu) as (_ & _ & Hm0 & Had0 & _).
  rewrite Hm, Had, Hage, Hm0, Had0. cbn. by rewrite Hban.
Qed.

(** X10. The gates are nested.  Whatever [requireAdmin] lets through,
    [requireModerator] lets through; whatever a role gate or the age gate
    lets through, [authenticateToken] lets through; all as the same user.
    [optionalAuth] attaches a user exactly when [authenticateToken] would
    let the request through, and attaches that user. *)
Theorem gates_are_nested (db : Db) (user : ReqUser) :
  (requireAdmin verifyToken authHeader db = Next user →
   requireModerator verifyToken authHeader db = Next user)
  ∧ (requireModerator verifyToken authHeader db = Next user →
     authenticateToken verifyToken authHeader db = Next user)
  ∧ (requireAgeVerification verifyToken authHeader db = Next user →
     authenticateToken verifyToken authHeader db = Next user)
  ∧ (optionalAuth verifyToken authHeader db = Some user
     ↔ authenticateToken verifyToken authHeader db = Next user).
Proof.
  destruct (resolves verifyToken authHeader db) as [u|] eqn:Hu.
  - destruct (gates_of_resolved db _ Hu) as (Ha & Ho & Hm & Had & Hage).
    rewrite Ha, Ho, Hm, Had, Hage.
    destruct (u_isBanned u); [repeat split; try done; congruence|].
    rewrite moderator_test.
    repeat split; try congruence.
    + destruct (decide (u_role u = "admin")) as [He|He].
      * rewrite (bool_decide_true (_ ∨ _)) by auto.
        by rewrite bool_decide_false by (intros H; by apply H).
      * by rewrite bool_decide_true by done.
    + destruct (bool_decide (u_role u = "moderator" ∨ u_role u = "admin"));
        simpl; first [done | auto].
    + destruct (u_ageVerified u); simpl; first [done | auto].
  - destruct (gates_of_unresolved db Hu) as (Ho & (s & m & Ha) & Hm & Had & Hage).
    rewrite Ho, Hm, Had, Hage, Ha. repeat split; done.
Qed.

End Middlewares.

Lemma ban_closes_the_role_gates_only_witness :
  let db' := exec (banUser 3 {| banReason := "spam"; bannedBy := 4; bannedAt := 50 |}) db0 in
  requireModerator sample_verify (Some "Bearer tok3") db' = Respond 403 "Account banned"
  ∧ requireAdmin sample_verify (Some "Bearer tok3") db' = Respond 403 "Account banned"
  ∧ requireAgeVerification sample_verify (Some "Bearer tok3") db'
    = Respond 403 "Account banned"
  ∧ authenticateToken sample_verify (Some "Bearer tok3") db'
    = Next (req_user (a_user 3 "m" "moderator" false))
  ∧ optionalAuth sample_verify (Some "Bearer tok3") db'
    = Some (req_user (a_user 3 "m" "moderator" false)).
Proof.
  apply (ban_closes_the_role_gates_only sample_verify (Some "Bearer tok3") db0
           (a_user 3 "m" "moderator" false) _
           (Some (set_ban {| banReason := "spam"; bannedBy := 4; bannedAt := 50 |}
                    (a_user 3 "m" "moderator" false))));
    reflexivity.
Defined.



Lemma age_verification_opens_its_gate_witness :
  let db' := exec (verifyUserAge 1) db0 in
  requireAgeVerification sample_verify (Some "Bearer tok1") db'
    = Next (req_user (a_user 1 "a" "user" false))
  ∧ requireModerator sample_verify (Some "Bearer tok1") db'
    = requireModerator sample_verify (Some "Bearer tok1") db0
  ∧ requireAdmin sample_verify (Some "Bearer tok1") db'
    = requireAdmin sample_verify (Some "Bearer tok1") db0.
Proof.
  apply (age_verification_opens_its_gate sample_verify (Some "Bearer tok1") db0
           (a_user 1 "a" "user" false)); reflexivity.
Defined.

Lemma gates_are_nested_witness :
  authenticateToken sample_verify (Some "Bearer tok3") db0
  = Next (req_user (a_user 3 "m" "moderator" false)).
Proof.
  apply (gates_are_nested sample_verify (Some "Bearer tok3") db0). reflexivity.
Defined.

(** ** Deleting a fanwork *)

Lemma filter_not_gone {R} (key : R → Z) (gone : list Z) (J : Z) (l : list R) :
  J ∉ gone →
  filter (λ r, key r = J) (filter (λ r, key r ∉ gone) l)
  = filter (λ r, key r = J) l.
Proof.
  intros HJ. induction l as [|r l IH]; [done|].
  rewrite (filter_cons (λ r, key r ∉ gone)).
  destruct (decide (key r ∉ gone)) as [Hn|Hy].
  - by rewrite !filter_cons, IH.
  - rewrite IH, filter_cons_False; [done|].
    intros <-. by apply Hy.
Qed.

Lemma filter_gone {R} (key : R → Z) (gone : list Z) (J : Z) (l : list R) :
  J ∈ gone →
  filter (λ r, key r = J) (filter (λ r, key r ∉ gone) l) = [].
Proof.
  intros HJ. induction l as [|r l IH]; [done|].
  rewrite (filter_cons (λ r, key r ∉ gone)).
  destruct (decide (key r ∉ gone)) as [Hn|Hy]; [|done].
  rewrite filter_cons_False; [done|]. intros <-. by apply Hn.
Qed.

Lemma filter_key_ne_same {R} (key : R → Z) (I : Z) (l : list R) :
  filter (λ r, key r = I) (filter (λ r, ¬ key r = I) l) = [].
Proof.
  induction l as [|r l IH]; [done|].
  rewrite (filter_cons (λ r, ¬ key r = I)). case_decide; [|apply IH].
  by rewrite filter_cons_False.
Qed.

Lemma filter_key_ne_other {R} (key : R → Z) (I J : Z) (l : list R) :
  J ≠ I →
  filter (λ r, key r = J) (filter (λ r, ¬ key r = I) l)
  = filter (λ r, key r = J) l.
Proof.
  intros HJ. induction l as [|r l IH]; [done|].
  rewrite (filter_cons (λ r, ¬ key r = I)).
  destruct (decide (¬ key r = I)) as [Hn|Hy].
  - by rewrite !filter_cons, IH.
  - rewrite filter_cons_False; [apply IH|]. intros HJ'. apply Hy. congruence.
Qed.

Lemma gone_elem I db x :
  x ∈ fw_id <$> filter (λ f, fw_id f = I) (fanworks db)
  ↔ x = I ∧ I ∈ fw_id <$> fanworks db.
Proof.
  rewrite !list_elem_of_fmap. split.
  - intros (f & -> & Hf). apply list_elem_of_filter in Hf as [Hid Hf].
    split; [done|]. exists f. by rewrite Hid.
  - intros (-> & f & Hid & Hf). exists f. split; [done|].
    apply list_elem_of_filter. by split.
Qed.

Lemma scan_nil {R} (scan : Scan R) : scan [] = [].
Proof. apply Permutation_nil_r. apply scan_perm. Qed.

(** X11. [deleteFanwork] takes everything that hangs on the fanwork with
    it.  After the call the fanwork cannot be read, each of its three
    counters is the text "0" of a count of no rows, it has no comments
    and no tags, and no report points at it; a fanwork with another id
    reads as before, with the same counters, comments and tags. *)
Theorem deleteFanwork_takes_its_rows_along
    (comment_scan : Scan Comment) (tag_scan : Scan Tag) (I : Z) (db : Db) :
  fanwork_exists I db →
  let db' := exec (deleteFanwork I) db in
  result (getFanwork I) db' = Ok None
  ∧ result (getFanworkCounts I) db'
    = Ok {| c_likes := CountText "0"; c_comments := CountText "0";
            c_bookmarks := CountText "0" |}
  ∧ result (getComments comment_scan I) db' = Ok []
  ∧ result (getFanworkTags tag_scan I) db' = Ok []
  ∧ Forall (λ r, rp_fanworkId r ≠ Some I) (reports db')
  ∧ ∀ J, J ≠ I →
      result (getFanwork J) db' = result (getFanwork J) db
      ∧ result (getFanworkCounts J) db' = result (getFanworkCounts J) db
      ∧ result (getComments comment_scan J) db'
        = result (getComments comment_scan J) db
      ∧ result (getFanworkTags tag_scan J) db'
        = result (getFanworkTags tag_scan J) db.
Proof.
  intros [HI4 HI] db'. subst db'.
  set (gone := fw_id <$> filter (λ f, fw_id f = I) (fanworks db)).
  assert (I ∈ gone) as Hgone by (by apply gone_elem).
  assert (∀ J, J ≠ I → J ∉ gone) as Hkept.
  { intros J HJ HJ'. apply gone_elem in HJ' as [? _]. done. }
  unfold result, exec.
  rewrite getFanworkCounts_counted by done.
  unfold deleteFanwork, getFanwork, getComments, getFanworkTags.
  cbn [fst snd fanworks likes comments bookmarks fanworkTags tags reports].
  fold gone.
  split; [|split; [|split; [|split; [|split]]]].
  - by rewrite (filter_key_ne_same fw_id).
  - by rewrite !(filter_gone pr_fanworkId), (filter_gone cm_fanworkId).
  - rewrite (filter_gone cm_fanworkId) by done. by rewrite scan_nil.
  - rewrite (filter_gone ft_fanworkId) by done. simpl. by rewrite scan_nil.
  - apply Forall_forall. intros r Hr HrI.
    apply list_elem_of_filter in Hr as [[Hr _] _]. apply Hr.
    rewrite HrI. exact Hgone.
  - intros J HJ. split; [|split; [|split]].
    + by rewrite (filter_key_ne_other fw_id).
    + destruct (decide (int4 J)) as [HJ4|HJ4].
      * rewrite !getFanworkCounts_counted by done.
        cbn [fst likes comments bookmarks].
        by rewrite !(filter_not_gone pr_fanworkId),
          (filter_not_gone cm_fanworkId) by auto.
      * by rewrite !getFanworkCounts_refused.
    + by rewrite (filter_not_gone cm_fanworkId) by auto.
    + by rewrite (filter_not_gone ft_fanworkId) by auto.
Qed.

Lemma deleteFanwork_takes_its_rows_along_witness :
  let db' := exec (deleteFanwork 1) db0 in
  result (getFanwork 1) db' = Ok None
  ∧ result (getFanworkCounts 1) db'
    = Ok {| c_likes := CountText "0"; c_comments := CountText "0";
            c_bookmarks := CountText "0" |}
  ∧ result (getComments backwards 1) db' = Ok []
  ∧ result (getFanworkTags backwards 1) db' = Ok []
  ∧ Forall (λ r, rp_fanworkId r ≠ Some 1) (reports db')
  ∧ ∀ J, J ≠ 1 →
      result (getFanwork J) db' = result (getFanwork J) db0
      ∧ result (getFanworkCounts J) db' = result (getFanworkCounts J) db0
      ∧ result (getComments backwards J) db'
        = result (getComments backwards J) db0
      ∧ result (getFanworkTags backwards J) db'
        = result (getFanworkTags backwards J) db0.
Proof.
  apply (deleteFanwork_takes_its_rows_along backwards backwards 1 db0).
  by_compute.
Defined.

(** ** Referential integrity *)

Lemma lift_exec {A} (m : M A) st :
  st_db (execS (lift m) st) = exec m (st_db st).
Proof. unfold execS, lift, exec. by destruct (m (st_db st)). Qed.

Lemma fk_ok_iff keys x :
  ¬ fk_broken keys None x ↔ ∀ k, x = Some k → k ∈ keys.
Proof.
  unfold fk_broken. split.
  - intros Hok k ->. destruct (decide (k ∈ keys)); [done|].
    destruct Hok. eauto.
  - intros Hok (_ & k & -> & Hk). by apply Hk, Hok.
Qed.

(** A store that keeps the keys of fanworks and comments, and whose new
    rows point at rows that are there, keeps its references whole. *)
Lemma refs_ok_grow db db' :
  (∀ i, i ∈ fw_id <$> fanworks db → i ∈ fw_id <$> fanworks db') →
  (∀ i, i ∈ cm_id <$> comments db → i ∈ cm_id <$> comments db') →
  (∀ r, r ∈ likes db' → r ∈ likes db ∨ fanwork_exists (pr_fanworkId r) db') →
  (∀ r, r ∈ bookmarks db' →
        r ∈ bookmarks db ∨ fanwork_exists (pr_fanworkId r) db') →
  (∀ c, c ∈ comments db' →
        c ∈ comments db ∨ fanwork_exists (cm_fanworkId c) db') →
  (∀ ft, ft ∈ fanworkTags db' →
        ft ∈ fanworkTags db ∨ fanwork_exists (ft_fanworkId ft) db') →
  (∀ r, r ∈ reports db' →
        r ∈ reports db
        ∨ (¬ fk_broken (fw_id <$> fanworks db') None (rp_fanworkId r)
           ∧ ¬ fk_broken (cm_id <$> comments db') None (rp_commentId r))) →
  refs_ok db → refs_ok db'.
Proof.
  intros Hfw' Hcm Hl Hb Hc Hft Hr (Rl & Rb & Rc & Rft & Rr).
  assert (∀ i, fanwork_exists i db → fanwork_exists i db') as Hfw.
  { intros i [? ?]. split; auto. }
  pose proof (proj1 (Forall_forall _ _) Rl) as Rl'.
  pose proof (proj1 (Forall_forall _ _) Rb) as Rb'.
  pose proof (proj1 (Forall_forall _ _) Rc) as Rc'.
  pose proof (proj1 (Forall_forall _ _) Rft) as Rft'.
  pose proof (proj1 (Forall_forall _ _) Rr) as Rr'.
  simpl in *.
  split; [|split; [|split; [|split]]]; apply Forall_forall.
  - intros r Hin. destruct (Hl r Hin) as [Hold|]; [|done].
    by apply Hfw, Rl'.
  - intros r Hin. destruct (Hb r Hin) as [Hold|]; [|done].
    by apply Hfw, Rb'.
  - intros r Hin. destruct (Hc r Hin) as [Hold|]; [|done].
    by apply Hfw, Rc'.
  - intros r Hin. destruct (Hft r Hin) as [Hold|]; [|done].
    by apply Hfw, Rft'.
  - intros r Hin. destruct (Hr r Hin) as [Hold|Hnew]; [|done].
    destruct (Rr' r Hold) as [Hok1 Hok2].
    rewrite fk_ok_iff in Hok1, Hok2. rewrite !fk_ok_iff.
    split; intros k Hk; [by apply Hfw', Hok1 | by apply Hcm, Hok2].
Qed.

Lemma refs_ok_toggle t U I db : refs_ok db → refs_ok (exec (toggle t U I) db).
Proof.
  apply refs_ok_grow; unfold fanwork_exists; rewrite ?toggle_fanworks,
    ?toggle_comments; auto.
  - intros r. unfold exec. rewrite toggle_unfold. case_decide; [|auto].
    destruct (filter _ _); [unfold insert_pair|]; repeat case_decide;
      destruct t; simpl; auto.
    + rewrite elem_of_app, list_elem_of_singleton. intros [?| ->]; auto.
    + rewrite list_elem_of_filter. tauto.
  - intros r. unfold exec. rewrite toggle_unfold. case_decide; [|auto].
    destruct (filter _ _); [unfold insert_pair|]; repeat case_decide;
      destruct t; simpl; auto.
    + rewrite elem_of_app, list_elem_of_singleton. intros [?| ->]; auto.
    + rewrite list_elem_of_filter. tauto.
  - intros ft. unfold exec. rewrite toggle_unfold. case_decide; [|auto].
    destruct (filter _ _); [unfold insert_pair|]; repeat case_decide;
      destruct t; simpl; auto.
  - intros r. unfold exec. rewrite toggle_unfold. case_decide; [|auto].
    destruct (filter _ _); [unfold insert_pair|]; repeat case_decide;
      destruct t; simpl; auto.
Qed.

Lemma refs_ok_same_keys db db' :
  fw_id <$> fanworks db' = fw_id <$> fanworks db →
  comments db' = comments db → likes db' = likes db →
  bookmarks db' = bookmarks db → fanworkTags db' = fanworkTags db →
  reports db' = reports db →
  refs_ok db → refs_ok db'.
Proof.
  unfold refs_ok, fanwork_exists. by intros -> -> -> -> -> ->.
Qed.

Lemma refs_ok_update_user U set db :
  refs_ok db → refs_ok (exec (update_user U set) db).
Proof. by apply refs_ok_same_keys. Qed.

Lemma refs_ok_banUser U data db : refs_ok db → refs_ok (exec (banUser U data) db).
Proof.
  unfold exec, banUser. case_decide; [done|]. by apply refs_ok_same_keys.
Qed.

Lemma refs_ok_updateUserRole U role db :
  refs_ok db → refs_ok (exec (updateUserRole U role) db).
Proof.
  unfold updateUserRole. destruct (varchar 20 role); [|done].
  apply refs_ok_update_user.
Qed.

Lemma fmap_key_update {R} (key : R → Z) (k : Z) (g : R → R) (l : list R) :
  (∀ r, key (g r) = key r) →
  key <$> ((λ r, if decide (key r = k) then g r else r) <$> l) = key <$> l.
Proof.
  intros Hkey. rewrite <- list_fmap_compose. apply list_fmap_ext.
  intros _ r _. simpl. case_decide; auto.
Qed.

Lemma refs_ok_hideFanwork I data db :
  refs_ok db → refs_ok (exec (hideFanwork I data) db).
Proof.
  unfold exec, hideFanwork. case_decide; [done|].
  apply refs_ok_same_keys; try done. simpl. by apply fmap_key_update.
Qed.

Lemma refs_ok_unhideFanwork I db :
  refs_ok db → refs_ok (exec (unhideFanwork I) db).
Proof.
  unfold exec, unhideFanwork.
  apply refs_ok_same_keys; try done. simpl. by apply fmap_key_update.
Qed.

Lemma Forall_filter_keep {A} (P Q : A → Prop) `{!∀ x, Decision (Q x)} (l : list A) :
  Forall P l → Forall P (filter Q l).
Proof.
  rewrite !Forall_forall. intros HP x Hx.
  apply list_elem_of_filter in Hx as [_ Hx]. auto.
Qed.

Lemma refs_ok_deleteComment id U db :
  refs_ok db → refs_ok (exec (deleteComment id U) db).
Proof.
  intros (Rl & Rb & Rc & Rft & Rr).
  unfold exec, deleteComment, refs_ok, fanwork_exists. simpl.
  split; [done|]. split; [done|]. split; [|split; [done|]].
  - by apply Forall_filter_keep.
  - apply Forall_forall. intros r Hr.
    apply list_elem_of_filter in Hr as [Hnot Hr].
    rewrite Forall_forall in Rr. destruct (Rr r Hr) as [Hf Hc].
    split; [done|]. rewrite fk_ok_iff in Hc |- *. intros k Hk.
    specialize (Hc k Hk). apply list_elem_of_fmap in Hc as (c & -> & Hc).
    apply list_elem_of_fmap_2, list_elem_of_filter. split; [|done].
    intros Hdoomed. apply Hnot. rewrite Hk. simpl.
    apply list_elem_of_fmap_2, list_elem_of_filter. by split.
Qed.

Lemma refs_ok_deleteFanwork I db :
  refs_ok db → refs_ok (exec (deleteFanwork I) db).
Proof.
  intros (Rl & Rb & Rc & Rft & Rr).
  assert (∀ k, k ∈ fw_id <$> fanworks db →
               k ∉ fw_id <$> filter (λ f, fw_id f = I) (fanworks db) →
               k ∈ fw_id <$> filter (λ f, ¬ fw_id f = I) (fanworks db)) as Hkeep.
  { intros k Hk Hnot. apply list_elem_of_fmap in Hk as (f & -> & Hf).
    apply list_elem_of_fmap_2, list_elem_of_filter. split; [|done].
    intros HI. apply Hnot, list_elem_of_fmap_2, list_elem_of_filter. by split. }
  rewrite Forall_forall in Rl, Rb. 
  pose proof (proj1 (Forall_forall _ _) Rc) as Rc'.
  pose proof (proj1 (Forall_forall _ _) Rft) as Rft'.
  pose proof (proj1 (Forall_forall _ _) Rr) as Rr'.
  unfold exec, deleteFanwork, refs_ok, fanwork_exists in *. simpl in *.
  split; [|split; [|split; [|split]]]; apply Forall_forall; intros r Hr;
    apply list_elem_of_filter in Hr as [Hnot Hr].
  - destruct (Rl r Hr). split; [done|]. apply Hkeep; auto.
  - destruct (Rb r Hr). split; [done|]. apply Hkeep; auto.
  - destruct (Rc' r Hr). split; [done|]. apply Hkeep; auto.
  - destruct (Rft' r Hr). split; [done|]. apply Hkeep; auto.
  - destruct (Rr' r Hr) as [Hf Hc]. destruct Hnot as [Hnf Hnc].
    rewrite fk_ok_iff in Hf, Hc. rewrite !fk_ok_iff. split.
    + intros k Hk. apply Hkeep; [auto|]. intros Hg. apply Hnf.
      by rewrite Hk.
    + intros k Hk. specialize (Hc k Hk).
      apply list_elem_of_fmap in Hc as (c & -> & Hc).
      apply list_elem_of_fmap_2, list_elem_of_filter. split; [|done].
      intros Hg. apply Hnc. rewrite Hk. simpl.
      by apply list_elem_of_fmap_2, list_elem_of_filter.
Qed.

Lemma fk_kept keys old new :
  ¬ fk_broken keys old new →
  (∀ k, old = Some k → k ∈ keys) → ∀ k, new = Some k → k ∈ keys.
Proof.
  unfold fk_broken. intros Hok Hold k ->.
  destruct (decide (k ∈ keys)) as [|Hk]; [done|].
  destruct (decide (Some k = old)) as [<-|Hne]; [by apply Hold|].
  destruct Hok. eauto.
Qed.

Lemma refs_ok_updateReport id data db :
  refs_ok db → refs_ok (exec (updateReport id data) db).
Proof.
  intros Hok. unfold exec, updateReport.
  destruct (negb _); [done|]. case_decide; [done|].
  case_decide as Hrefs; [done|]. case_decide; [done|]. cbn [snd].
  eapply refs_ok_grow; [..|exact Hok]; try (simpl; auto; fail).
  simpl. intros r' Hr'. apply list_elem_of_fmap in Hr' as (r & -> & Hr).
  case_decide as Hid; [|by left]. right.
  destruct Hok as (_ & _ & _ & _ & Rr). rewrite Forall_forall in Rr.
  destruct (Rr r Hr) as [Hf Hc]. rewrite fk_ok_iff in Hf, Hc.
  rewrite !fk_ok_iff.
  assert (¬ report_refs_broken db r (set_report data r)) as Hnb.
  { intros Hb. apply Hrefs, Exists_exists. exists r. split; [|done].
    apply list_elem_of_filter. by split. }
  unfold report_refs_broken in Hnb.
  split; eapply fk_kept; eauto; tauto.
Qed.

Lemma execS_bind {A B} (m : MS A) (k : A → MS B) st :
  execS (m ≫= k) st
  = match resultS m st with
    | Ok a => execS (k a) (execS m st)
    | Err _ => execS m st
    end.
Proof.
  unfold execS, resultS, mbind, MS_bind. by destruct (m st) as [[a|e] st'].
Qed.

Lemma refs_ok_createComment comment st :
  refs_ok (st_db st) → refs_ok (st_db (execS (createComment comment) st)).
Proof.
  intros Hok. unfold execS, createComment.
  case_decide; [done|]. case_decide as Hfk; [|done]. cbn [snd st_db set_st_db].
  eapply refs_ok_grow; [..|exact Hok]; try (simpl; auto; fail).
  - simpl. intros i. rewrite fmap_app, elem_of_app. auto.
  - simpl. intros c. rewrite elem_of_app, list_elem_of_singleton.
    intros [?| ->]; [auto|]. right. apply Hfk.
Qed.

Lemma refs_ok_createReport report st :
  refs_ok (st_db st) → refs_ok (st_db (execS (createReport report) st)).
Proof.
  intros Hok. unfold execS, createReport.
  destruct (varchar 100 _) as [reason|]; [|done]. case_decide; [done|].
  case_decide as Hfk; [|done]. cbn [snd st_db set_st_db].
  eapply refs_ok_grow; [..|exact Hok]; try (simpl; auto; fail).
  simpl. intros r. rewrite elem_of_app, list_elem_of_singleton.
  intros [?| ->]; [auto|]. right. simpl. tauto.
Qed.

Lemma refs_ok_createUser userData st :
  refs_ok (st_db st) → refs_ok (st_db (execS (createUser userData) st)).
Proof.
  unfold execS, createUser. repeat case_decide; done.
Qed.

Lemma refs_ok_getOrCreateTag name st :
  refs_ok (st_db st) → refs_ok (st_db (execS (getOrCreateTag name) st)).
Proof.
  unfold getOrCreateTag. rewrite execS_bind.
  unfold resultS, execS, lift. cbn [fst snd].
  destruct (head _); [by destruct st|].
  unfold insert_tag. destruct (varchar 100 name); [|by destruct st].
  repeat case_decide; by destruct st.
Qed.

Lemma refs_ok_insert_fanwork_tag I tagId st :
  refs_ok (st_db st) → refs_ok (st_db (execS (insert_fanwork_tag I tagId) st)).
Proof.
  intros Hok. unfold execS, insert_fanwork_tag.
  case_decide; [done|]. case_decide as Hfk; [|done]. cbn [snd st_db set_st_db].
  eapply refs_ok_grow; [..|exact Hok]; try (simpl; auto; fail).
  simpl. intros ft. rewrite elem_of_app, list_elem_of_singleton.
  intros [?| ->]; [auto|]. right. apply Hfk.
Qed.

Lemma refs_ok_addTagsToFanwork I names st :
  refs_ok (st_db st) → refs_ok (st_db (execS (addTagsToFanwork I names) st)).
Proof.
  revert st. induction names as [|name names IH]; intros st Hok; [done|].
  cbn [addTagsToFanwork]. rewrite execS_bind.
  pose proof (refs_ok_getOrCreateTag name st Hok) as H1.
  destruct (resultS (getOrCreateTag name) st) as [tg|]; [|done].
  set (st1 := execS (getOrCreateTag name) st) in *.
  rewrite execS_bind.
  assert (∀ A (f : Db → A) s, execS (lift (λ db, (Ok (f db), db))) s = s) as Hread.
  { intros A f s. unfold execS, lift. by destruct s. }
  rewrite Hread. unfold resultS at 1, lift at 1. cbn [fst].
  rewrite execS_bind.
  destruct (head _).
  - unfold resultS, execS at 2, mret, MS_ret. cbn [fst snd]. by apply IH.
  - pose proof (refs_ok_insert_fanwork_tag I (tag_id tg) st1 H1) as H2.
    destruct (resultS _ _); [by apply IH|done].
Qed.

(** X12. No method of the storage layer leaves a dangling row.  If every
    like, bookmark, comment, tag link and report points at a fanwork (and
    every report on a comment at a comment) that is there, the same holds
    after any sequence of writing calls, accepted or rejected: toggles,
    comment, report and user creation, tagging, comment and fanwork
    deletion, report updates and the moderation updates. *)
Theorem calls_keep_references_whole (cs : list Call) (st : Store) :
  refs_ok (st_db st) → refs_ok (st_db (run_calls cs st)).
Proof.
  revert st. induction cs as [|c cs IH]; intros st Hok; [done|].
  cbn [run_calls foldl]. apply IH.
  destruct c; cbn [run_call]; rewrite ?lift_exec.
  - by apply (refs_ok_toggle likes_t).
  - by apply (refs_ok_toggle bookmarks_t).
  - by apply refs_ok_createComment.
  - by apply refs_ok_deleteComment.
  - by apply refs_ok_deleteFanwork.
  - by apply refs_ok_addTagsToFanwork.
  - by apply refs_ok_createReport.
  - by apply refs_ok_updateReport.
  - by apply refs_ok_banUser.
  - by apply refs_ok_update_user.
  - by apply refs_ok_hideFanwork.
  - by apply refs_ok_unhideFanwork.
  - by apply refs_ok_updateUserRole.
  - by apply refs_ok_update_user.
  - by apply refs_ok_createUser.
Qed.

Lemma calls_keep_references_whole_witness :
  refs_ok
    (st_db
       (run_calls
          [ToggleLike 1 2;
           CreateComment {| ic_content := "hi"; ic_userId := 2; ic_fanworkId := 2 |};
           AddTagsToFanwork 2 ["rick"; "morty"];
           CreateReport {| ir_reporterId := 2; ir_fanworkId := None;
                           ir_commentId := Some 3; ir_userId := None;
                           ir_reason := "spam"; ir_description := None |};
           DeleteComment 3 2; DeleteFanwork 1]
          st0)).
Proof.
  apply (calls_keep_references_whole _ st0). by_compute.
Defined.

(** ** Ordered reads and comments *)

Lemma insert_latest_perm {R} (created : R → option Z) x (l : list R) :
  insert_latest created x l ≡ₚ x :: l.
Proof.
  induction l as [|y l IH]; [done|]. simpl.
  destruct (later _ _); [|done]. rewrite IH. apply Permutation_swap.
Qed.

Lemma latest_first_perm {R} (created : R → option Z) (l : list R) :
  latest_first created l ≡ₚ l.
Proof.
  induction l as [|x l IH]; [done|].
  unfold latest_first in *. cbn [foldr].
  by rewrite insert_latest_perm, IH.
Qed.

Lemma later_asym a b : later a b = true → later b a = false.
Proof.
  destruct a, b; simpl; try done.
  rewrite bool_decide_eq_true, bool_decide_eq_false. lia.
Qed.

Lemma not_later_trans {R} (created : R → option Z) (a b c : R) :
  not_later created a b → not_later created b c → not_later created a c.
Proof.
  unfold not_later.
  destruct (created a), (created b), (created c); simpl; try done.
  rewrite !bool_decide_eq_false. lia.
Qed.

Lemma insert_latest_sorted {R} (created : R → option Z) x (l : list R) :
  Sorted (not_later created) l →
  Sorted (not_later created) (insert_latest created x l).
Proof.
  induction l as [|y l IH]; intros Hs; simpl.
  - by repeat constructor.
  - apply Sorted_inv in Hs as [Hs Hhd].
    destruct (later (created y) (created x)) eqn:E.
    + constructor; [by apply IH|].
      destruct l as [|z l]; simpl.
      * constructor. by apply later_asym.
      * destruct (later (created z) (created x)); constructor.
        -- by inversion Hhd.
        -- by apply later_asym.
    + constructor; [by constructor|]. constructor. exact E.
Qed.

Lemma latest_first_sorted {R} (created : R → option Z) (l : list R) :
  StronglySorted (not_later created) (latest_first created l).
Proof.
  apply Sorted_StronglySorted.
  { intros a b c. apply not_later_trans. }
  induction l as [|x l IH]; [constructor|].
  unfold latest_first in *. cbn [foldr]. by apply insert_latest_sorted.
Qed.

(** X13. [getComments] returns exactly the comments of the fanwork, each
    as often as the table holds it, and [getReports] exactly the reports;
    both latest first: no row stands anywhere before one that was created
    later. *)
Theorem ordered_reads_list_every_row_latest_first
    (comment_scan : Scan Comment) (report_scan : Scan Report)
    (I : Z) (db : Db) :
  (∃ l, getComments comment_scan I db = (Ok l, db)
        ∧ l ≡ₚ filter (λ c, cm_fanworkId c = I) (comments db)
        ∧ StronglySorted (not_later cm_createdAt) l)
  ∧ (∃ l, getReports report_scan db = (Ok l, db)
          ∧ l ≡ₚ reports db
          ∧ StronglySorted (not_later rp_createdAt) l).
Proof.
  split; eexists; (split; [reflexivity|]);
    (split; [by rewrite latest_first_perm, scan_perm
            |apply latest_first_sorted]).
Qed.

Lemma fresh_key_filter {R} (key : R → Z) (k : Z) (P : R → Prop)
    `{!∀ x, Decision (P x)} (l : list R) :
  k ∉ key <$> l → filter (λ r, ¬ (key r = k ∧ P r)) l = l.
Proof.
  intros Hk. apply filter_keeps_all, Forall_forall. intros r Hr [Hid _].
  apply Hk. rewrite <- Hid. by apply list_elem_of_fmap_2.
Qed.

(** X14. A comment that [createComment] has accepted shows in
    [getComments] of its fanwork and moves its comment counter from the
    text of the number of comments the fanwork had to the text of that
    number plus one, the other two counters staying; when its author
    deletes it with the key that was returned, the tables are again what
    they were before it was written. *)
Theorem comment_written_then_deleted (scan : Scan Comment)
    (comment : InsertComment) (st : Store) (c : Comment) :
  resultS (createComment comment) st = Ok c →
  refs_ok (st_db st) →
  let db := st_db st in
  let db' := st_db (execS (createComment comment) st) in
  let m := length (filter (λ x, cm_fanworkId x = ic_fanworkId comment)
                     (comments db)) in
  (∃ l, result (getComments scan (ic_fanworkId comment)) db' = Ok l ∧ c ∈ l)
  ∧ (∃ n n', result (getFanworkCounts (ic_fanworkId comment)) db = Ok n
             ∧ result (getFanworkCounts (ic_fanworkId comment)) db' = Ok n'
             ∧ c_comments n = counted m
             ∧ c_comments n' = counted (m + 1)
             ∧ c_likes n' = c_likes n ∧ c_bookmarks n' = c_bookmarks n)
  ∧ exec (deleteComment (cm_id c) (ic_userId comment)) db' = db.
Proof.
  intros Hres Hok db db'. subst db db'. revert Hres.
  unfold resultS, execS, createComment.
  case_decide as Hfresh; [done|]. case_decide as Hfk; [|done].
  cbn [fst snd st_db set_st_db]. intros [= <-].
  split; [|split].
  - eexists. split; [reflexivity|].
    rewrite latest_first_perm, scan_perm. apply list_elem_of_filter.
    split; [done|]. simpl. apply elem_of_app. right. by left.
  - unfold result.
    rewrite !getFanworkCounts_counted by apply Hfk. cbn [fst].
    eexists _, _. split; [reflexivity|]. split; [reflexivity|].
    simpl. rewrite filter_app, length_app, filter_cons_True by done.
    done.
  - unfold exec, deleteComment. cbn [snd comments set_comments cm_id].
    rewrite !filter_app.
    rewrite (fresh_key_filter cm_id) by done.
    rewrite filter_cons_True by done.
    rewrite filter_cons_False by (simpl; tauto). rewrite filter_nil, app_nil_r.
    assert (filter (λ c, cm_id c = comments_id_seq st
                         ∧ cm_userId c = ic_userId comment) (comments (st_db st))
            = []) as ->.
    { apply filter_none. intros c Hc [Hid _]. apply Hfresh.
      rewrite <- Hid. by apply list_elem_of_fmap_2. }
    unfold set_reports, set_comments. simpl.
    rewrite filter_keeps_all; [apply Db_eta|].
    destruct Hok as (_ & _ & _ & _ & Rr).
    eapply Forall_impl; [exact Rr|]. intros r [_ Hr] Href. simpl in *.
    rewrite fk_ok_iff in Hr. destruct (rp_commentId r) as [k|]; [|done].
    simpl in Href. apply list_elem_of_singleton in Href as ->.
    apply Hfresh. by apply Hr.
Qed.

Lemma comment_written_then_deleted_witness :
  let comment := {| ic_content := "hi"; ic_userId := 2; ic_fanworkId := 1 |} in
  let c := {| cm_id := 3; cm_content := "hi"; cm_userId := 2;
              cm_fanworkId := 1; cm_createdAt := Some 100;
              cm_updatedAt := Some 100 |} in
  let db' := st_db (execS (createComment comment) st0) in
  (∃ l, result (getComments backwards 1) db' = Ok l ∧ c ∈ l)
  ∧ (∃ n n', result (getFanworkCounts 1) db0 = Ok n
             ∧ result (getFanworkCounts 1) db' = Ok n'
             ∧ c_comments n = CountText "2"
             ∧ c_comments n' = CountText "3"
             ∧ c_likes n' = c_likes n ∧ c_bookmarks n' = c_bookmarks n)
  ∧ exec (deleteComment 3 2) db' = db0.
Proof.
  intros comment c db'.
  apply (comment_written_then_deleted backwards comment st0 c);
    [reflexivity | by_compute].
Defined.

(** ** Tags *)

Lemma Store_eta st : set_st_db (st_db st) st = st.
Proof. by destruct st. Qed.

Lemma extends_refl db : extends db db.
Proof. split; exists []; by rewrite app_nil_r. Qed.

Lemma extends_trans a b c : extends a b → extends b c → extends a c.
Proof.
  intros [[l1 H1] [l2 H2]] [[l3 H3] [l4 H4]].
  split; eexists; [rewrite H3, H1 | rewrite H4, H2]; by rewrite <- app_assoc.
Qed.

Lemma head_filter_app {A} (P : A → Prop) `{!∀ x, Decision (P x)} (l l' : list A) x :
  head (filter P l) = Some x → head (filter P (l ++ l')) = Some x.
Proof. rewrite filter_app. by destruct (filter P l). Qed.

Lemma linked_extends I name db db' :
  extends db db' → linked I name db → linked I name db'.
Proof.
  intros [[l1 H1] [l2 H2]] (tg & Htg & Hlink). exists tg.
  rewrite H1, H2. split; [by apply head_filter_app|].
  rewrite filter_app. by destruct (filter _ (fanworkTags db)).
Qed.

Lemma getOrCreateTag_unfold name st :
  getOrCreateTag name st
  = match head (filter (λ tg, tag_name tg = name) (tags (st_db st))) with
    | Some tg => (Ok tg, st)
    | None => insert_tag name st
    end.
Proof.
  unfold getOrCreateTag, mbind, MS_bind, lift. cbn. rewrite Store_eta.
  by destruct (head _).
Qed.

Lemma getOrCreateTag_extends name st :
  extends (st_db st) (st_db (execS (getOrCreateTag name) st)).
Proof.
  unfold execS. rewrite getOrCreateTag_unfold.
  destruct (head _); [apply extends_refl|].
  unfold insert_tag. destruct (varchar 100 name); [|apply extends_refl].
  repeat case_decide; try apply extends_refl.
  split; simpl; [by eexists | exists []; by rewrite app_nil_r].
Qed.

Lemma getOrCreateTag_found name st tg :
  (String.length name ≤ 100)%nat →
  resultS (getOrCreateTag name) st = Ok tg →
  head (filter (λ tg, tag_name tg = name)
          (tags (st_db (execS (getOrCreateTag name) st)))) = Some tg.
Proof.
  intros Hlen. unfold resultS, execS. rewrite getOrCreateTag_unfold.
  destruct (head _) as [tg'|] eqn:E.
  - simpl. by intros [= <-].
  - unfold insert_tag. rewrite varchar_fits by done.
    repeat case_decide; try done. simpl. intros [= <-].
    rewrite filter_app, filter_cons_True by done.
    apply head_None in E. by rewrite E.
Qed.

Lemma insert_fanwork_tag_extends I tagId st :
  extends (st_db st) (st_db (execS (insert_fanwork_tag I tagId) st)).
Proof.
  unfold execS, insert_fanwork_tag. repeat case_decide; try apply extends_refl.
  split; simpl; [exists []; by rewrite app_nil_r | by eexists].
Qed.

Lemma addTagsToFanwork_step I name rest st :
  addTagsToFanwork I (name :: rest) st
  = match getOrCreateTag name st with
    | (Ok tg, st1) =>
        match head (filter (λ ft, ft_fanworkId ft = I ∧ ft_tagId ft = tag_id tg)
                      (fanworkTags (st_db st1))) with
        | Some _ => addTagsToFanwork I rest st1
        | None =>
            match insert_fanwork_tag I (tag_id tg) st1 with
            | (Ok _, st2) => addTagsToFanwork I rest st2
            | (Err e, st2) => (Err e, st2)
            end
        end
    | (Err e, st1) => (Err e, st1)
    end.
Proof.
  cbn [addTagsToFanwork]. unfold mbind at 1, MS_bind at 1.
  destruct (getOrCreateTag name st) as [[tg|e] st1]; [|done].
  unfold mbind at 1, MS_bind at 1, lift at 1. cbn. rewrite Store_eta.
  destruct (head _); [done|].
  unfold mbind, MS_bind. by destruct (insert_fanwork_tag _ _ _) as [[[]|e] st2].
Qed.

Lemma addTagsToFanwork_extends I names st :
  extends (st_db st) (st_db (execS (addTagsToFanwork I names) st)).
Proof.
  revert st. induction names as [|name rest IH]; intros st;
    [apply extends_refl|].
  unfold execS. rewrite addTagsToFanwork_step.
  pose proof (getOrCreateTag_extends name st) as H1. unfold execS in H1.
  destruct (getOrCreateTag name st) as [[tg|e] st1]; [|done]. simpl in H1.
  destruct (head _).
  - eapply extends_trans; [exact H1|apply IH].
  - pose proof (insert_fanwork_tag_extends I (tag_id tg) st1) as H2.
    unfold execS in H2.
    destruct (insert_fanwork_tag _ _ _) as [[[]|e] st2]; simpl in H2.
    + eapply extends_trans; [exact H1|].
      eapply extends_trans; [exact H2|apply IH].
    + by eapply extends_trans.
Qed.

Lemma addTagsToFanwork_links I names st :
  Forall (λ n, (String.length n ≤ 100)%nat) names →
  resultS (addTagsToFanwork I names) st = Ok () →
  Forall (λ n, linked I n (st_db (execS (addTagsToFanwork I names) st))) names.
Proof.
  intros Hfit. revert st.
  induction Hfit as [|name rest Hlen _ IH]; intros st; [constructor|].
  unfold resultS, execS. rewrite addTagsToFanwork_step.
  pose proof (getOrCreateTag_found name st) as Hfound.
  unfold resultS, execS in Hfound.
  destruct (getOrCreateTag name st) as [[tg|e] st1]; [|done].
  specialize (Hfound tg Hlen eq_refl). simpl in Hfound.
  destruct (head (filter _ (fanworkTags _))) as [ft|] eqn:Elink.
  - intros Hres. constructor; [|by apply IH].
    eapply linked_extends; [apply addTagsToFanwork_extends|].
    exists tg. split; [done|]. intros Hnil. by rewrite Hnil in Elink.
  - unfold insert_fanwork_tag.
    case_decide; [done|]. case_decide; [|done].
    intros Hres. constructor; [|by apply IH].
    eapply linked_extends; [apply addTagsToFanwork_extends|].
    exists tg. split; [done|]. simpl.
    rewrite filter_app, filter_cons_True by done.
    by destruct (filter _ (fanworkTags _)).
Qed.

Lemma addTagsToFanwork_noop I names st :
  Forall (λ n, linked I n (st_db st)) names →
  addTagsToFanwork I names st = (Ok (), st).
Proof.
  induction 1 as [|name rest (tg & Htg & Hlink) _ IH]; [done|].
  rewrite addTagsToFanwork_step, getOrCreateTag_unfold, Htg.
  by destruct (filter _ (fanworkTags _)).
Qed.

Lemma linked_getFanworkTags (scan : Scan Tag) I name db :
  linked I name db →
  ∃ tg l, tag_name tg = name
          ∧ result (getFanworkTags scan I) db = Ok l ∧ tg ∈ l.
Proof.
  intros (tg & Htg & Hlink). exists tg. eexists.
  apply head_Some_elem_of, list_elem_of_filter in Htg as [Hname Htg].
  split; [done|]. split; [reflexivity|]. rewrite scan_perm.
  destruct (filter _ (fanworkTags db)) as [|ft l] eqn:E; [done|].
  assert (ft ∈ filter (λ ft, ft_fanworkId ft = I ∧ ft_tagId ft = tag_id tg)
                 (fanworkTags db)) as Hft by (rewrite E; left).
  apply list_elem_of_filter in Hft as [[HI Hid] Hft].
  apply list_elem_of_bind. exists ft. split.
  - apply list_elem_of_filter. by split.
  - by apply list_elem_of_filter.
Qed.

(** X15. When [addTagsToFanwork] goes through for names that fit the
    [varchar(100)] column [tags.name], [getFanworkTags] of the fanwork
    lists a tag of every name that was given, and running the same call
    again changes nothing: no tag and no link is written twice, and no
    sequence advances. *)
Theorem addTagsToFanwork_links_each_name_once (scan : Scan Tag) (I : Z)
    (names : list string) (st : Store) :
  Forall (λ name, (String.length name ≤ 100)%nat) names →
  resultS (addTagsToFanwork I names) st = Ok () →
  let st' := execS (addTagsToFanwork I names) st in
  (∀ name, name ∈ names →
     ∃ tg l, tag_name tg = name
             ∧ result (getFanworkTags scan I) (st_db st') = Ok l ∧ tg ∈ l)
  ∧ addTagsToFanwork I names st' = (Ok (), st').
Proof.
  intros Hfit Hres st'.
  pose proof (addTagsToFanwork_links I names st Hfit Hres) as Hl.
  split.
  - intros name Hname. apply linked_getFanworkTags.
    rewrite Forall_forall in Hl. by apply Hl.
  - by apply addTagsToFanwork_noop.
Qed.

Lemma addTagsToFanwork_links_each_name_once_witness :
  let st' := execS (addTagsToFanwork 2 ["rick"; "morty"; "rick"]) st0 in
  (∀ name, name ∈ ["rick"; "morty"; "rick"] →
     ∃ tg l, tag_name tg = name
             ∧ result (getFanworkTags backwards 2) (st_db st') = Ok l
             ∧ tg ∈ l)
  ∧ addTagsToFanwork 2 ["rick"; "morty"; "rick"] st' = (Ok (), st').
Proof.
  apply (addTagsToFanwork_links_each_name_once backwards 2 _ st0);
    [by_compute | reflexivity].
Defined.

(** X16. For a name that fits the [varchar(100)] column, [getOrCreateTag]
    returns a tag of the name asked for, and asking again returns the same
    tag without writing.  Whatever the name, the call never makes a
    second tag of a name: names that were unique stay unique, whether the
    call is accepted or rejected. *)
Theorem getOrCreateTag_is_idempotent (name : string) (st : Store) :
  let st' := execS (getOrCreateTag name) st in
  (∀ tg, resultS (getOrCreateTag name) st = Ok tg →
         (String.length name ≤ 100)%nat →
         tag_name tg = name
         ∧ tg ∈ tags (st_db st')
         ∧ getOrCreateTag name st' = (Ok tg, st'))
  ∧ (NoDup (tag_name <$> tags (st_db st)) →
     NoDup (tag_name <$> tags (st_db st'))).
Proof.
  intros st'. split.
  - intros tg Hres Hlen.
    pose proof (getOrCreateTag_found name st tg Hlen Hres) as Hfound.
    fold st' in Hfound. pose proof Hfound as Hin.
    apply head_Some_elem_of, list_elem_of_filter in Hin as [Hname Hin].
    split; [done|]. split; [exact Hin|].
    by rewrite getOrCreateTag_unfold, Hfound.
  - subst st'. unfold execS. rewrite getOrCreateTag_unfold.
    destruct (head _); [by simpl|]. unfold insert_tag.
    destruct (varchar 100 name) as [stored|]; [|by simpl].
    case_decide as Hu; [by simpl|]. simpl.
    intros Hnd. rewrite fmap_app. apply NoDup_app. split; [done|].
    split; [|apply NoDup_singleton].
    intros x Hx Hx'. apply list_elem_of_singleton in Hx' as ->. tauto.
Qed.

Lemma getOrCreateTag_is_idempotent_witness :
  let st' := execS (getOrCreateTag "morty") st0 in
  let tg := {| tag_id := 2; tag_name := "morty"; tag_createdAt := Some 100 |} in
  (tag_name tg = "morty"
   ∧ tg ∈ tags (st_db st')
   ∧ getOrCreateTag "morty" st' = (Ok tg, st'))
  ∧ NoDup (tag_name <$> tags (st_db st')).
Proof.
  intros st' tg.
  destruct (getOrCreateTag_is_idempotent "morty" st0) as [H1 H2].
  split; [apply H1; [reflexivity|by_compute]|apply H2; by_compute].
Defined.




(** ** The search text *)

Lemma chars_app (a b : string) : chars (a +:+ b) = chars a ++ chars b.
Proof. unfold chars. induction a as [|c a IH]; [done|]. simpl. by rewrite IH. Qed.

Lemma lower_wildcard c : wildcard (lower c) ↔ wildcard c.
Proof.
  assert (bool_decide (wildcard (lower c)) = bool_decide (wildcard c)) as H.
  { by destruct c as [[] [] [] [] [] [] [] []]. }
  rewrite <- (bool_decide_spec (wildcard (lower c))), H. apply bool_decide_spec.
Qed.

Lemma like_star_unfold q t :
  like_match ("%"%char :: q) t
  = like_match q t
    || match t with [] => false | _ :: t' => like_match ("%"%char :: q) t' end.
Proof. by destruct t. Qed.

Lemma like_star q t :
  like_match ("%"%char :: q) t = true
  ↔ ∃ pre t', t = pre ++ t' ∧ like_match q t' = true.
Proof.
  induction t as [|x t IH]; rewrite like_star_unfold, orb_true_iff.
  - split.
    + intros [H|H]; [|done]. by exists [], [].
    + intros (pre & t' & Ht & H). left.
      symmetry in Ht. apply app_eq_nil in Ht as [_ ->]. done.
  - rewrite IH. split.
    + intros [H|(pre & t' & -> & H)]; [by exists [], (x :: t)|].
      by exists (x :: pre), t'.
    + intros (pre & t' & Ht & H). destruct pre as [|y pre]; simpl in Ht.
      * left. by rewrite Ht.
      * right. injection Ht as -> ->. eauto.
Qed.

Lemma like_plain c p t :
  ¬ wildcard c →
  like_match (c :: p) t
  = match t with
    | [] => false
    | x :: t' => bool_decide (x = c) && like_match p t'
    end.
Proof.
  unfold wildcard. intros Hc. cbn [like_match].
  rewrite !bool_decide_false by tauto. done.
Qed.

Lemma like_literal p q t :
  Forall (λ c, ¬ wildcard c) p →
  like_match (p ++ q) t = true ↔ ∃ t', t = p ++ t' ∧ like_match q t' = true.
Proof.
  intros Hp. revert t. induction Hp as [|c p Hc _ IH]; intros t.
  - simpl. split; [eauto|]. by intros (t' & -> & H).
  - rewrite <- app_comm_cons, like_plain by done.
    destruct t as [|x t].
    + split; [done|]. by intros (t' & [=] & _).
    + rewrite andb_true_iff, bool_decide_eq_true, IH. split.
      * intros (-> & t' & -> & H). eauto.
      * intros (t' & [= -> ->] & H). eauto.
Qed.

Lemma like_anything t : like_match ["%"%char] t = true.
Proof. apply like_star. exists t, []. by rewrite app_nil_r. Qed.

Lemma search_pattern_chars s :
  lower <$> chars ("%" +:+ s +:+ "%")
  = "%"%char :: (lower <$> chars s) ++ ["%"%char].
Proof. by rewrite !chars_app, !fmap_app. Qed.

(** X18. The search text goes into the [ILIKE] pattern as it is typed.
    A text without [%], [_] and backslash finds the rows that contain it,
    letter case apart.  A wildcard in it stays a wildcard: the search
    [%] matches every text, the search [_] every text that is not empty,
    and a listing that searches for [%] is the unfiltered listing. *)
Theorem search_text_is_used_as_a_pattern (text s : string) :
  (Forall (λ c, ¬ wildcard c) (chars s) →
   ilike text ("%" +:+ s +:+ "%") = true ↔ contains text s)
  ∧ ilike text ("%" +:+ "%" +:+ "%") = true
  ∧ (ilike text ("%" +:+ "_" +:+ "%") = true ↔ text ≠ "")
  ∧ ∀ scan db,
      getFanworks scan (Some (search_for "%")) db = getFanworks scan None db.
Proof.
  split; [|split; [|split]].
  - intros Hplain. unfold ilike, contains.
    rewrite search_pattern_chars, like_star.
    assert (Forall (λ c, ¬ wildcard c) (lower <$> chars s)) as Hl.
    { apply Forall_fmap. eapply Forall_impl; [exact Hplain|].
      intros c Hc. simpl. by rewrite lower_wildcard. }
    split.
    + intros (pre & t' & Ht & H).
      apply (like_literal _ _ _ Hl) in H as (post & -> & _). eauto.
    + intros (pre & post & Ht). exists pre, ((lower <$> chars s) ++ post).
      split; [done|]. apply (like_literal _ _ _ Hl). exists post.
      split; [done|]. apply like_anything.
  - unfold ilike. rewrite search_pattern_chars. apply like_star.
    exists (lower <$> chars text), []. by rewrite app_nil_r.
  - unfold ilike. rewrite search_pattern_chars, like_star. split.
    + intros (pre & t' & Ht & H) ->. simpl in Ht.
      symmetry in Ht. apply app_eq_nil in Ht as [_ ->]. done.
    + intros Hne. destruct text as [|c text]; [done|].
      exists [], (lower <$> chars (String c text)). split; [done|]. simpl.
      apply like_anything.
  - intros scan db.
    assert (where_ (and_ [sql_or (title_ilike ("%" +:+ "%" +:+ "%"))
                            (description_ilike ("%" +:+ "%" +:+ "%"))])
              (fanworks db) = fanworks db) as Hall.
    { cbn [and_ where_]. apply filter_keeps_all, Forall_forall. intros f _.
      apply Is_true_true, search_holds. left.
      unfold ilike. rewrite search_pattern_chars. apply like_star.
      exists (lower <$> chars (fw_title f)), []. by rewrite app_nil_r. }
    unfold getFanworks, mbind, M_bind.
    cbn [mbind option_bind search_for f_type f_rating f_search f_authorId
         f_limit f_offset nonempty_list nonempty_string nonzero push_if
         mret M_ret option_ret app].
    rewrite bool_decide_false by done. cbn [push_if app]. by rewrite Hall.
Qed.

Lemma search_text_is_used_as_a_pattern_witness :
  ilike "Portal art" ("%" +:+ "PORTAL" +:+ "%") = true ↔ contains "Portal art" "PORTAL".
Proof.
  apply (search_text_is_used_as_a_pattern "Portal art" "PORTAL"). by_compute.
Defined.

(** ** Pages of the listing *)

(** The listing before it is cut into pages does not depend on the page
    asked for. *)
Lemma getFanworks_page (scan : Scan Fanwork) (filters : Filters) (db : Db) :
  ∃ all : Result (list Fanwork),
    ∀ limit offset,
      getFanworks scan (Some (page limit offset filters)) db
      = match all with
        | Err e => (Err e, db)
        | Ok l =>
            sql_limit_offset (limit_clause (default 20 (nonzero limit)))
              (offset_clause (default 0 (nonzero offset))) l db
        end.
Proof.
  unfold getFanworks, mbind, M_bind.
  cbn [mbind option_bind page f_type f_rating f_search f_authorId f_limit f_offset].
  destruct (nonempty_string (f_authorId filters)) as [s|].
  - destruct (int4_param_pure (parseInt s)) as [r Hr].
    unfold fmap, M_fmap. rewrite Hr. destruct r as [n|e].
    + by eexists (Ok _).
    + by exists (Err e).
  - by eexists (Ok _).
Qed.

Lemma page_Ok (l : list Fanwork) db n o :
  0 < n → int8 n → 0 ≤ o → int8 o →
  sql_limit_offset (limit_clause (default 20 (nonzero (Some n))))
    (offset_clause (default 0 (nonzero (Some o)))) l db
  = (Ok (take (Z.to_nat n) (drop (Z.to_nat o) l)), db).
Proof.
  intros Hn Hn8 Ho Ho8.
  assert (limit_clause (default 20 (nonzero (Some n))) = Some n) as ->.
  { unfold nonzero, limit_clause. cbn [mbind option_bind].
    rewrite (bool_decide_false (n = 0)) by lia. cbn [from_option id].
    by rewrite bool_decide_false by lia. }
  unfold nonzero, offset_clause. cbn [mbind option_bind].
  destruct (bool_decide (o = 0)) eqn:Eo; cbn [from_option id].
  - apply bool_decide_eq_true in Eo as ->.
    rewrite bool_decide_true by done.
    by rewrite sql_limit_offset_Ok.
  - apply bool_decide_eq_false in Eo.
    rewrite bool_decide_false by done.
    by rewrite sql_limit_offset_Ok.
Qed.

(** X19. Pages of the listing fit together when no two fanworks were
    created at the same time, so that the order of the listing is fixed,
    and the numbers are operands the store accepts.  A page of [n] rows
    at offset [o] holds at most [n] rows, and followed by the page of [m]
    rows at offset [o + n] it is the page of [n + m] rows at offset [o],
    in whatever order the store delivers the rows to each of the three
    queries. *)
Theorem pages_of_the_listing_fit_together
    (scan1 scan2 scan3 : Scan Fanwork) (filters : Filters) (db : Db)
    (n m o : Z) (l1 : list Fanwork) :
  NoDup (fw_createdAt <$> fanworks db) →
  0 < n → 0 < m → 0 ≤ o → int8 (n + m) → int8 (o + n) →
  result (getFanworks scan1 (Some (page (Some n) (Some o) filters))) db
    = Ok l1 →
  (length l1 ≤ Z.to_nat n)%nat
  ∧ ∃ l2,
      result (getFanworks scan2
                (Some (page (Some m) (Some (o + n)) filters))) db
        = Ok l2
      ∧ result (getFanworks scan3
                  (Some (page (Some (n + m)) (Some o) filters))) db
        = Ok (l1 ++ l2).
Proof.
  intros Hnd Hn Hm Ho Hnm Hon. unfold result.
  rewrite (getFanworks_scan scan1), (getFanworks_scan scan2),
    (getFanworks_scan scan3) by done.
  destruct (getFanworks_page table_order filters db) as [all Hall].
  rewrite !Hall. destruct all as [l|e]; [|done].
  unfold int8 in Hnm, Hon.
  rewrite !page_Ok by (unfold int8; lia). cbn [fst]. intros [= <-].
  split; [rewrite length_take; lia|]. eexists. split; [reflexivity|].
  f_equal. rewrite !Z2Nat.inj_add by lia.
  rewrite <- take_take_drop. f_equal.
  by rewrite drop_drop.
Qed.

Lemma pages_of_the_listing_fit_together_witness :
  (length [a_fanwork 2 "Portal" "fanfiction" 1 false 20] ≤ Z.to_nat 1)%nat
  ∧ ∃ l2,
      result (getFanworks table_order
                (Some (page (Some 1) (Some (0 + 1)) no_filters))) db0
        = Ok l2
      ∧ result (getFanworks backwards
                  (Some (page (Some (1 + 1)) (Some 0) no_filters))) db0
        = Ok ([a_fanwork 2 "Portal" "fanfiction" 1 false 20] ++ l2).
Proof.
  apply (pages_of_the_listing_fit_together backwards table_order backwards
           no_filters db0 1 1 0);
    [by_compute | lia | lia | lia | by_compute | by_compute | reflexivity].
Defined.

(** Without the condition on the dates the pages need not fit: of two
    fanworks created at the same time, either may come first, and a
    reader who asks for the first page and then for the second can be
    sent the same fanwork twice and the other one never. *)
Lemma pages_can_repeat_a_row_on_equal_dates :
  let f := a_fanwork 1 "T" "artwork" 1 false 10 in
  result (getFanworks table_order
            (Some (page (Some 1) (Some 0) no_filters))) twins = Ok [f]
  ∧ result (getFanworks backwards
              (Some (page (Some 1) (Some 1) no_filters))) twins = Ok [f].
Proof. split; by vm_compute. Qed.



(** ** The routes of single fanworks *)



(** ** Accounts *)

Section Accounts.

Variable is_email : string → bool.
Variable hashPassword : string → string → string.
Variable comparePassword : string → string → bool.
Variable generateToken : Z → Z → string.

Lemma parse_register_Some body email username password firstName lastName :
  parse_register is_email body
    = Some (email, username, password, firstName, lastName) →
  rb_email body = Text email ∧ rb_username body = Text username
  ∧ rb_password body = Text password ∧ is_email email = true.
Proof using is_email.
  clear hashPassword comparePassword generateToken. unfold parse_register.
  destruct (rb_email body) as [|e|]; try done.
  destruct (rb_username body) as [|u|]; try done.
  destruct (rb_password body) as [|p|]; try done.
  destruct (optional_text (rb_firstName body)); try done.
  destruct (optional_text (rb_lastName body)); try done. simpl.
  destruct (is_email e) eqn:Hvalid; [|done]. simpl.
  destruct (_ && _); [|done]. by intros [= <- <- <- _ _].
Qed.

(** What an accepted registration leaves. *)
Lemma api_register_accepted body salt now st reply st' :
  api_register is_email hashPassword generateToken body salt now st
    = (Sent 200 reply, st') →
  ∃ email username password row,
    rb_email body = Text email ∧ rb_username body = Text username
    ∧ rb_password body = Text password ∧ is_email email = true
    ∧ users (st_db st') = users (st_db st) ++ [row]
    ∧ (u_id row ∉ u_id <$> users (st_db st))
    ∧ u_email row = email ∧ (email ∉ u_email <$> users (st_db st))
    ∧ u_username row = username
    ∧ (username ∉ u_username <$> users (st_db st))
    ∧ u_passwordHash row = hashPassword salt password
    ∧ u_isActive row = Some true
    ∧ u_role row = "user" ∧ u_isBanned row = false
    ∧ u_ageVerified row = false
    ∧ reply = {| ar_user := req_user row;
                 ar_token := generateToken (u_id row) now |}.
Proof using is_email hashPassword generateToken.
  clear comparePassword. unfold api_register.
  destruct (parse_register is_email body)
    as [[[[[email username] password] firstName] lastName]|] eqn:Hparse; [|done].
  apply parse_register_Some in Hparse as (He & Hu & Hp & Hvalid).
  unfold result, getUserByEmail, getUserByUsername. cbn [fst].
  destruct (head _); [done|]. destruct (head _); [done|].
  unfold createUser. cbn [iu_id default from_option id].
  case_decide; [done|]. case_decide as Huniq; [done|]. case_decide; [done|].
  intros [= <- <-]. eexists email, username, password, _.
  cbn [st_db set_st_db users set_users].
  repeat (split; [first [done | reflexivity | tauto]|]). reflexivity.
Qed.

(** X22. Who has registered can log in.  After a registration that was
    accepted, a login with the same e-mail address and password is
    accepted and names the same user, provided the hashing library
    recognises the password in the hash it made of it. *)
Theorem registered_user_can_log_in (body : RegisterBody) (salt : string)
    (now now' : Z) (st st' : Store) (reply : AuthReply) (password : string) :
  api_register is_email hashPassword generateToken body salt now st
    = (Sent 200 reply, st') →
  rb_password body = Text password →
  comparePassword password (hashPassword salt password) = true →
  api_login is_email comparePassword generateToken
    {| lb_email := rb_email body; lb_password := rb_password body |}
    now' (st_db st')
  = Sent 200 {| ar_user := ar_user reply;
                ar_token := generateToken (ru_id (ar_user reply)) now' |}.
Proof.
  intros Hreg Hpw Hcompare.
  apply api_register_accepted in Hreg
    as (email & username & password' & row & He & Hu & Hp & Hvalid & Husers
        & Hid & Hemail & Hnew & Huname & Hnewu & Hhash & Hact & _ & _ & _ & ->).
  rewrite Hpw in Hp. injection Hp as <-.
  unfold api_login, parse_login. cbn [lb_email lb_password].
  rewrite He, Hpw. cbn [text mbind option_bind]. rewrite Hvalid.
  unfold result, getUserByEmail. cbn [fst]. rewrite Husers, filter_app.
  rewrite (filter_none (λ u, u_email u = email)).
  2:{ intros u Hin Heq. apply Hnew. rewrite <- Heq. by apply list_elem_of_fmap_2. }
  rewrite filter_cons_True by done. cbn [app head].
  by rewrite Hact, Hhash, Hcompare.
Qed.

(** X23. A banned user can still log in.  [banUser] changes nothing that
    the login route reads: the answer to any login request is the same
    after a ban as before it, token included. *)
Theorem login_ignores_the_ban (body : LoginBody) (now : Z) (U : Z)
    (data : BanData) (db : Db) :
  api_login is_email comparePassword generateToken body now
    (exec (banUser U data) db)
  = api_login is_email comparePassword generateToken body now db.
Proof using is_email comparePassword generateToken.
  clear hashPassword. unfold exec, banUser. case_decide; [done|]. cbn [snd].
  unfold api_login. destruct (parse_login is_email body) as [[email password]|];
    [|done].
  unfold result, getUserByEmail. cbn [fst users set_users].
  assert (head (filter (λ u, u_email u = email)
                  ((λ u, if decide (u_id u = U) then set_ban data u else u)
                     <$> users db))
          = (λ u, if decide (u_id u = U) then set_ban data u else u)
              <$> head (filter (λ u, u_email u = email) (users db))) as ->.
  { generalize (users db). intros l. induction l as [|u l IH]; [done|].
    rewrite fmap_cons, !filter_cons.
    assert (u_email (if decide (u_id u = U) then set_ban data u else u)
            = u_email u) as -> by (by case_decide).
    case_decide; [done|]. apply IH. }
  destruct (head _) as [u|]; [|done]. cbn [fmap option_fmap option_map].
  by case_decide.
Qed.

(** X24. Registration keeps accounts apart.  Whatever the request and
    whatever the answer, e-mail addresses, user names and keys that were
    unique before [POST /api/auth/register] are unique after it, and no
    existing account is changed. *)
Theorem registration_keeps_accounts_distinct (body : RegisterBody)
    (salt : string) (now : Z) (st : Store) :
  let st' := snd (api_register is_email hashPassword generateToken
                    body salt now st) in
  NoDup (u_email <$> users (st_db st)) →
  NoDup (u_username <$> users (st_db st)) →
  NoDup (u_id <$> users (st_db st)) →
  NoDup (u_email <$> users (st_db st'))
  ∧ NoDup (u_username <$> users (st_db st'))
  ∧ NoDup (u_id <$> users (st_db st'))
  ∧ users (st_db st) `prefix_of` users (st_db st').
Proof using is_email hashPassword generateToken.
  clear comparePassword. intros st' He Hu Hi.
  destruct (api_register is_email hashPassword generateToken body salt now st)
    as [[s reply|s msg] st''] eqn:Hreg; subst st'; cbn [snd].
  - assert (s = 200) as ->.
    { revert Hreg. unfold api_register.
      repeat (case_match; try done); by intros [= <- _ _]. }
    apply api_register_accepted in Hreg
      as (email & username & password' & row & _ & _ & _ & _ & Husers
          & Hid & Hemail & Hnew & Huname & Hnewu & _).
    rewrite Husers, !fmap_app. cbn [fmap list_fmap].
    rewrite Hemail, Huname.
    repeat split; try (apply NoDup_app; split; [done|]; split;
      [|apply NoDup_singleton];
      intros x Hx Hx'; apply list_elem_of_singleton in Hx' as ->; done).
    by eexists.
  - assert (users (st_db st'') = users (st_db st)) as ->.
    { revert Hreg. unfold api_register.
      repeat (case_match; try done); try by intros [= _ _ <-].
      intros [= _ _ <-].
      match goal with H : createUser _ _ = _ |- _ => revert H end.
      unfold createUser. repeat case_decide; try done; by intros [= _ <-]. }
    done.
Qed.

End Accounts.

Lemma registered_user_can_log_in_witness :
  api_login sample_is_email sample_compare sample_token
    {| lb_email := rb_email sample_registration;
       lb_password := rb_password sample_registration |}
    8 (st_db (snd (api_register sample_is_email sample_hash sample_token
                     sample_registration "s1" 7 st0)))
  = Sent 200
      {| ar_user := {| ru_id := 5; ru_email := "c@x.com"; ru_username := "cee" |};
         ar_token := sample_token 5 8 |}.
Proof.
  apply (registered_user_can_log_in sample_is_email sample_hash sample_compare
           sample_token sample_registration "s1" 7 8 st0 _
           {| ar_user := {| ru_id := 5; ru_email := "c@x.com"; ru_username := "cee" |};
              ar_token := sample_token 5 7 |} "secret");
    reflexivity.
Defined.

Lemma registration_keeps_accounts_distinct_witness :
  let st' := snd (api_register sample_is_email sample_hash sample_token
                    sample_registration "s1" 7 st0) in
  NoDup (u_email <$> users (st_db st'))
  ∧ NoDup (u_username <$> users (st_db st'))
  ∧ NoDup (u_id <$> users (st_db st'))
  ∧ users (st_db st0) `prefix_of` users (st_db st').
Proof.
  apply (registration_keeps_accounts_distinct sample_is_email sample_hash
           sample_token sample_registration "s1" 7 st0); by_compute.
Defined.

(** X25. A fresh account passes [authenticateToken] and none of the
    three gates.  With the token that registration returned, the new
    user is let through by [authenticateToken]; [requireModerator],
    [requireAdmin] and [requireAgeVerification] each answer 403 with the
    message of their last check, since a new account has the role
    [user], is not banned and is not age verified. *)
Theorem fresh_account_passes_no_gate (is_email : string → bool)
    (hashPassword : string → string → string) (generateToken : Z → Z → string)
    (verifyToken : string → option Z) (authHeader : option string)
    (body : RegisterBody) (salt : string) (now : Z) (st st' : Store)
    (reply : AuthReply) :
  api_register is_email hashPassword generateToken body salt now st
    = (Sent 200 reply, st') →
  bearer_token authHeader = Some (ar_token reply) →
  verifyToken (ar_token reply) = Some (ru_id (ar_user reply)) →
  authenticateToken verifyToken authHeader (st_db st') = Next (ar_user reply)
  ∧ requireModerator verifyToken authHeader (st_db st')
    = Respond 403 "Moderator access required"
  ∧ requireAdmin verifyToken authHeader (st_db st')
    = Respond 403 "Admin access required"
  ∧ requireAgeVerification verifyToken authHeader (st_db st')
    = Respond 403 "Age verification required for 18+ content".
Proof.
  intros Hreg Hbearer Hverify.
  apply api_register_accepted in Hreg
    as (email & username & password' & row & _ & _ & _ & _ & Husers
        & Hid & _ & _ & _ & _ & _ & Hact & Hrole & Hban & Hage & ->).
  cbn [ar_token ar_user req_user ru_id] in *.
  assert (resolves verifyToken authHeader (st_db st') = Some row) as Hrow.
  { unfold resolves. rewrite Hbearer. cbn [mbind option_bind].
    rewrite Hverify. cbn [mbind option_bind]. rewrite Husers, filter_app.
    rewrite (filter_none (λ u, u_id u = u_id row)).
    2:{ intros u Hin Heq. apply Hid. rewrite <- Heq. by apply list_elem_of_fmap_2. }
    rewrite filter_cons_True by done. cbn [app head mbind option_bind].
    by rewrite Hact. }
  destruct (gates_of_resolved verifyToken authHeader _ _ Hrow)
    as (Ha & _ & Hm & Had & Hag).
  rewrite Ha, Hm, Had, Hag, Hrole, Hban, Hage. done.
Qed.

Lemma fresh_account_passes_no_gate_witness :
  let st' := snd (api_register sample_is_email sample_hash sample_token
                    sample_registration "s1" 7 st0) in
  let user := {| ru_id := 5; ru_email := "c@x.com"; ru_username := "cee" |} in
  authenticateToken sample_verify5 (Some "Bearer tok5") (st_db st') = Next user
  ∧ requireModerator sample_verify5 (Some "Bearer tok5") (st_db st')
    = Respond 403 "Moderator access required"
  ∧ requireAdmin sample_verify5 (Some "Bearer tok5") (st_db st')
    = Respond 403 "Admin access required"
  ∧ requireAgeVerification sample_verify5 (Some "Bearer tok5") (st_db st')
    = Respond 403 "Age verification required for 18+ content".
Proof.
  apply (fresh_account_passes_no_gate sample_is_email sample_hash sample_token
           sample_verify5 (Some "Bearer tok5") sample_registration "s1" 7 st0 _
           {| ar_user := {| ru_id := 5; ru_email := "c@x.com"; ru_username := "cee" |};
              ar_token := sample_token 5 7 |});
    reflexivity.
Defined.

(** ** Reports *)



(** ** The authorization header *)

Lemma split_space_word (w : list ascii) :
  " "%char ∉ w → split_space w = [w].
Proof.
  induction w as [|c w IH]; [done|]. intros Hw.
  apply not_elem_of_cons in Hw as [Hc Hw]. cbn [split_space].
  rewrite bool_decide_false by done. by rewrite IH.
Qed.

Lemma split_space_first (w rest : list ascii) :
  " "%char ∉ w →
  split_space (w ++ " "%char :: rest) = w :: split_space rest.
Proof.
  induction w as [|c w IH]; intros Hw.
  - cbn [app split_space]. by rewrite bool_decide_true.
  - apply not_elem_of_cons in Hw as [Hc Hw]. cbn [app split_space].
    rewrite bool_decide_false by done. by rewrite IH.
Qed.

Lemma bearer_token_of (scheme token : string) :
  " "%char ∉ chars scheme → " "%char ∉ chars token →
  bearer_token (Some (scheme +:+ " " +:+ token)) = nonempty_string (Some token).
Proof.
  intros Hs Ht. unfold bearer_token.
  assert (nonempty_string (Some (scheme +:+ " " +:+ token))
          = Some (scheme +:+ " " +:+ token)) as ->.
  { unfold nonempty_string. cbn [mbind option_bind].
    rewrite bool_decide_false; [done|]. intros Heq.
    apply (f_equal chars) in Heq. rewrite !chars_app in Heq.
    by destruct (chars scheme). }
  cbn [mbind option_bind]. rewrite !chars_app.
  change (chars " ") with [" "%char]. cbn [app].
  rewrite split_space_first, split_space_word by done.
  cbn [lookup list_lookup mbind option_bind]. unfold chars.
  by rewrite String.string_of_list_ascii_of_string.
Qed.

(** X27. The middlewares take the second word of the [Authorization]
    header as the token and do not look at the first.  Whatever word
    stands where [Bearer] should (none at all included), all five
    answer as they do to [Bearer] followed by the same token. *)
Theorem scheme_word_is_not_checked (verifyToken : string → option Z)
    (scheme token : string) (db : Db) :
  " "%char ∉ chars scheme → " "%char ∉ chars token →
  let given := Some (scheme +:+ " " +:+ token) in
  let bearer := Some ("Bearer" +:+ " " +:+ token) in
  authenticateToken verifyToken given db
    = authenticateToken verifyToken bearer db
  ∧ optionalAuth verifyToken given db = optionalAuth verifyToken bearer db
  ∧ requireModerator verifyToken given db
    = requireModerator verifyToken bearer db
  ∧ requireAdmin verifyToken given db = requireAdmin verifyToken bearer db
  ∧ requireAgeVerification verifyToken given db
    = requireAgeVerification verifyToken bearer db.
Proof.
  intros Hs Ht given bearer.
  assert (bearer_token given = bearer_token bearer) as Hsame.
  { subst given bearer. rewrite !bearer_token_of; try done.
    by_compute. }
  unfold authenticateToken, optionalAuth, requireModerator, requireAdmin,
    requireAgeVerification. by rewrite Hsame.
Qed.

Lemma scheme_word_is_not_checked_witness :
  authenticateToken sample_verify (Some ("Basic" +:+ " " +:+ "tok1")) db0
    = authenticateToken sample_verify (Some ("Bearer" +:+ " " +:+ "tok1")) db0.
Proof.
  apply (scheme_word_is_not_checked sample_verify "Basic" "tok1" db0);
    by_compute.
Defined.

(** ** The unfiltered listing, and a like taken back *)



(** X28. Asked without filters, the revision of [getFanworks] that
    applies a limit only when one is given returns every fanwork of the
    table, hidden ones included, latest first; the revision with the
    default limit returns the first 20 rows of such a list.  When no two
    fanworks were created at the same time there is one such list, and
    the second answer is the first 20 rows of the first. *)
Theorem unfiltered_listing_is_the_whole_table (scan scan' : Scan Fanwork)
    (db : Db) :
  ∃ all all',
    StringUserId.getFanworks scan None db = (Ok all, db)
    ∧ all ≡ₚ fanworks db
    ∧ Sorted not_before all
    ∧ getFanworks scan' None db = (Ok (take 20 all'), db)
    ∧ all' ≡ₚ fanworks db
    ∧ Sorted not_before all'
    ∧ (NoDup (fw_createdAt <$> fanworks db) → all' = all).
Proof.
  exists (order_desc (scan (fanworks db))), (order_desc (scan' (fanworks db))).
  split; [reflexivity|].
  split; [by rewrite order_desc_perm, scan_perm|].
  split; [apply order_desc_sorted|].
  split; [reflexivity|].
  split; [by rewrite order_desc_perm, scan_perm|].
  split; [apply order_desc_sorted|].
  intros Hnd. by rewrite !order_desc_scan.
Qed.

Lemma unfiltered_listing_is_the_whole_table_witness :
  ∃ all,
    StringUserId.getFanworks backwards None db0 = (Ok all, db0)
    ∧ getFanworks table_order None db0 = (Ok (take 20 all), db0).
Proof.
  destruct (unfiltered_listing_is_the_whole_table backwards table_order db0)
    as (all & all' & H1 & _ & _ & H2 & _ & _ & Hsame).
  assert (NoDup (fw_createdAt <$> fanworks db0)) as Hnd by by_compute.
  exists all. split; [exact H1|]. by rewrite <- (Hsame Hnd).
Defined.



Lemma toggle_touches_one_pair_only_witness :
  result (getFanworkCounts 2) (exec (toggle likes_t 2 1) db0)
  = result (getFanworkCounts 2) db0.
Proof.
  apply (toggle_touches_one_pair_only likes_t 2 1 db0). done.
Defined.
